(** * Metaverse World Builder: a shallow embedding of [metaverse_builder.py]

    The builder keeps three SQLite tables (worlds, world_objects,
    player_positions) and fills them from a seeded random source.  The
    embedding threads one explicit state through every method of
    [MetaverseBuilder], and through [main] behind its argument parser: the
    three tables, the state of Python's global [random] module and the wall
    clock read by [datetime.now()].

    What the program takes from outside its own source is kept abstract:
    IEEE doubles, the Mersenne Twister behind [random], the [json] codec and
    the two text/number conversions of SQLite's column affinity are fields
    of the classes [Floats] and [Library].  Every definition below works for
    any instance; [Module Reference] gives one that computes. *)

From Stdlib Require Import ZArith Ascii String List Lia.
From stdpp Require Import base tactics option list strings pretty.

#[local] Set Warnings "-register-all".
Open Scope string_scope.
Open Scope list_scope.
Open Scope Z_scope.

(** ** Floating point, as far as the program looks at it *)

Class Floats := {
  (** Python [float] values (NaN apart, which SQLite stores as NULL). *)
  float : Type;
  (** [float(n)]; also SQLite's INTEGER to REAL conversion. *)
  float_of_int : Z → float;
  (** [int(t * 1000)] for a timestamp [t] in seconds. *)
  epoch_ms : float → Z;
  (** [datetime.fromtimestamp(t).isoformat()]. *)
  isoformat : float → string;
  (** SQLite: the number a TEXT value is converted to when it is stored in
      a column of REAL affinity, if it looks like a numeric literal. *)
  sqlite_numeric : string → option float;
  (** SQLite: the text a REAL value is converted to when it is stored in a
      column of TEXT affinity. *)
  sqlite_render : float → string;
}.

Section Values.
Context `{Floats}.

(** A Python number passed where the signature says [float]. *)
Inductive num :=
  | Int (n : Z)
  | Float (f : float).

(** Python values that can sit in a keyword-argument bag and go through
    [json.dumps]: the JSON data model. *)
Inductive value :=
  | VNone
  | VBool (b : bool)
  | VInt (n : Z)
  | VFloat (f : float)
  | VStr (s : string)
  | VList (l : list value)
  | VDict (d : list (string * value)).

(** What a SQLite cell holds. *)
Inductive sqlval :=
  | SNull
  | SInteger (n : Z)
  | SReal (f : float)
  | SText (s : string).

(** The Python value [sqlite3] hands back for a cell. *)
Definition value_of_sql (c : sqlval) : value :=
  match c with
  | SNull => VNone
  | SInteger n => VInt n
  | SReal f => VFloat f
  | SText s => VStr s
  end.

(** [dict.get(key, default)] on a keyword-argument bag (keys are unique). *)
Fixpoint dict_get {A} (d : list (string * A)) (key : string) (default : A) : A :=
  match d with
  | [] => default
  | (k, v) :: d' => if String.eqb k key then v else dict_get d' key default
  end.

Definition dict_keys {A} (d : list (string * A)) : list string := d.*1.

End Values.

(** ** Exceptions and results *)

Inductive exn :=
  | ValueError (msg : string)
  | TypeError
  | OverflowError        (* a Python int outside SQLite's 64-bit INTEGER *)
  | InterfaceError       (* sqlite3: a parameter of an unsupported type *)
  | IntegrityError       (* sqlite3: UNIQUE constraint failed *)
  | JSONDecodeError.

Inductive result (A : Type) :=
  | Ok (a : A)
  | Raise (e : exn).
Arguments Ok {A} a.
Arguments Raise {A} e.

#[export] Instance result_ret : MRet result := λ A a, Ok a.
#[export] Instance result_bind : MBind result := λ A B k r,
  match r with
  | Ok a => k a
  | Raise e => Raise e
  end.

(** The two uses of [ValueError] that the specification tells apart. *)
Definition InvalidArgument (e : exn) : Prop :=
  ∃ rest, e = ValueError ("Invalid " +:+ rest).
Definition NotFound (e : exn) : Prop :=
  ∃ world_id, e = ValueError ("World " +:+ world_id +:+ " not found").

(** ** Module constants *)

Definition THEMES : list string :=
  ["cyberpunk"; "fantasy"; "space"; "underwater"; "desert"; "arctic"; "jungle"; "neon"].

Definition OBJECT_TYPES : list string :=
  ["building"; "tree"; "light"; "terrain"; "water"; "vehicle"; "npc"; "portal"; "artifact"].

Definition THEME_COLORS : list (string * string) :=
  [ ("cyberpunk", "#FF00FF");
    ("fantasy", "#8B4513");
    ("space", "#000080");
    ("underwater", "#0000CD");
    ("desert", "#F4A460");
    ("arctic", "#F0F8FF");
    ("jungle", "#228B22");
    ("neon", "#FFFF00") ].

(** ** What the program imports: [random] and [json] *)

Class Library `{Floats} := {
  (** The state of the module-level generator of [random]. *)
  rng : Type;
  (** [random.seed(a)]: the state after seeding with the integer [a]. *)
  random_seed : Z → rng;
  (** [random.randint(a, b)]: the draw and the next state. *)
  random_randint : Z → Z → rng → Z * rng;
  (** [random.uniform(a, b)]: the draw and the next state. *)
  random_uniform : Z → Z → rng → float * rng;
  (** [json.dumps] and [json.loads] ([None] when the text does not parse). *)
  json_dumps : value → string;
  json_loads : string → option value;
}.

(** [random.randint(a, b)] returns an integer N with a <= N <= b. *)
Definition randint_in_range `{Library} : Prop :=
  ∀ a b g, a ≤ b → a ≤ (random_randint a b g).1 ≤ b.

Section Builder.
Context `{Library}.

(** ** Entity model *)

Record WorldObject := {
  wo_id : string;
  wo_type : string;
  wo_name : string;
  wo_x : num;
  wo_y : num;
  wo_z : num;
  wo_scale : value;
  wo_rotation : value;
  wo_color : value;
  wo_properties : value;
}.

(** The fields [created_at] and [description] are typed by what the
    constructor calls of the program put there, see [MetaverseWorld_of_row]. *)
Record MetaverseWorld := {
  mw_id : string;
  mw_name : string;
  mw_theme : string;
  mw_seed : Z;
  mw_size : Z;
  mw_objects : list WorldObject;
  mw_created_at : value;
  mw_description : value;
}.

(** ** The three tables, in rowid order *)

(** worlds(id PK, name, theme, seed, size, created_at, description) *)
Record world_row := {
  wr_id : string;
  wr_name : string;
  wr_theme : string;
  wr_seed : Z;
  wr_size : Z;
  wr_created_at : float;
  wr_description : string;
}.

(** world_objects(id PK, world_id, type, name, x, y, z, scale, rotation,
    color, properties).  The first seven columns and the last are always
    bound to a [str] or to a number; [scale], [rotation] and [color] come
    out of the keyword bag and hold whatever SQLite made of them. *)
Record object_row := {
  or_id : string;
  or_world_id : string;
  or_type : string;
  or_name : string;
  or_x : float;
  or_y : float;
  or_z : float;
  or_scale : sqlval;
  or_rotation : sqlval;
  or_color : sqlval;
  or_properties : string;
}.

(** player_positions(player_id, world_id, x, y, z, teleported_at),
    PK = (player_id, world_id) *)
Record position_row := {
  pr_player_id : string;
  pr_world_id : string;
  pr_x : float;
  pr_y : float;
  pr_z : float;
  pr_teleported_at : float;
}.

(** ** Program state *)

Record state := {
  worlds : list world_row;
  world_objects : list object_row;
  player_positions : list position_row;
  (** the generator shared by every caller of [random] *)
  random : rng;
  (** [clock n] is what the n-th call of [datetime.now().timestamp()]
      returns; [ticks] counts the calls made so far *)
  clock : nat → float;
  ticks : nat;
}.

Definition set_worlds (ws : list world_row) (st : state) : state :=
  {| worlds := ws; world_objects := world_objects st;
     player_positions := player_positions st; random := random st;
     clock := clock st; ticks := ticks st |}.

Definition set_world_objects (os : list object_row) (st : state) : state :=
  {| worlds := worlds st; world_objects := os;
     player_positions := player_positions st; random := random st;
     clock := clock st; ticks := ticks st |}.

Definition set_player_positions (ps : list position_row) (st : state) : state :=
  {| worlds := worlds st; world_objects := world_objects st;
     player_positions := ps; random := random st;
     clock := clock st; ticks := ticks st |}.

Definition set_random (g : rng) (st : state) : state :=
  {| worlds := worlds st; world_objects := world_objects st;
     player_positions := player_positions st; random := g;
     clock := clock st; ticks := ticks st |}.

Definition set_ticks (n : nat) (st : state) : state :=
  {| worlds := worlds st; world_objects := world_objects st;
     player_positions := player_positions st; random := random st;
     clock := clock st; ticks := n |}.

(** ** The monad of a method body: state plus exceptions.
    An exception keeps the state reached so far: every statement that went
    through before it stays done. *)

Definition M (A : Type) : Type := state → result A * state.

Definition raise {A} (e : exn) : M A := λ st, (Raise e, st).
Definition lift {A} (r : result A) : M A := λ st, (r, st).

#[export] Instance M_ret : MRet M := λ A a st, (Ok a, st).
#[export] Instance M_bind : MBind M := λ A B k m st,
  match m st with
  | (Ok a, st') => k a st'
  | (Raise e, st') => (Raise e, st')
  end.

(** [for x in xs: body(x)] *)
Fixpoint for_each {A} (xs : list A) (body : A → M unit) : M unit :=
  match xs with
  | [] => mret ()
  | x :: xs' => body x;; for_each xs' body
  end.

(** [range(0, n)] and [range(n)] *)
Definition range (n : Z) : list Z := Z.of_nat <$> seq 0 (Z.to_nat n).

(** ** The collaborators: clock, random source, SQLite *)

(** [datetime.now().timestamp()] *)
Definition datetime_now : M float := λ st,
  (Ok (clock st (ticks st)), set_ticks (S (ticks st)) st).

(** [random.seed(a)], [random.randint(a, b)], [random.uniform(a, b)] on the
    one generator of the process. *)
Definition seed_random (a : Z) : M unit := λ st,
  (Ok (), set_random (random_seed a) st).
Definition randint (a b : Z) : M Z := λ st,
  let (n, g) := random_randint a b (random st) in (Ok n, set_random g st).
Definition uniform (a b : Z) : M float := λ st,
  let (x, g) := random_uniform a b (random st) in (Ok x, set_random g st).

(** sqlite3 adapts a Python int to a signed 64-bit INTEGER. *)
Definition int64 (n : Z) : bool := (- 2 ^ 63 <=? n) && (n <? 2 ^ 63).

Definition bind_int (n : Z) : result Z :=
  if int64 n then Ok n else Raise OverflowError.

(** A number bound to a REAL column: an int is adapted, then converted. *)
Definition bind_real (x : num) : result float :=
  match x with
  | Int n => if int64 n then Ok (float_of_int n) else Raise OverflowError
  | Float f => Ok f
  end.

(** A value of the keyword bag bound as a statement parameter. *)
Definition bind_value (v : value) : result sqlval :=
  match v with
  | VNone => Ok SNull
  | VBool b => Ok (SInteger (if b then 1 else 0))
  | VInt n => if int64 n then Ok (SInteger n) else Raise OverflowError
  | VFloat f => Ok (SReal f)
  | VStr s => Ok (SText s)
  | VList _ | VDict _ => Raise InterfaceError
  end.

(** Column affinity, applied to a cell when it is stored. *)
Definition real_affinity (c : sqlval) : sqlval :=
  match c with
  | SInteger n => SReal (float_of_int n)
  | SText s => match sqlite_numeric s with Some f => SReal f | None => SText s end
  | _ => c
  end.

Definition text_affinity (c : sqlval) : sqlval :=
  match c with
  | SInteger n => SText (pretty n)
  | SReal f => SText (sqlite_render f)
  | _ => c
  end.

(** [conn.commit()].  There is one connection, and it sees its own
    statements as soon as they ran, so nothing is left to do here. *)
Definition commit : M unit := mret ().

(** A row reaches a table only if its primary key is not there yet. *)
Definition store_world (r : world_row) : M unit := λ st,
  if bool_decide (wr_id r ∈ wr_id <$> worlds st)
  then (Raise IntegrityError, st)
  else (Ok (), set_worlds (worlds st ++ [r]) st).

Definition store_object (r : object_row) : M unit := λ st,
  if bool_decide (or_id r ∈ or_id <$> world_objects st)
  then (Raise IntegrityError, st)
  else (Ok (), set_world_objects (world_objects st ++ [r]) st).

(** INSERT INTO worlds (id, name, theme, seed, size, created_at, description) *)
Definition insert_world (world_id name theme : string) (seed size : Z)
    (created_at : float) (description : string) : M unit :=
  seed ← lift (bind_int seed);
  size ← lift (bind_int size);
  store_world
    {| wr_id := world_id; wr_name := name; wr_theme := theme;
       wr_seed := seed; wr_size := size; wr_created_at := created_at;
       wr_description := description |}.

(** INSERT INTO world_objects (id, world_id, type, name, x, y, z, scale,
    rotation, color, properties): the parameters are bound in order, then
    the row is stored. *)
Definition object_row_of (obj_id world_id type_ name : string) (x y z : num)
    (scale rotation color : value) (properties : string) : result object_row :=
  x ← bind_real x;
  y ← bind_real y;
  z ← bind_real z;
  scale ← bind_value scale;
  rotation ← bind_value rotation;
  color ← bind_value color;
  mret {| or_id := obj_id; or_world_id := world_id; or_type := type_;
          or_name := name; or_x := x; or_y := y; or_z := z;
          or_scale := real_affinity scale;
          or_rotation := real_affinity rotation;
          or_color := text_affinity color;
          or_properties := properties |}.

Definition insert_object (obj_id world_id type_ name : string) (x y z : num)
    (scale rotation color : value) (properties : string) : M unit :=
  row ← lift (object_row_of obj_id world_id type_ name x y z
                scale rotation color properties);
  store_object row.

(** SELECT * FROM worlds WHERE id = ?, then [fetchone()] *)
Definition select_world (world_id : string) : M (option world_row) := λ st,
  (Ok (find (λ r, String.eqb (wr_id r) world_id) (worlds st)), st).

(** SELECT id, type, name, x, y, z, scale, rotation, color, properties
    FROM world_objects WHERE world_id = ?, then [fetchall()] *)
Definition select_objects (world_id : string) : M (list object_row) := λ st,
  (Ok (filter (λ r, or_world_id r = world_id) (world_objects st)), st).

(** ** MetaverseBuilder *)

(** [MetaverseWorld( *row)] on a row of [SELECT * FROM worlds].  The row has
    the seven columns id, name, theme, seed, size, created_at, description;
    the dataclass has the eight fields id, name, theme, seed, size, objects,
    created_at, description.  Filled by position, [objects] receives
    row[5] (the creation time, replaced by the caller before anything reads
    it), [created_at] receives row[6] (the description text) and
    [description] keeps its default. *)
Definition MetaverseWorld_of_row (row : world_row) (objects : list WorldObject)
    : MetaverseWorld :=
  {| mw_id := wr_id row; mw_name := wr_name row; mw_theme := wr_theme row;
     mw_seed := wr_seed row; mw_size := wr_size row;
     mw_objects := objects;
     mw_created_at := VStr (wr_description row);
     mw_description := VStr "" |}.

(** [WorldObject(r[0], ..., r[8], json.loads(r[9]))] *)
Definition WorldObject_of_row (r : object_row) : result WorldObject :=
  match json_loads (or_properties r) with
  | Some properties =>
      Ok {| wo_id := or_id r; wo_type := or_type r; wo_name := or_name r;
            wo_x := Float (or_x r); wo_y := Float (or_y r); wo_z := Float (or_z r);
            wo_scale := value_of_sql (or_scale r);
            wo_rotation := value_of_sql (or_rotation r);
            wo_color := value_of_sql (or_color r);
            wo_properties := properties |}
  | None => Raise JSONDecodeError
  end.

Fixpoint load_objects (rows : list object_row) : result (list WorldObject) :=
  match rows with
  | [] => Ok []
  | r :: rows' =>
      match WorldObject_of_row r with
      | Ok o =>
          match load_objects rows' with
          | Ok os => Ok (o :: os)
          | Raise e => Raise e
          end
      | Raise e => Raise e
      end
  end.

Definition get_world (world_id : string) : M (option MetaverseWorld) :=
  row ← select_world world_id;
  match row with
  | Some row =>
      rows ← select_objects world_id;
      objects ← lift (load_objects rows);
      mret (Some (MetaverseWorld_of_row row objects))
  | None => mret None
  end.

Definition create_world (name theme : string) (seed : option Z) (size : Z)
    : M MetaverseWorld :=
  if bool_decide (theme ∉ THEMES) then
    raise (ValueError ("Invalid theme. Choose from: " +:+ String.concat ", " THEMES))
  else
    seed ← match seed with
           | None => randint 1 1000000
           | Some seed => mret seed
           end;
    now ← datetime_now;
    let world_id := "world_" +:+ pretty (epoch_ms now) in
    insert_world world_id name theme seed size now
      ("A " +:+ theme +:+ " metaverse world");;
    commit;;
    mret {| mw_id := world_id; mw_name := name; mw_theme := theme;
            mw_seed := seed; mw_size := size; mw_objects := [];
            mw_created_at := VFloat now; mw_description := VStr "" |}.

(** The keys that [add_object] takes out of the keyword bag. *)
Definition reserved_keys : list string := ["scale"; "rotation"; "color"].

Definition add_object (world_id type_ name : string) (x y z : num)
    (props : list (string * value)) : M WorldObject :=
  if bool_decide (type_ ∉ OBJECT_TYPES) then
    raise (ValueError ("Invalid type. Choose from: " +:+ String.concat ", " OBJECT_TYPES))
  else
    world ← get_world world_id;
    match world with
    | None => raise (ValueError ("World " +:+ world_id +:+ " not found"))
    | Some world =>
        now ← datetime_now;
        let obj_id := "obj_" +:+ pretty (epoch_ms now) in
        let scale := dict_get props "scale" (VFloat (float_of_int 1)) in
        let rotation := dict_get props "rotation" (VFloat (float_of_int 0)) in
        let color := dict_get props "color"
                       (VStr (dict_get THEME_COLORS (mw_theme world) "#FFFFFF")) in
        let properties :=
          json_dumps (VDict (filter (λ kv, kv.1 ∉ reserved_keys) props)) in
        insert_object obj_id world_id type_ name x y z scale rotation color properties;;
        commit;;
        match json_loads properties with
        | Some loaded =>
            mret {| wo_id := obj_id; wo_type := type_; wo_name := name;
                    wo_x := x; wo_y := y; wo_z := z;
                    wo_scale := scale; wo_rotation := rotation; wo_color := color;
                    wo_properties := loaded |}
        | None => raise JSONDecodeError
        end
    end.

Definition _get_terrain_color (theme : string) : string :=
  let colors :=
    [ ("cyberpunk", "#1a1a2e");
      ("fantasy", "#8B7355");
      ("space", "#1a1a3a");
      ("underwater", "#006994");
      ("desert", "#C2B280");
      ("arctic", "#FFFAFA");
      ("jungle", "#355C3D");
      ("neon", "#00FF00") ] in
  dict_get colors theme "#808080".

(** [int(size / 256)]: true division, then truncation towards zero.  The
    quotient by a power of two is exact in a double as long as the size
    itself is, that is below 2^53 in absolute value. *)
Definition grid_size_of (size : Z) : Z := size ÷ 256.

Definition generate_terrain (world_id : string) : M unit :=
  world ← get_world world_id;
  match world with
  | None => raise (ValueError ("World " +:+ world_id +:+ " not found"))
  | Some world =>
      seed_random (mw_seed world);;
      let grid_size := grid_size_of (mw_size world) in
      for_each (range grid_size) (λ i,
        for_each (range grid_size) (λ j,
          let x := i * 256 in
          let z := j * 256 in
          height ← randint (-10) 50;
          add_object world_id "terrain"
            ("terrain_" +:+ pretty i +:+ "_" +:+ pretty j)
            (Int x) (Int height) (Int z)
            [ ("scale", VInt 256);
              ("color", VStr (_get_terrain_color (mw_theme world))) ];;
          mret ()))
  end.

Definition populate_world (world_id : string) : M unit :=
  world ← get_world world_id;
  match world with
  | None => raise (ValueError ("World " +:+ world_id +:+ " not found"))
  | Some world =>
      seed_random (mw_seed world);;
      for_each (range 8) (λ i,
        x ← uniform 0 (mw_size world);
        z ← uniform 0 (mw_size world);
        add_object world_id "building"
          (mw_theme world +:+ "_building_" +:+ pretty i)
          (Float x) (Int 20) (Float z) [ ("scale", VInt 20) ];;
        mret ());;
      (if bool_decide (mw_theme world ∉ ["space"; "underwater"]) then
         for_each (range 15) (λ i,
           x ← uniform 0 (mw_size world);
           z ← uniform 0 (mw_size world);
           add_object world_id "tree" ("tree_" +:+ pretty i)
             (Float x) (Int 5) (Float z) [ ("scale", VInt 5) ];;
           mret ())
       else mret ());;
      for_each (range 4) (λ i,
        x ← uniform 0 (mw_size world);
        z ← uniform 0 (mw_size world);
        add_object world_id "light" ("light_" +:+ pretty i)
          (Float x) (Int 100) (Float z)
          [ ("scale", VInt 2); ("color", VStr "#FFFF00") ];;
        mret ());;
      (if String.eqb (mw_theme world) "cyberpunk" then
         add_object world_id "npc" "neon_runner" (Int 500) (Int 50) (Int 500)
           [ ("scale", VInt 2); ("color", VStr "#FF00FF") ];;
         mret ()
       else if String.eqb (mw_theme world) "fantasy" then
         add_object world_id "artifact" "ancient_stone" (Int 512) (Int 20) (Int 512)
           [ ("scale", VInt 10); ("color", VStr "#808080") ];;
         mret ()
       else if String.eqb (mw_theme world) "space" then
         add_object world_id "portal" "stargate" (Int 512) (Int 100) (Int 512)
           [ ("scale", VInt 50); ("color", VStr "#00FFFF") ];;
         mret ()
       else mret ());;
      commit
  end.

(** *** Exports *)

(** [datetime.fromtimestamp(v).isoformat()]: [fromtimestamp] takes a
    number and raises TypeError on anything else. *)
Definition fromtimestamp_isoformat (v : value) : result string :=
  match v with
  | VFloat t => Ok (isoformat t)
  | VInt n => Ok (isoformat (float_of_int n))
  | VBool b => Ok (isoformat (float_of_int (if b then 1 else 0)))
  | VNone | VStr _ | VList _ | VDict _ => Raise TypeError
  end.

Record position := { pos_x : num; pos_y : num; pos_z : num }.

Record object_descriptor := {
  od_id : string;
  od_type : string;
  od_name : string;
  od_position : position;
  od_scale : value;
  od_rotation : value;
  od_color : value;
  od_properties : value;
}.

Record scene := {
  sc_id : string;
  sc_name : string;
  sc_theme : string;
  sc_seed : Z;
  sc_size : Z;
  sc_objects : list object_descriptor;
  sc_created_at : string;
}.

Definition describe (obj : WorldObject) : object_descriptor :=
  {| od_id := wo_id obj; od_type := wo_type obj; od_name := wo_name obj;
     od_position := {| pos_x := wo_x obj; pos_y := wo_y obj; pos_z := wo_z obj |};
     od_scale := wo_scale obj; od_rotation := wo_rotation obj;
     od_color := wo_color obj; od_properties := wo_properties obj |}.

Definition export_json (world_id : string) : M scene :=
  world ← get_world world_id;
  match world with
  | None => raise (ValueError ("World " +:+ world_id +:+ " not found"))
  | Some world =>
      let objects_data := describe <$> mw_objects world in
      created_at ← lift (fromtimestamp_isoformat (mw_created_at world));
      mret {| sc_id := mw_id world; sc_name := mw_name world;
              sc_theme := mw_theme world; sc_seed := mw_seed world;
              sc_size := mw_size world; sc_objects := objects_data;
              sc_created_at := created_at |}
  end.

Record gltf_scene := { gs_name : string; gs_nodes : list Z }.

Record gltf_node := {
  gn_name : string;
  gn_translation : list num;
  gn_scale : list value;
}.

(** [{"primitives": [{"attributes": {}}]}]: a mesh is the list of its
    primitives, a primitive the (empty) mapping of its attributes. *)
Record gltf_primitive := { gp_attributes : list (string * value) }.
Record gltf_mesh := { gm_primitives : list gltf_primitive }.

Record gltf := {
  g_asset : list (string * string);
  g_scene : Z;
  g_scenes : list gltf_scene;
  g_nodes : list gltf_node;
  g_meshes : list gltf_mesh;
}.

Definition gltf_node_of (obj : WorldObject) : gltf_node :=
  {| gn_name := wo_name obj;
     gn_translation := [wo_x obj; wo_y obj; wo_z obj];
     gn_scale := [wo_scale obj; wo_scale obj; wo_scale obj] |}.

Definition placeholder_mesh : gltf_mesh :=
  {| gm_primitives := [ {| gp_attributes := [] |} ] |}.

Definition export_gltf_stub (world_id : string) : M gltf :=
  world ← get_world world_id;
  match world with
  | None => raise (ValueError ("World " +:+ world_id +:+ " not found"))
  | Some world =>
      mret {| g_asset := [ ("version", "2.0"); ("generator", "MetaverseBuilder") ];
              g_scene := 0;
              g_scenes := [ {| gs_name := mw_name world;
                               gs_nodes := range (Z.of_nat (length (mw_objects world))) |} ];
              g_nodes := gltf_node_of <$> mw_objects world;
              g_meshes := (λ _, placeholder_mesh) <$> mw_objects world |}
  end.

(** *** Listing *)

Record world_summary := {
  ws_id : string;
  ws_name : string;
  ws_theme : string;
  ws_object_count : nat;
  ws_created_at : string;
}.

(** SELECT COUNT( * ) FROM world_objects WHERE world_id = ?, then
    [fetchone()[0]] *)
Definition count_objects (world_id : string) : M nat := λ st,
  (Ok (length (filter (λ r, or_world_id r = world_id) (world_objects st))), st).

(** The loop of [list_worlds] over the rows of
    SELECT id, name, theme, created_at FROM worlds. *)
Fixpoint summarize (rows : list world_row) : M (list world_summary) :=
  match rows with
  | [] => mret []
  | row :: rows' =>
      obj_count ← count_objects (wr_id row);
      created_at ← lift (fromtimestamp_isoformat (VFloat (wr_created_at row)));
      rest ← summarize rows';
      mret ({| ws_id := wr_id row; ws_name := wr_name row;
               ws_theme := wr_theme row; ws_object_count := obj_count;
               ws_created_at := created_at |} :: rest)
  end.

Definition list_worlds : M (list world_summary) := λ st, summarize (worlds st) st.

(** *** Player positions *)

(** INSERT INTO player_positions (player_id, world_id, x, y, z, teleported_at) *)
Definition store_position (r : position_row) : M unit := λ st,
  if bool_decide ((pr_player_id r, pr_world_id r) ∈
                  (λ p, (pr_player_id p, pr_world_id p)) <$> player_positions st)
  then (Raise IntegrityError, st)
  else (Ok (), set_player_positions (player_positions st ++ [r]) st).

Definition position_row_of (player_id world_id : string) (x y z : num)
    (teleported_at : float) : result position_row :=
  x ← bind_real x;
  y ← bind_real y;
  z ← bind_real z;
  mret {| pr_player_id := player_id; pr_world_id := world_id;
          pr_x := x; pr_y := y; pr_z := z; pr_teleported_at := teleported_at |}.

Definition insert_position (player_id world_id : string) (x y z : num)
    (teleported_at : float) : M unit :=
  row ← lift (position_row_of player_id world_id x y z teleported_at);
  store_position row.

(** UPDATE player_positions SET x = ?, y = ?, z = ?, teleported_at = ?
    WHERE player_id = ? AND world_id = ? *)
Definition rewrite_position (x y z teleported_at : float)
    (player_id world_id : string) (p : position_row) : position_row :=
  if String.eqb (pr_player_id p) player_id && String.eqb (pr_world_id p) world_id
  then {| pr_player_id := pr_player_id p; pr_world_id := pr_world_id p;
          pr_x := x; pr_y := y; pr_z := z; pr_teleported_at := teleported_at |}
  else p.

Definition rewrite_positions (x y z teleported_at : float)
    (player_id world_id : string) : M unit := λ st,
  (Ok (), set_player_positions
     (rewrite_position x y z teleported_at player_id world_id
        <$> player_positions st) st).

Definition update_position (x y z : num) (teleported_at : float)
    (player_id world_id : string) : M unit :=
  x ← lift (bind_real x);
  y ← lift (bind_real y);
  z ← lift (bind_real z);
  rewrite_positions x y z teleported_at player_id world_id.

(** [try: body  except sqlite3.IntegrityError: handler] *)
Definition except_IntegrityError {A} (body handler : M A) : M A := λ st,
  match body st with
  | (Raise IntegrityError, st') => handler st'
  | outcome => outcome
  end.

Definition teleport (world_id player_id : string) (x y z : num) : M unit :=
  now ← datetime_now;
  except_IntegrityError
    (insert_position player_id world_id x y z now)
    (update_position x y z now player_id world_id);;
  commit.

(** [_init_db] on a new database file: the three tables exist and are
    empty.  The generator and the clock are whatever the process has. *)
Definition empty_database (g : rng) (clk : nat → float) : state :=
  {| worlds := []; world_objects := []; player_positions := [];
     random := g; clock := clk; ticks := 0 |}.

End Builder.

(** ** The command line

    [main] from the point where [parse_args()] has returned and the builder
    is connected: the state it runs in is the database as [_init_db] leaves
    it (CREATE TABLE IF NOT EXISTS keeps the rows of an existing file).  The
    result of a run is the list of the lines it printed; no branch prints
    before its last statement that can raise, so a run that raises has
    printed nothing. *)

Section CommandLine.
Context `{Library}.

(** [json.dumps(data, indent=2)]: the codec's indented output. *)
Variable json_dumps_indent : value → string.

(** The value of [--format]. *)
Inductive export_format :=
  | json_format
  | gltf_format.

(** The namespace that [parse_args()] returns: the sub-command with its
    arguments, or no sub-command at all ([args.command] is None). *)
Inductive arguments :=
  | create_command (name theme : string) (seed : option Z)
  | populate_command (world_id : string)
  | export_command (world_id : string) (format : export_format)
  | no_command.

Definition value_of_num (x : num) : value :=
  match x with
  | Int n => VInt n
  | Float f => VFloat f
  end.

(** The dictionaries that the two exports build, as [json.dumps] gets them. *)
Definition value_of_descriptor (d : object_descriptor) : value :=
  VDict [ ("id", VStr (od_id d));
          ("type", VStr (od_type d));
          ("name", VStr (od_name d));
          ("position", VDict [ ("x", value_of_num (pos_x (od_position d)));
                               ("y", value_of_num (pos_y (od_position d)));
                               ("z", value_of_num (pos_z (od_position d))) ]);
          ("scale", od_scale d);
          ("rotation", od_rotation d);
          ("color", od_color d);
          ("properties", od_properties d) ].

Definition value_of_scene (s : scene) : value :=
  VDict [ ("id", VStr (sc_id s));
          ("name", VStr (sc_name s));
          ("theme", VStr (sc_theme s));
          ("seed", VInt (sc_seed s));
          ("size", VInt (sc_size s));
          ("objects", VList (value_of_descriptor <$> sc_objects s));
          ("created_at", VStr (sc_created_at s)) ].

Definition value_of_gltf (g : gltf) : value :=
  VDict [ ("asset", VDict ((λ kv, (kv.1, VStr kv.2)) <$> g_asset g));
          ("scene", VInt (g_scene g));
          ("scenes",
           VList ((λ s, VDict [ ("name", VStr (gs_name s));
                                ("nodes", VList (VInt <$> gs_nodes s)) ])
                    <$> g_scenes g));
          ("nodes",
           VList ((λ n, VDict [ ("name", VStr (gn_name n));
                                ("translation", VList (value_of_num <$> gn_translation n));
                                ("scale", VList (gn_scale n)) ])
                    <$> g_nodes g));
          ("meshes",
           VList ((λ m, VDict [ ("primitives",
                                 VList ((λ p, VDict [ ("attributes", VDict (gp_attributes p)) ])
                                          <$> gm_primitives m)) ])
                    <$> g_meshes g)) ].

(** [builder.close()].  Every statement that writes is followed by its
    commit before anything else can raise, so closing the connection
    discards nothing. *)
Definition close : M unit := mret ().

(** [try: body  finally: cleanup] *)
Definition try_finally {A} (body : M A) (cleanup : M unit) : M A := λ st,
  match body st with
  | (outcome, st') =>
      match cleanup st' with
      | (Ok _, st'') => (outcome, st'')
      | (Raise e, st'') => (Raise e, st'')
      end
  end.

(** [json.dumps(data, indent=2)[:200] + "..."].  The document is ASCII
    ([ensure_ascii] is on), so its first 200 characters are its first 200
    bytes. *)
Definition preview (data : value) : string :=
  String.substring 0 200 (json_dumps_indent data) +:+ "...".

Definition main (args : arguments) : M (list string) :=
  try_finally
    (match args with
     | create_command name theme seed =>
         world ← create_world name theme seed 1024;
         generate_terrain (mw_id world);;
         mret [ "✓ Created world: " +:+ mw_name world +:+ " (" +:+ mw_theme world +:+ ")";
                "  ID: " +:+ mw_id world;
                "  Seed: " +:+ pretty (mw_seed world) ]
     | populate_command world_id =>
         populate_world world_id;;
         world ← get_world world_id;
         match world with
         | Some world =>
             mret [ "✓ Populated " +:+ mw_name world +:+ " with "
                      +:+ pretty (length (mw_objects world)) +:+ " objects" ]
         | None => mret []
         end
     | export_command world_id json_format =>
         data ← export_json world_id;
         mret [ preview (value_of_scene data) ]
     | export_command world_id gltf_format =>
         data ← export_gltf_stub world_id;
         mret [ preview (value_of_gltf data) ]
     | no_command =>
         worlds ← list_worlds;
         mret (("Worlds (" +:+ pretty (length worlds) +:+ "):") ::
               ((λ w, "  " +:+ ws_name w +:+ " (" +:+ ws_theme w +:+ ") - "
                        +:+ pretty (ws_object_count w) +:+ " objects") <$> worlds))
     end)
    close.

End CommandLine.

(** ** A reference platform

    One instance of [Floats] and [Library] that computes, for running the
    builder on concrete inputs.  A float is a whole number of millionths
    (the resolution of [datetime]); the generator is a linear congruential
    one; the JSON codec covers the values of [value]. *)

Module Reference.

Definition micro : Z := 1000000.

Definition digits2 (n : Z) : string :=
  (if n <? 10 then "0" else "") +:+ pretty n.

Definition digits6 (n : Z) : string :=
  String.concat ""
    ((λ k, pretty ((n / 10 ^ k) mod 10)) <$> [5; 4; 3; 2; 1; 0]).

(** The civil date of a day number counted from 1970-01-01. *)
Definition civil_of_days (days : Z) : Z * Z * Z :=
  let z := days + 719468 in
  let era := z / 146097 in
  let doe := z - era * 146097 in
  let yoe := (doe - doe / 1460 + doe / 36524 - doe / 146096) / 365 in
  let doy := doe - (365 * yoe + yoe / 4 - yoe / 100) in
  let mp := (5 * doy + 2) / 153 in
  let d := doy - (153 * mp + 2) / 5 + 1 in
  let m := if mp <? 10 then mp + 3 else mp - 9 in
  let y := yoe + era * 400 + (if m <=? 2 then 1 else 0) in
  (y, m, d).

Definition iso (t : Z) : string :=
  let secs := t / micro in
  let frac := t mod micro in
  let '(y, m, d) := civil_of_days (secs / 86400) in
  let sod := secs mod 86400 in
  pretty y +:+ "-" +:+ digits2 m +:+ "-" +:+ digits2 d +:+ "T"
    +:+ digits2 (sod / 3600) +:+ ":" +:+ digits2 (sod mod 3600 / 60)
    +:+ ":" +:+ digits2 (sod mod 60)
    +:+ (if frac =? 0 then "" else "." +:+ digits6 frac).

Definition render (t : Z) : string :=
  (if t <? 0 then "-" else "") +:+ pretty (Z.abs t / micro) +:+ "."
    +:+ digits6 (Z.abs t mod micro).

Definition digit_of (c : ascii) : option Z :=
  let n := Z.of_nat (nat_of_ascii c) in
  if (48 <=? n) && (n <=? 57) then Some (n - 48) else None.

(** Leading decimal digits: their value, how many there were, the rest. *)
Fixpoint read_digits (s : string) (acc : Z) (count : nat) : Z * nat * string :=
  match s with
  | String c s' =>
      match digit_of c with
      | Some d => read_digits s' (acc * 10 + d) (S count)
      | None => (acc, count, s)
      end
  | EmptyString => (acc, count, s)
  end.

(** A JSON number at the head of the text: an int, or a float when it has
    a fraction of at most six digits. *)
Definition read_number (s : string) : option (Z + Z) * string :=
  let (negative, s1) :=
    match s with String "-" s' => (true, s') | _ => (false, s) end in
  let sign (n : Z) := if negative : bool then - n else n in
  let '(whole, count, s2) := read_digits s1 0 0%nat in
  match count, s2 with
  | O, _ => (None, s)
  | _, String "." s3 =>
      let '(part, places, s4) := read_digits s3 0 0%nat in
      if bool_decide (1 ≤ places ≤ 6)%nat
      then (Some (inr (sign (whole * micro + part * 10 ^ Z.of_nat (6 - places)))), s4)
      else (None, s)
  | _, _ => (Some (inl (sign whole)), s2)
  end.

Definition numeric (s : string) : option Z :=
  match read_number s with
  | (Some (inl n), "") => Some (n * micro)
  | (Some (inr f), "") => Some f
  | _ => None
  end.

#[export] Instance floats : Floats := {|
  float := Z;
  float_of_int n := n * micro;
  epoch_ms t := t ÷ 1000;
  isoformat := iso;
  sqlite_numeric := numeric;
  sqlite_render := render;
|}.

(** The float that stands for [n] millionths. *)
Definition millionths (n : Z) : float := n.

(** *** The generator *)

Definition lcg (g : Z) : Z := (g * 1103515245 + 12345) mod 2 ^ 31.

(** *** The JSON codec *)

Definition dquote : ascii := "034"%char.
Definition backslash : ascii := "092"%char.

Fixpoint quote_body (s : string) : string :=
  match s with
  | String c s' =>
      (if Ascii.eqb c dquote || Ascii.eqb c backslash
       then String backslash (String c "")
       else String c "") +:+ quote_body s'
  | EmptyString => ""
  end.

Definition quote (s : string) : string :=
  String dquote (quote_body s) +:+ String dquote "".

Fixpoint dumps (v : value) : string :=
  match v with
  | VNone => "null"
  | VBool b => if b then "true" else "false"
  | VInt n => pretty n
  | VFloat f => render f
  | VStr s => quote s
  | VList l => "[" +:+ String.concat ", " (map dumps l) +:+ "]"
  | VDict d =>
      "{" +:+ String.concat ", " (map (λ kv, quote kv.1 +:+ ": " +:+ dumps kv.2) d)
        +:+ "}"
  end.

Fixpoint skip_spaces (s : string) : string :=
  match s with
  | String " " s' => skip_spaces s'
  | _ => s
  end.

(** The body of a string literal, up to its closing quote. *)
Fixpoint read_string (s : string) : option (string * string) :=
  match s with
  | String c s' =>
      if Ascii.eqb c dquote then Some ("", s')
      else if Ascii.eqb c backslash then
        match s' with
        | String c' s'' =>
            '(body, rest) ← read_string s''; Some (String c' body, rest)
        | EmptyString => None
        end
      else '(body, rest) ← read_string s'; Some (String c body, rest)
  | EmptyString => None
  end.

Definition strip (prefix s : string) : option string :=
  if String.prefix prefix s
  then Some (String.substring (String.length prefix)
               (String.length s - String.length prefix) s)
  else None.

Section Parser.
Variable read_value : string → option (value * string).

(** The elements of an array after its first, up to the closing bracket. *)
Fixpoint read_elements (n : nat) (s : string) : option (list value * string) :=
  match n, skip_spaces s with
  | _, String "]" rest => Some ([], rest)
  | S n', String "," rest =>
      '(v, rest) ← read_value (skip_spaces rest);
      '(vs, rest) ← read_elements n' rest;
      Some (v :: vs, rest)
  | _, _ => None
  end.

Definition read_member (s : string) : option (string * value * string) :=
  match s with
  | String c s' =>
      if Ascii.eqb c dquote then
        '(k, rest) ← read_string s';
        match skip_spaces rest with
        | String ":" rest =>
            '(v, rest) ← read_value (skip_spaces rest); Some (k, v, rest)
        | _ => None
        end
      else None
  | EmptyString => None
  end.

Fixpoint read_members (n : nat) (s : string)
    : option (list (string * value) * string) :=
  match n, skip_spaces s with
  | _, String "}" rest => Some ([], rest)
  | S n', String "," rest =>
      '(k, v, rest) ← read_member (skip_spaces rest);
      '(kvs, rest) ← read_members n' rest;
      Some ((k, v) :: kvs, rest)
  | _, _ => None
  end.
End Parser.

Fixpoint read_json (fuel : nat) (s : string) : option (value * string) :=
  match fuel with
  | O => None
  | S fuel' =>
      let size := String.length s in
      match s with
      | String "034" s' => '(body, rest) ← read_string s'; Some (VStr body, rest)
      | String "[" s' =>
          match skip_spaces s' with
          | String "]" rest => Some (VList [], rest)
          | s'' =>
              '(v, rest) ← read_json fuel' s'';
              '(vs, rest) ← read_elements (read_json fuel') size rest;
              Some (VList (v :: vs), rest)
          end
      | String "{" s' =>
          match skip_spaces s' with
          | String "}" rest => Some (VDict [], rest)
          | s'' =>
              '(k, v, rest) ← read_member (read_json fuel') s'';
              '(kvs, rest) ← read_members (read_json fuel') size rest;
              Some (VDict ((k, v) :: kvs), rest)
          end
      | _ =>
          match strip "null" s, strip "true" s, strip "false" s with
          | Some rest, _, _ => Some (VNone, rest)
          | _, Some rest, _ => Some (VBool true, rest)
          | _, _, Some rest => Some (VBool false, rest)
          | _, _, _ =>
              match read_number s with
              | (Some (inl n), rest) => Some (VInt n, rest)
              | (Some (inr f), rest) => Some (VFloat f, rest)
              | (None, _) => None
              end
          end
      end
  end.

Definition loads (s : string) : option value :=
  match read_json (S (String.length s)) (skip_spaces s) with
  | Some (v, rest) => if String.eqb (skip_spaces rest) "" then Some v else None
  | None => None
  end.

#[export] Instance library : Library := {|
  rng := Z;
  random_seed a := Z.abs a mod 2 ^ 31;
  random_randint a b g := (a + lcg g mod (b - a + 1), lcg g);
  random_uniform a b g := (a * micro + (b - a) * micro * lcg g / 2 ^ 31, lcg g);
  json_dumps := dumps;
  json_loads := loads;
|}.

(** A clock that advances by a millisecond and a half per reading, and one
    that returns the same instant every time it is read. *)
Fixpoint ticking (n : nat) : float :=
  match n with
  | O => 1700000000000000
  | S n' => ticking n' + 1500
  end.

Definition frozen (n : nat) : float := 1700000000000000.

(** [json.dumps(v, indent=2)]: one item per line, two spaces per level;
    an empty array or object stays on one line. *)
Definition newline : string := String "010"%char "".

Fixpoint spaces (n : nat) : string :=
  match n with
  | O => ""
  | S n' => " " +:+ spaces n'
  end.

Fixpoint dumps_indent (level : nat) (v : value) : string :=
  let inner := newline +:+ spaces (2 * S level) in
  let outer := newline +:+ spaces (2 * level) in
  match v with
  | VList [] => "[]"
  | VList l =>
      "[" +:+ inner
        +:+ String.concat ("," +:+ inner) (map (dumps_indent (S level)) l)
        +:+ outer +:+ "]"
  | VDict [] => "{}"
  | VDict d =>
      "{" +:+ inner
        +:+ String.concat ("," +:+ inner)
              (map (λ kv, quote kv.1 +:+ ": " +:+ dumps_indent (S level) kv.2) d)
        +:+ outer +:+ "}"
  | _ => dumps v
  end.

End Reference.

(** * Vocabulary of the properties

    Names for what the statements below talk about: the rows of one world,
    the ids the clock is about to give, the rows a generator loop stores,
    the invariants of the tables.  None of this is part of the program. *)

Section Vocabulary.
Context `{Library}.

(** The row of a world, as [get_world] finds it. *)
Definition stored_world (world_id : string) (st : state) : option world_row :=
  find (λ r, String.eqb (wr_id r) world_id) (worlds st).

(** The rows of the objects of a world, in the order [get_world] reads them. *)
Definition objects_of (world_id : string) (st : state) : list object_row :=
  filter (λ r, or_world_id r = world_id) (world_objects st).

(** The keyword bag without the keys that [add_object] takes out of it. *)
Definition free_properties (props : list (string * value)) : list (string * value) :=
  filter (λ kv, kv.1 ∉ reserved_keys) props.

(** The row that [add_object] binds for its INSERT when the clock reads
    [now] and the world has the given theme. *)
Definition new_object_row (world_id theme type_ name : string) (x y z : num)
    (props : list (string * value)) (now : float) : result object_row :=
  object_row_of ("obj_" +:+ pretty (epoch_ms now)) world_id type_ name x y z
    (dict_get props "scale" (VFloat (float_of_int 1)))
    (dict_get props "rotation" (VFloat (float_of_int 0)))
    (dict_get props "color" (VStr (dict_get THEME_COLORS theme "#FFFFFF")))
    (json_dumps (VDict (free_properties props))).

(** The object that [add_object] then returns, [loaded] being what
    [json.loads] made of the stored properties. *)
Definition returned_object (theme type_ name : string) (x y z : num)
    (props : list (string * value)) (now : float) (loaded : value) : WorldObject :=
  {| wo_id := "obj_" +:+ pretty (epoch_ms now); wo_type := type_; wo_name := name;
     wo_x := x; wo_y := y; wo_z := z;
     wo_scale := dict_get props "scale" (VFloat (float_of_int 1));
     wo_rotation := dict_get props "rotation" (VFloat (float_of_int 0));
     wo_color := dict_get props "color" (VStr (dict_get THEME_COLORS theme "#FFFFFF"));
     wo_properties := loaded |}.

(** The arguments of one call of [add_object] in a generator loop. *)
Record placement := {
  pl_type : string;
  pl_name : string;
  pl_x : num;
  pl_y : num;
  pl_z : num;
  pl_props : list (string * value);
}.

(** One iteration of a generator loop: draws from the random source decide
    a placement, which [add_object] stores. *)
Definition place (world_id : string) (d : rng → placement * rng) : M unit := λ st,
  let (p, g) := d (random st) in
  (add_object world_id (pl_type p) (pl_name p) (pl_x p) (pl_y p) (pl_z p)
     (pl_props p);; mret ()) (set_random g st).

(** The rows a sequence of iterations stores, from generator state [g],
    when the clock reads [clk t], [clk (t + 1)], ... *)
Fixpoint placed (world_id theme : string) (ds : list (rng → placement * rng))
    (g : rng) (clk : nat → float) (t : nat) : result (list object_row) :=
  match ds with
  | [] => Ok []
  | d :: ds' =>
      let (p, g') := d g in
      r ← new_object_row world_id theme (pl_type p) (pl_name p)
             (pl_x p) (pl_y p) (pl_z p) (pl_props p) (clk t);
      rs ← placed world_id theme ds' g' clk (S t);
      mret (r :: rs)
  end.

(** The generator state after a sequence of iterations. *)
Fixpoint drawn (ds : list (rng → placement * rng)) (g : rng) : rng :=
  match ds with
  | [] => g
  | d :: ds' => drawn ds' (d g).2
  end.

(** The state after [n] iterations stored [rows] and left the generator in
    state [g]. *)
Definition grown (st : state) (rows : list object_row) (g : rng) (n : nat) : state :=
  {| worlds := worlds st; world_objects := world_objects st ++ rows;
     player_positions := player_positions st; random := g;
     clock := clock st; ticks := (ticks st + n)%nat |}.

(** The cells of an n by n grid in row-major order. *)
Definition cells (n : Z) : list (Z * Z) :=
  i ← range n; (λ j, (i, j)) <$> range n.

(** The id of an object added at the t-th reading of the clock. *)
Definition obj_id_at (clk : nat → float) (t : nat) : string :=
  "obj_" +:+ pretty (epoch_ms (clk t)).

(** The ids of the next [n] objects, when the clock has been read [t] times. *)
Definition next_ids (clk : nat → float) (t n : nat) : list string :=
  (λ k, obj_id_at clk (t + k)) <$> seq 0 n.

(** The next [n] ids are new: pairwise distinct, and none is in the objects
    table. *)
Definition fresh_ids (st : state) (n : nat) : Prop :=
  NoDup (next_ids (clock st) (ticks st) n) ∧
  Forall (λ id, id ∉ or_id <$> world_objects st) (next_ids (clock st) (ticks st) n).

(** Two stored rows that differ at most in their id and their world. *)
Definition same_placement (r1 r2 : object_row) : Prop :=
  or_type r1 = or_type r2 ∧ or_name r1 = or_name r2 ∧
  or_x r1 = or_x r2 ∧ or_y r1 = or_y r2 ∧ or_z r1 = or_z r2 ∧
  or_scale r1 = or_scale r2 ∧ or_rotation r1 = or_rotation r2 ∧
  or_color r1 = or_color r2 ∧ or_properties r1 = or_properties r2.

(** The body of the loop of [generate_terrain] at cell (i, j): the call
    it makes for a drawn height, and the draw with the call. *)
Definition tile (theme : string) (ij : Z * Z) (height : Z) : placement :=
  {| pl_type := "terrain";
     pl_name := "terrain_" +:+ pretty ij.1 +:+ "_" +:+ pretty ij.2;
     pl_x := Int (ij.1 * 256); pl_y := Int height; pl_z := Int (ij.2 * 256);
     pl_props := [ ("scale", VInt 256); ("color", VStr (_get_terrain_color theme)) ] |}.

Definition tile_draw (theme : string) (ij : Z * Z) : rng → placement * rng := λ g,
  let (height, g') := random_randint (-10) 50 g in (tile theme ij height, g').

(** The stored form of the tile of cell (i, j). *)
Definition is_tile (world_id theme : string) (ij : Z * Z) (r : object_row) : Prop :=
  or_world_id r = world_id ∧
  or_type r = "terrain" ∧
  or_name r = "terrain_" +:+ pretty ij.1 +:+ "_" +:+ pretty ij.2 ∧
  or_x r = float_of_int (256 * ij.1) ∧
  (∃ h, -10 ≤ h ≤ 50 ∧ or_y r = float_of_int h) ∧
  or_z r = float_of_int (256 * ij.2) ∧
  or_scale r = SReal (float_of_int 256) ∧
  or_color r = SText (_get_terrain_color theme).

(** A loop iteration that cannot fail before it reaches the table, and
    stores no free-form property. *)
Definition sound_draw (world_id theme : string) (d : rng → placement * rng) : Prop :=
  ∀ g,
    pl_type (d g).1 ∈ OBJECT_TYPES ∧
    free_properties (pl_props (d g).1) = [] ∧
    ∀ now, ∃ r, new_object_row world_id theme (pl_type (d g).1) (pl_name (d g).1)
                  (pl_x (d g).1) (pl_y (d g).1) (pl_z (d g).1)
                  (pl_props (d g).1) now = Ok r.

(** The draws of terrain generation for a world of the given theme and size. *)
Definition terrain_draws (theme : string) (size : Z) : list (rng → placement * rng) :=
  tile_draw theme <$> cells (Z.of_nat (Z.to_nat (size / 256))).

(** The bodies of the three loops of [populate_world] at index [i]. *)
Definition building (theme : string) (size i : Z) : rng → placement * rng := λ g,
  let (x, g1) := random_uniform 0 size g in
  let (z, g2) := random_uniform 0 size g1 in
  ({| pl_type := "building"; pl_name := theme +:+ "_building_" +:+ pretty i;
      pl_x := Float x; pl_y := Int 20; pl_z := Float z;
      pl_props := [ ("scale", VInt 20) ] |}, g2).

Definition tree (size i : Z) : rng → placement * rng := λ g,
  let (x, g1) := random_uniform 0 size g in
  let (z, g2) := random_uniform 0 size g1 in
  ({| pl_type := "tree"; pl_name := "tree_" +:+ pretty i;
      pl_x := Float x; pl_y := Int 5; pl_z := Float z;
      pl_props := [ ("scale", VInt 5) ] |}, g2).

Definition light (size i : Z) : rng → placement * rng := λ g,
  let (x, g1) := random_uniform 0 size g in
  let (z, g2) := random_uniform 0 size g1 in
  ({| pl_type := "light"; pl_name := "light_" +:+ pretty i;
      pl_x := Float x; pl_y := Int 100; pl_z := Float z;
      pl_props := [ ("scale", VInt 2); ("color", VStr "#FFFF00") ] |}, g2).

(** A placement that draws nothing. *)
Definition fixed (type_ name : string) (x y z scale : Z) (color : string)
    : rng → placement * rng := λ g,
  ({| pl_type := type_; pl_name := name;
      pl_x := Int x; pl_y := Int y; pl_z := Int z;
      pl_props := [ ("scale", VInt scale); ("color", VStr color) ] |}, g).

(** The if/elif chain that ends [populate_world]. *)
Definition special (theme : string) : list (rng → placement * rng) :=
  if String.eqb theme "cyberpunk" then
    [ fixed "npc" "neon_runner" 500 50 500 2 "#FF00FF" ]
  else if String.eqb theme "fantasy" then
    [ fixed "artifact" "ancient_stone" 512 20 512 10 "#808080" ]
  else if String.eqb theme "space" then
    [ fixed "portal" "stargate" 512 100 512 50 "#00FFFF" ]
  else [].

(** The tree loop with its guard, and all of [populate_world] in order. *)
Definition trees (theme : string) (size : Z) : list (rng → placement * rng) :=
  if bool_decide (theme ∉ ["space"; "underwater"]) then tree size <$> range 15 else [].

Definition population (theme : string) (size : Z) : list (rng → placement * rng) :=
  (building theme size <$> range 8) ++ trees theme size
    ++ (light size <$> range 4) ++ special theme.

(** The stored form of the i-th building, tree and light. *)
Definition is_building (world_id theme : string) (i : Z) (r : object_row) : Prop :=
  or_world_id r = world_id ∧ or_type r = "building" ∧
  or_name r = theme +:+ "_building_" +:+ pretty i ∧
  or_y r = float_of_int 20 ∧ or_scale r = SReal (float_of_int 20).

Definition is_tree (world_id : string) (i : Z) (r : object_row) : Prop :=
  or_world_id r = world_id ∧ or_type r = "tree" ∧
  or_name r = "tree_" +:+ pretty i ∧
  or_y r = float_of_int 5 ∧ or_scale r = SReal (float_of_int 5).

Definition is_light (world_id : string) (i : Z) (r : object_row) : Prop :=
  or_world_id r = world_id ∧ or_type r = "light" ∧
  or_name r = "light_" +:+ pretty i ∧
  or_y r = float_of_int 100 ∧ or_scale r = SReal (float_of_int 2) ∧
  or_color r = SText "#FFFF00".

(** The theme's landmark: its type and where it stands. *)
Definition landmark (theme : string) : option (string * (Z * Z * Z)) :=
  if String.eqb theme "cyberpunk" then Some ("npc", (500, 50, 500))
  else if String.eqb theme "fantasy" then Some ("artifact", (512, 20, 512))
  else if String.eqb theme "space" then Some ("portal", (512, 100, 512))
  else None.

Definition is_landmark (world_id : string) (l : string * (Z * Z * Z))
    (r : object_row) : Prop :=
  or_world_id r = world_id ∧ or_type r = l.1 ∧
  or_x r = float_of_int l.2.1.1 ∧ or_y r = float_of_int l.2.1.2 ∧
  or_z r = float_of_int l.2.2.

(** How many trees and landmarks a theme gets. *)
Definition tree_count (theme : string) : nat :=
  if bool_decide (theme ∈ ["space"; "underwater"]) then 0 else 15.

Definition landmark_count (theme : string) : nat :=
  if bool_decide (theme ∈ ["cyberpunk"; "fantasy"; "space"]) then 1 else 0.

(** The primary key of a position row, and the rows of one pair. *)
Definition position_key (p : position_row) : string * string :=
  (pr_player_id p, pr_world_id p).

Definition positions_of (player_id world_id : string) (st : state)
    : list position_row :=
  filter (λ p, position_key p = (player_id, world_id)) (player_positions st).

(** A call of one of the methods that write to the database. *)
Inductive call :=
  | CreateWorld (name theme : string) (seed : option Z) (size : Z)
  | AddObject (world_id type_ name : string) (x y z : num)
      (props : list (string * value))
  | GenerateTerrain (world_id : string)
  | PopulateWorld (world_id : string)
  | Teleport (world_id player_id : string) (x y z : num).

(** The state a call leaves behind, whether it returns or raises. *)
Definition perform (c : call) (st : state) : state :=
  match c with
  | CreateWorld name theme seed size => (create_world name theme seed size st).2
  | AddObject world_id type_ name x y z props =>
      (add_object world_id type_ name x y z props st).2
  | GenerateTerrain world_id => (generate_terrain world_id st).2
  | PopulateWorld world_id => (populate_world world_id st).2
  | Teleport world_id player_id x y z => (teleport world_id player_id x y z st).2
  end.

(** The state after a sequence of calls. *)
Definition run (calls : list call) (st : state) : state :=
  foldl (λ st c, perform c st) st calls.

(** The primary key of the objects table holds. *)
Definition unique_ids (st : state) : Prop := NoDup (or_id <$> world_objects st).

(** A method body keeps an invariant of the state, however it ends. *)
Definition preserves {A} (I : state → Prop) (m : M A) : Prop :=
  ∀ st, I st → I (m st).2.

(** The id of a world created at the t-th reading of the clock. *)
Definition world_id_at (clk : nat → float) (t : nat) : string :=
  "world_" +:+ pretty (epoch_ms (clk t)).

(** The seed of a new world, given or drawn, and the generator afterwards. *)
Definition chosen_seed (seed : option Z) (g : rng) : Z * rng :=
  match seed with
  | Some seed => (seed, g)
  | None => random_randint 1 1000000 g
  end.

(** The row that [create_world] inserts when the clock reads [now], and the
    world it returns. *)
Definition new_world_row (name theme : string) (seed size : Z) (now : float)
    : world_row :=
  {| wr_id := "world_" +:+ pretty (epoch_ms now); wr_name := name; wr_theme := theme;
     wr_seed := seed; wr_size := size; wr_created_at := now;
     wr_description := "A " +:+ theme +:+ " metaverse world" |}.

Definition created_world (name theme : string) (seed size : Z) (now : float)
    : MetaverseWorld :=
  {| mw_id := "world_" +:+ pretty (epoch_ms now); mw_name := name; mw_theme := theme;
     mw_seed := seed; mw_size := size; mw_objects := [];
     mw_created_at := VFloat now; mw_description := VStr "" |}.

(** Every object row names a stored world. *)
Definition referential (st : state) : Prop :=
  Forall (λ r, or_world_id r ∈ wr_id <$> worlds st) (world_objects st).

(** A Python int outside the signed 64-bit range. *)
Definition too_big (x : num) : Prop := ∃ n, x = Int n ∧ int64 n = false.

(** What [get_world] makes of the first nine columns of an object row. *)
Definition read_back (r : object_row) (o : WorldObject) : Prop :=
  wo_id o = or_id r ∧ wo_type o = or_type r ∧ wo_name o = or_name r ∧
  wo_x o = Float (or_x r) ∧ wo_y o = Float (or_y r) ∧ wo_z o = Float (or_z r) ∧
  wo_scale o = value_of_sql (or_scale r) ∧
  wo_rotation o = value_of_sql (or_rotation r) ∧
  wo_color o = value_of_sql (or_color r).

(** The three tables. *)
Definition tables (st : state)
    : list world_row * list object_row * list position_row :=
  (worlds st, world_objects st, player_positions st).

(** A property of the state that the tables alone decide. *)
Definition table_property (I : state → Prop) : Prop :=
  ∀ st st', tables st = tables st' → I st → I st'.

(** The primary keys of the worlds and of the positions table hold. *)
Definition unique_world_ids (st : state) : Prop := NoDup (wr_id <$> worlds st).

Definition unique_position_keys (st : state) : Prop :=
  NoDup (position_key <$> player_positions st).

(** Every stored theme and every stored object type is one of the lists. *)
Definition valid_names (st : state) : Prop :=
  Forall (λ r, wr_theme r ∈ THEMES) (worlds st) ∧
  Forall (λ r, or_type r ∈ OBJECT_TYPES) (world_objects st).

(** The tables of [st] as they have grown out of those of [st0]: world
    and object rows are kept, in place, and so is every recorded
    (player, world) pair. *)
Definition grown_from (st0 st : state) : Prop :=
  worlds st0 `prefix_of` worlds st ∧
  world_objects st0 `prefix_of` world_objects st ∧
  (position_key <$> player_positions st0) `prefix_of`
    (position_key <$> player_positions st).

(** Every stored properties text is the dump of a dictionary that has none
    of the keys [add_object] takes out of the keyword bag. *)
Definition dumped_properties (st : state) : Prop :=
  Forall
    (λ r, ∃ d, or_properties r = json_dumps (VDict d) ∧
               Forall (λ kv, kv.1 ∉ reserved_keys) d)
    (world_objects st).

End Vocabulary.

(** * Concrete databases on the reference platform *)

Module Fixture.
Import Reference.

(** The ids of two worlds created at the first two readings of a clock that
    starts at 1700000000 seconds. *)
Definition aurora_id : string := "world_1700000000000".
Definition borealis_id : string := "world_1700000000001".

(** The databases: empty; with the world Aurora; with a second world
    Borealis of the same theme, seed and size; with the terrain of Aurora.
    The clock advances by a millisecond and a half per reading. *)
Definition db0 : state := empty_database 7 ticking.
Definition db1 : state := (create_world "Aurora" "arctic" (Some 42) 512 db0).2.
Definition db2 : state := (create_world "Borealis" "arctic" (Some 42) 512 db1).2.
Definition db3 : state := (generate_terrain aurora_id db2).2.

(** Both worlds stored, after ada teleported to (1, 2, 3) in Aurora. *)
Definition db4 : state := (teleport aurora_id "ada" (Int 1) (Int 2) (Int 3) db2).2.

Definition aurora_row : world_row :=
  {| wr_id := aurora_id; wr_name := "Aurora"; wr_theme := "arctic";
     wr_seed := 42; wr_size := 512; wr_created_at := ticking 0;
     wr_description := "A arctic metaverse world" |}.

Definition borealis_row : world_row :=
  {| wr_id := borealis_id; wr_name := "Borealis"; wr_theme := "arctic";
     wr_seed := 42; wr_size := 512; wr_created_at := ticking 1;
     wr_description := "A arctic metaverse world" |}.

(** A keyword bag with the three reserved keys mixed among others, and the
    object [add_object] returns for it. *)
Definition tower_props : list (string * value) :=
  [ ("scale", VInt 3); ("floors", VInt 12); ("tags", VList [VStr "tall"; VNone]);
    ("color", VStr "#112233"); ("meta", VDict [("owner", VStr "ada")]) ].

Definition tower : WorldObject :=
  {| wo_id := "obj_1700000000003"; wo_type := "building"; wo_name := "tower";
     wo_x := Int 1; wo_y := Int 2; wo_z := Float (millionths 3500000);
     wo_scale := VInt 3; wo_rotation := VFloat (millionths 0);
     wo_color := VStr "#112233";
     wo_properties :=
       VDict [ ("floors", VInt 12); ("tags", VList [VStr "tall"; VNone]);
               ("meta", VDict [("owner", VStr "ada")]) ] |}.

(** A session that generates the terrain of a world twice. *)
Definition session : list call :=
  [ CreateWorld "Aurora" "arctic" (Some 42) 512;
    GenerateTerrain aurora_id;
    PopulateWorld aurora_id;
    AddObject aurora_id "vehicle" "sled" (Int 10) (Int 0) (Int 10) [("seats", VInt 2)];
    GenerateTerrain aurora_id ].

(** A clock that stops advancing after its sixth reading, and the two
    worlds created on it; then the terrain of Aurora, then of Borealis. *)
Definition stalling (n : nat) : float := ticking (Nat.min n 6).

Definition stalled : state :=
  (create_world "Borealis" "arctic" (Some 42) 512
     (create_world "Aurora" "arctic" (Some 42) 512 (empty_database 7 stalling)).2).2.

Definition stalled_aurora : state := (generate_terrain aurora_id stalled).2.
Definition stalled_borealis : state := (generate_terrain borealis_id stalled_aurora).2.

(** Aurora alone, on a clock that never advances. *)
Definition halted : state :=
  (create_world "Aurora" "arctic" (Some 42) 512 (empty_database 7 frozen)).2.

(** Aurora with its terrain, after its population. *)
Definition db5 : state := (populate_world aurora_id db3).2.

(** Integers one step outside the signed 64-bit range. *)
Definition too_large : Z := 2 ^ 63.
Definition too_small : Z := - 2 ^ 63 - 1.

End Fixture.

(** * Properties *)

(** A decidable fact about constants, by evaluation. *)
Ltac listed := apply (bool_decide_unpack _); vm_compute; exact I.

Section Properties.
Context `{Library}.

Lemma bind_run {A B} (m : M A) (k : A → M B) st :
  (m ≫= k) st =
  match m st with
  | (Ok a, st') => k a st'
  | (Raise e, st') => (Raise e, st')
  end.
Proof. reflexivity. Qed.

Lemma ret_run {A} (a : A) (st : state) : (mret a : M A) st = (Ok a, st).
Proof. reflexivity. Qed.

Lemma get_world_run world_id st :
  get_world world_id st =
  match stored_world world_id st with
  | Some row =>
      match load_objects (objects_of world_id st) with
      | Ok objects => (Ok (Some (MetaverseWorld_of_row row objects)), st)
      | Raise e => (Raise e, st)
      end
  | None => (Ok None, st)
  end.
Proof.
  unfold get_world, stored_world, objects_of.
  rewrite bind_run. unfold select_world at 1.
  destruct (find _ _) as [row|]; [|reflexivity].
  rewrite bind_run. unfold select_objects at 1.
  rewrite bind_run. unfold lift at 1.
  destruct (load_objects _); reflexivity.
Qed.

Lemma add_object_run world_id type_ name x y z props st :
  add_object world_id type_ name x y z props st =
  if bool_decide (type_ ∉ OBJECT_TYPES) then
    (Raise (ValueError ("Invalid type. Choose from: " +:+ String.concat ", " OBJECT_TYPES)), st)
  else
    match stored_world world_id st with
    | None => (Raise (ValueError ("World " +:+ world_id +:+ " not found")), st)
    | Some row =>
        match load_objects (objects_of world_id st) with
        | Raise e => (Raise e, st)
        | Ok _ =>
            let now := clock st (ticks st) in
            let st1 := set_ticks (S (ticks st)) st in
            match new_object_row world_id (wr_theme row) type_ name x y z props now with
            | Raise e => (Raise e, st1)
            | Ok r =>
                if bool_decide (or_id r ∈ or_id <$> world_objects st) then
                  (Raise IntegrityError, st1)
                else
                  let st2 := set_world_objects (world_objects st ++ [r]) st1 in
                  match json_loads (or_properties r) with
                  | Some loaded =>
                      (Ok (returned_object (wr_theme row) type_ name x y z props now loaded), st2)
                  | None => (Raise JSONDecodeError, st2)
                  end
            end
        end
    end.
Proof.
  unfold add_object. case_bool_decide; [reflexivity|].
  rewrite bind_run, get_world_run.
  destruct (stored_world _ _) as [row|]; [|reflexivity].
  destruct (load_objects _) as [objs|e]; [|reflexivity].
  rewrite bind_run. unfold datetime_now at 1. cbv zeta.
  rewrite bind_run. unfold insert_object, new_object_row.
  rewrite bind_run. unfold lift at 1. cbn [mw_theme MetaverseWorld_of_row].
  fold (free_properties props).
  destruct (object_row_of _ _ _ _ _ _ _ _ _ _ _) as [r|e] eqn:Hrow; [|reflexivity].
  unfold store_object at 1. cbn [world_objects set_ticks].
  case_bool_decide; [reflexivity|].
  rewrite bind_run. unfold commit at 1. cbn [mret M_ret].
  assert (or_properties r = json_dumps (VDict (free_properties props))) as ->.
  { unfold object_row_of in Hrow.
    repeat match type of Hrow with
    | (?m ≫= _) = _ => destruct m; cbn in Hrow; [|discriminate]
    end.
    by inversion Hrow. }
  destruct (json_loads _); reflexivity.
Qed.

Lemma object_row_of_inv obj_id world_id type_ name x y z scale rotation color properties r :
  object_row_of obj_id world_id type_ name x y z scale rotation color properties = Ok r →
  ∃ fx fy fz cs cr cc,
    bind_real x = Ok fx ∧ bind_real y = Ok fy ∧ bind_real z = Ok fz ∧
    bind_value scale = Ok cs ∧ bind_value rotation = Ok cr ∧ bind_value color = Ok cc ∧
    r = {| or_id := obj_id; or_world_id := world_id; or_type := type_;
           or_name := name; or_x := fx; or_y := fy; or_z := fz;
           or_scale := real_affinity cs; or_rotation := real_affinity cr;
           or_color := text_affinity cc; or_properties := properties |}.
Proof.
  unfold object_row_of. intros Hrow.
  destruct (bind_real x) as [fx|]; cbn in Hrow; [|discriminate].
  destruct (bind_real y) as [fy|]; cbn in Hrow; [|discriminate].
  destruct (bind_real z) as [fz|]; cbn in Hrow; [|discriminate].
  destruct (bind_value scale) as [cs|]; cbn in Hrow; [|discriminate].
  destruct (bind_value rotation) as [cr|]; cbn in Hrow; [|discriminate].
  destruct (bind_value color) as [cc|]; cbn in Hrow; [|discriminate].
  inversion Hrow. by exists fx, fy, fz, cs, cr, cc.
Qed.

Lemma new_object_row_fields world_id theme type_ name x y z props now r :
  new_object_row world_id theme type_ name x y z props now = Ok r →
  or_id r = "obj_" +:+ pretty (epoch_ms now) ∧ or_world_id r = world_id ∧
  or_type r = type_ ∧ or_name r = name ∧
  or_properties r = json_dumps (VDict (free_properties props)).
Proof.
  intros (?&?&?&?&?&?&_&_&_&_&_&_&->)%object_row_of_inv. done.
Qed.

(** *** Loading rows *)

Lemma load_objects_app rows1 rows2 :
  load_objects (rows1 ++ rows2) =
  match load_objects rows1, load_objects rows2 with
  | Ok os1, Ok os2 => Ok (os1 ++ os2)%list
  | Raise e, _ | Ok _, Raise e => Raise e
  end.
Proof.
  induction rows1 as [|r rows1 IH]; cbn.
  - by destruct (load_objects rows2).
  - destruct (WorldObject_of_row r); [|done]. rewrite IH.
    destruct (load_objects rows1); [|done].
    by destruct (load_objects rows2).
Qed.

Lemma load_objects_length rows objs :
  load_objects rows = Ok objs → length objs = length rows.
Proof.
  revert objs. induction rows as [|r rows IH]; cbn; intros objs Hl.
  - by inversion Hl.
  - destruct (WorldObject_of_row r); [|done].
    destruct (load_objects rows) as [os|]; [|done].
    inversion Hl. cbn. f_equal. by apply IH.
Qed.

Lemma load_objects_ok rows :
  Forall (λ r, is_Some (json_loads (or_properties r))) rows →
  ∃ objs, load_objects rows = Ok objs.
Proof.
  induction 1 as [|r rows [v Hv] _ [objs IH]]; cbn; [by eexists|].
  unfold WorldObject_of_row. rewrite Hv, IH. by eexists.
Qed.

(** *** Sequences of placements *)

Lemma place_all world_id row ds : ∀ st objs rows,
  stored_world world_id st = Some row →
  load_objects (objects_of world_id st) = Ok objs →
  placed world_id (wr_theme row) ds (random st) (clock st) (ticks st) = Ok rows →
  Forall (λ r, or_type r ∈ OBJECT_TYPES ∧ is_Some (json_loads (or_properties r))) rows →
  NoDup (or_id <$> rows) →
  (∀ r, r ∈ rows → or_id r ∉ or_id <$> world_objects st) →
  for_each ds (place world_id) st
  = (Ok (), grown st rows (drawn ds (random st)) (length ds)).
Proof.
  induction ds as [|d ds IH]; intros st objs rows Hw Hl Hp Hok Hnd Hfr.
  - cbn in Hp. inversion Hp. destruct st. unfold grown; cbn.
    by rewrite app_nil_r, Nat.add_0_r.
  - cbn [placed] in Hp. cbn [for_each drawn length]. rewrite bind_run.
    unfold place at 1. destruct (d (random st)) as [p g'] eqn:Hd. cbn [snd].
    destruct (new_object_row _ _ _ _ _ _ _ _ _) as [r|] eqn:Hr; [|done].
    cbn in Hp. destruct (placed _ _ _ _ _ _) as [rs|] eqn:Hrs; [|done].
    cbn in Hp. inversion Hp; subst rows; clear Hp.
    apply Forall_cons in Hok as [[Hty [v Hv]] Hok].
    rewrite fmap_cons in Hnd. apply NoDup_cons in Hnd as [Hr_rs Hnd].
    destruct (new_object_row_fields _ _ _ _ _ _ _ _ _ _ Hr) as (Hid & Hwid & Htype & _ & _).
    rewrite bind_run, add_object_run.
    rewrite bool_decide_false by (rewrite <- Htype; naive_solver).
    change (stored_world world_id (set_random g' st)) with (stored_world world_id st).
    change (objects_of world_id (set_random g' st)) with (objects_of world_id st).
    rewrite Hw, Hl. cbv zeta. cbn [clock ticks set_random world_objects].
    rewrite Hr.
    rewrite bool_decide_false by (apply Hfr; left).
    rewrite Hv.
    set (st2 := set_world_objects _ _).
    assert (∃ objs2, load_objects (objects_of world_id st2) = Ok objs2)
      as [objs2 Hl2].
    { unfold objects_of, st2; cbn. rewrite filter_app, load_objects_app.
      fold (objects_of world_id st). rewrite Hl.
      rewrite filter_cons_True by done. cbn. unfold WorldObject_of_row.
      rewrite Hv. by eexists. }
    rewrite ret_run, (IH st2 objs2 rs); clear IH; try done.
    + f_equal. unfold grown, st2; cbn. f_equal.
      * by rewrite <- app_assoc.
      * lia.
    + intros r' Hr'. unfold st2; cbn. rewrite fmap_app. cbn.
      intros [Hin|Hin%list_elem_of_singleton]%elem_of_app.
      * eapply Hfr; [by right|done].
      * apply Hr_rs. rewrite <- Hin. by apply list_elem_of_fmap_2.
Qed.

(** *** Loops *)

Lemma for_each_ext {A} (xs : list A) (body1 body2 : A → M unit) st :
  (∀ x st, body1 x st = body2 x st) →
  for_each xs body1 st = for_each xs body2 st.
Proof.
  intros Hb. revert st. induction xs as [|x xs IH]; intros st; [done|].
  cbn [for_each]. rewrite !bind_run, Hb.
  destruct (body2 x st) as [[[]|e] st']; [apply IH|done].
Qed.

Lemma for_each_app {A} (xs ys : list A) (body : A → M unit) st :
  for_each (xs ++ ys) body st = (for_each xs body;; for_each ys body) st.
Proof.
  revert st. induction xs as [|x xs IH]; intros st; [done|].
  cbn [for_each app]. rewrite !bind_run.
  destruct (body x st) as [[[]|e] st']; [|done].
  by rewrite IH, bind_run.
Qed.

Lemma for_each_fmap {A B} (f : A → B) (xs : list A) (body : B → M unit) st :
  for_each (f <$> xs) body st = for_each xs (λ x, body (f x)) st.
Proof.
  revert st. induction xs as [|x xs IH]; intros st; [done|].
  cbn [for_each fmap list_fmap]. rewrite !bind_run.
  destruct (body (f x) st) as [[[]|e] st']; [apply IH|done].
Qed.

Lemma for_each_nested {A B} (xs : list A) (ys : list B) (body : A → B → M unit) st :
  for_each xs (λ i, for_each ys (body i)) st =
  for_each (i ← xs; (λ j, (i, j)) <$> ys) (λ ij, body ij.1 ij.2) st.
Proof.
  revert st. induction xs as [|x xs IH]; intros st; [done|].
  cbn [for_each mbind list_bind]. rewrite for_each_app, !bind_run, for_each_fmap.
  cbn [fst snd].
  destruct (for_each ys _ st) as [[[]|e] st']; [apply IH|done].
Qed.

(** *** What [placed] returns *)

Lemma next_ids_S clk t n :
  next_ids clk t (S n) = obj_id_at clk t :: next_ids clk (S t) n.
Proof.
  unfold next_ids. cbn [seq fmap list_fmap]. rewrite Nat.add_0_r. f_equal.
  rewrite <- seq_shift, <- list_fmap_compose. apply list_fmap_ext.
  intros _ k _. cbn. f_equal. lia.
Qed.

Section Placed.
Context (world_id theme : string).

#[local] Abbreviation row_for p now :=
  (new_object_row world_id theme (pl_type p) (pl_name p) (pl_x p) (pl_y p)
     (pl_z p) (pl_props p) now).

Lemma placed_ids ds : ∀ g clk t rows,
  placed world_id theme ds g clk t = Ok rows →
  or_id <$> rows = next_ids clk t (length ds).
Proof.
  induction ds as [|d ds IH]; intros g clk t rows Hp; cbn in Hp.
  - by inversion Hp.
  - destruct (d g) as [p g']. destruct (row_for p (clk t)) as [r|] eqn:Hr; [|done].
    cbn in Hp. destruct (placed _ _ _ _ _ _) as [rs|] eqn:Hrs; [|done].
    inversion Hp. cbn [length]. rewrite next_ids_S, fmap_cons. f_equal.
    + by apply new_object_row_fields in Hr as (? & _).
    + by eapply IH.
Qed.

Lemma placed_ok ds : ∀ g clk t,
  (∀ d g now, d ∈ ds → ∃ r, row_for (d g).1 now = Ok r) →
  ∃ rows, placed world_id theme ds g clk t = Ok rows.
Proof.
  induction ds as [|d ds IH]; intros g clk t Hds; cbn; [by eexists|].
  destruct (Hds d g (clk t)) as [r Hr]; [left|].
  destruct (d g) as [p g']. cbn in Hr. rewrite Hr. cbn.
  destruct (IH g' clk (S t)) as [rs ->]; [|by eexists].
  intros ??? Hin. apply Hds. by right.
Qed.

Lemma placed_Forall2 {X} (f : X → rng → placement * rng)
    (P : X → object_row → Prop) xs :
  ∀ g clk t rows,
  (∀ x g now r, x ∈ xs → row_for (f x g).1 now = Ok r → P x r) →
  placed world_id theme (f <$> xs) g clk t = Ok rows →
  Forall2 P xs rows.
Proof.
  induction xs as [|x xs IH]; intros g clk t rows HP Hp; cbn in Hp.
  - inversion Hp. constructor.
  - destruct (f x g) as [p g'] eqn:Hd.
    destruct (row_for p (clk t)) as [r|] eqn:Hr; [|done].
    cbn in Hp. destruct (placed _ _ _ _ _ _) as [rs|] eqn:Hrs; [|done].
    inversion Hp. constructor.
    + eapply (HP x g); [left|]. rewrite Hd. exact Hr.
    + eapply IH; [|done]. intros ???? Hin. apply HP. by right.
Qed.

End Placed.

Lemma placed_same theme ds : ∀ g world_id1 clk1 t1 rows1 world_id2 clk2 t2 rows2,
  placed world_id1 theme ds g clk1 t1 = Ok rows1 →
  placed world_id2 theme ds g clk2 t2 = Ok rows2 →
  Forall2 same_placement rows1 rows2.
Proof.
  induction ds as [|d ds IH]; intros g w1 clk1 t1 rows1 w2 clk2 t2 rows2 H1 H2;
    cbn in H1, H2.
  - inversion H1. inversion H2. constructor.
  - destruct (d g) as [p g'].
    destruct (new_object_row w1 _ _ _ _ _ _ _ _) as [r1|] eqn:Hr1; [|done].
    destruct (new_object_row w2 _ _ _ _ _ _ _ _) as [r2|] eqn:Hr2; [|done].
    cbn in H1, H2.
    destruct (placed w1 _ _ _ _ _) as [rs1|] eqn:Hrs1; [|done].
    destruct (placed w2 _ _ _ _ _) as [rs2|] eqn:Hrs2; [|done].
    inversion H1. inversion H2. constructor; [|by eapply IH].
    apply object_row_of_inv in Hr1 as (?&?&?&?&?&?&Hx&Hy&Hz&Hs&Hr&Hc&->).
    apply object_row_of_inv in Hr2 as (?&?&?&?&?&?&Hx'&Hy'&Hz'&Hs'&Hr'&Hc'&->).
    rewrite Hx in Hx'. rewrite Hy in Hy'. rewrite Hz in Hz'.
    rewrite Hs in Hs'. rewrite Hr in Hr'. rewrite Hc in Hc'.
    inversion Hx'. inversion Hy'. inversion Hz'.
    inversion Hs'. inversion Hr'. inversion Hc'.
    by repeat split.
Qed.

(** *** Terrain *)

Lemma elem_of_range n x : x ∈ range n ↔ 0 ≤ x < n.
Proof.
  unfold range. rewrite list_elem_of_fmap. setoid_rewrite elem_of_seq. split.
  - intros (k & -> & Hk). lia.
  - intros Hx. exists (Z.to_nat x). lia.
Qed.

Lemma length_range n : length (range n) = Z.to_nat n.
Proof. unfold range. by rewrite length_fmap, length_seq. Qed.

Lemma elem_of_cells n i j : (i, j) ∈ cells n ↔ 0 ≤ i < n ∧ 0 ≤ j < n.
Proof.
  unfold cells. rewrite list_elem_of_bind. split.
  - intros (i' & Hj & Hi). apply list_elem_of_fmap in Hj as (j' & [= -> ->] & Hj).
    by rewrite <- !elem_of_range.
  - intros [Hi Hj]. exists i. rewrite list_elem_of_fmap.
    split; [exists j; split; [done|]|]; by apply elem_of_range.
Qed.

Lemma length_pairs {A B} (xs : list A) (ys : list B) :
  length (i ← xs; (λ j, (i, j)) <$> ys) = (length xs * length ys)%nat.
Proof.
  induction xs as [|x xs IH]; [done|].
  cbn [mbind list_bind length]. rewrite length_app, length_fmap, IH. lia.
Qed.

Lemma length_cells n : length (cells n) = (Z.to_nat n * Z.to_nat n)%nat.
Proof. unfold cells. by rewrite length_pairs, length_range. Qed.

Lemma int64_bounds n : - 2 ^ 63 ≤ n < 2 ^ 63 → int64 n = true.
Proof. unfold int64. intros. apply andb_true_intro. split; lia. Qed.

Lemma generate_terrain_loop world_id st row objs :
  stored_world world_id st = Some row →
  load_objects (objects_of world_id st) = Ok objs →
  generate_terrain world_id st =
  for_each (tile_draw (wr_theme row) <$> cells (grid_size_of (wr_size row)))
    (place world_id) (set_random (random_seed (wr_seed row)) st).
Proof.
  intros Hw Hl. unfold generate_terrain.
  rewrite bind_run, get_world_run, Hw, Hl, bind_run.
  unfold seed_random at 1. cbn [mw_seed mw_size mw_theme MetaverseWorld_of_row].
  cbv zeta. rewrite for_each_nested, for_each_fmap. fold (cells (grid_size_of (wr_size row))).
  apply for_each_ext. intros [i j] st'. cbn [fst snd].
  rewrite bind_run. unfold place, tile_draw, randint.
  destruct (random_randint _ _ _) as [h g']. reflexivity.
Qed.

Lemma place_fresh world_id row ds st objs :
  stored_world world_id st = Some row →
  load_objects (objects_of world_id st) = Ok objs →
  is_Some (json_loads (json_dumps (VDict []))) →
  Forall (sound_draw world_id (wr_theme row)) ds →
  fresh_ids st (length ds) →
  ∃ rows,
    placed world_id (wr_theme row) ds (random st) (clock st) (ticks st) = Ok rows ∧
    for_each ds (place world_id) st
    = (Ok (), grown st rows (drawn ds (random st)) (length ds)).
Proof.
  intros Hw Hl Hjson Hds [Hnd Hfr].
  rewrite Forall_forall in Hds. rewrite Forall_forall in Hfr.
  destruct (placed_ok world_id (wr_theme row) ds (random st) (clock st) (ticks st))
    as [rows Hrows].
  { intros d g now Hd. by apply (Hds d Hd g). }
  exists rows. split; [done|].
  pose proof (placed_ids _ _ _ _ _ _ _ Hrows) as Hids.
  eapply place_all; try done.
  - assert (Forall2 (λ _ r, or_type r ∈ OBJECT_TYPES ∧
                             is_Some (json_loads (or_properties r))) ds rows) as HF.
    { eapply (placed_Forall2 _ _ id); [|by rewrite list_fmap_id].
      intros d g now r Hd Hr. unfold id in Hr.
      destruct (Hds d Hd g) as (Hty & Hfree & _).
      apply new_object_row_fields in Hr as (_ & _ & -> & _ & ->).
      rewrite Hfree. split; [exact Hty|exact Hjson]. }
    eapply Forall2_Forall_r; [exact HF|]. by apply Forall_true.
  - by rewrite Hids.
  - intros r Hr. apply Hfr. rewrite <- Hids. by apply list_elem_of_fmap_2.
Qed.

Lemma bind_real_Int n f : bind_real (Int n) = Ok f → f = float_of_int n.
Proof. cbn. destruct (int64 n); [|done]. by intros [= <-]. Qed.

Lemma bind_real_Int_ok n : - 2 ^ 63 ≤ n < 2 ^ 63 → bind_real (Int n) = Ok (float_of_int n).
Proof. intros Hn. cbn. by rewrite int64_bounds. Qed.

Lemma tile_row world_id theme0 theme ij h now r :
  new_object_row world_id theme0 "terrain" (pl_name (tile theme ij h))
    (Int (ij.1 * 256)) (Int h) (Int (ij.2 * 256)) (pl_props (tile theme ij h)) now = Ok r →
  -10 ≤ h ≤ 50 →
  is_tile world_id theme ij r.
Proof.
  intros (fx&fy&fz&cs&cr&cc&Hx&Hy&Hz&Hs&Hr&Hc&->)%object_row_of_inv Hh.
  apply bind_real_Int in Hx as ->. apply bind_real_Int in Hy as ->.
  apply bind_real_Int in Hz as ->.
  cbn in Hs, Hc. injection Hs as <-. injection Hc as <-.
  unfold is_tile; cbn. rewrite !(Z.mul_comm 256). eauto 10.
Qed.

Lemma tile_draw_sound world_id theme0 theme ij :
  randint_in_range →
  0 ≤ ij.1 < 2 ^ 53 → 0 ≤ ij.2 < 2 ^ 53 →
  sound_draw world_id theme0 (tile_draw theme ij).
Proof.
  intros Hrand Hi Hj g. unfold tile_draw.
  pose proof (Hrand (-10) 50 g) as Hh.
  destruct (random_randint (-10) 50 g) as [h g']. cbn [fst snd] in *.
  split; [|split].
  - cbn. listed.
  - reflexivity.
  - intros now. unfold new_object_row, object_row_of. cbn [tile pl_x pl_y pl_z].
    rewrite !bind_real_Int_ok by lia. cbn. by eexists.
Qed.

Lemma terrain_color_default theme :
  theme ∉ THEMES → _get_terrain_color theme = "#808080".
Proof.
  intros Hth. unfold _get_terrain_color. cbn [dict_get].
  repeat match goal with
  | |- context [String.eqb ?a theme] =>
      destruct (String.eqb_spec a theme) as [<-|_]; [exfalso; apply Hth; listed|]
  end.
  reflexivity.
Qed.

Lemma grid_size_floor size :
  Z.to_nat (grid_size_of size) = Z.to_nat (size / 256).
Proof. unfold grid_size_of. Z.to_euclidean_division_equations. lia. Qed.

Lemma length_terrain_draws theme size :
  length (terrain_draws theme size)
  = (Z.to_nat (size / 256) * Z.to_nat (size / 256))%nat.
Proof. unfold terrain_draws. by rewrite length_fmap, length_cells, Nat2Z.id. Qed.

Lemma generate_terrain_fresh st world_id row :
  stored_world world_id st = Some row →
  Forall (λ r, is_Some (json_loads (or_properties r))) (objects_of world_id st) →
  randint_in_range →
  is_Some (json_loads (json_dumps (VDict []))) →
  wr_size row < 2 ^ 53 →
  fresh_ids st (length (terrain_draws (wr_theme row) (wr_size row))) →
  let ds := terrain_draws (wr_theme row) (wr_size row) in
  ∃ tiles,
    placed world_id (wr_theme row) ds (random_seed (wr_seed row))
      (clock st) (ticks st) = Ok tiles ∧
    generate_terrain world_id st
    = (Ok (), grown st tiles (drawn ds (random_seed (wr_seed row))) (length ds)).
Proof.
  intros Hw [objs Hl]%load_objects_ok Hrand Hjson Hsize Hfresh ds.
  set (st0 := set_random (random_seed (wr_seed row)) st).
  destruct (place_fresh world_id row ds st0 objs) as (tiles & Hplaced & Hrun);
    try done.
  { apply Forall_fmap, Forall_forall. intros [i j] [Hi Hj]%elem_of_cells.
    apply tile_draw_sound; [done|cbn..].
    all: Z.to_euclidean_division_equations; lia. }
  exists tiles. split; [exact Hplaced|].
  erewrite generate_terrain_loop by done. fold st0.
  replace (cells (grid_size_of (wr_size row)))
    with (cells (Z.of_nat (Z.to_nat (wr_size row / 256)))).
  - exact Hrun.
  - unfold cells, range. by rewrite Nat2Z.id, grid_size_floor.
Qed.

Lemma terrain_tiles world_id theme size g clk t tiles :
  randint_in_range →
  placed world_id theme (terrain_draws theme size) g clk t = Ok tiles →
  Forall2 (is_tile world_id theme) (cells (Z.of_nat (Z.to_nat (size / 256)))) tiles.
Proof.
  intros Hrand Hplaced. eapply placed_Forall2; [|exact Hplaced].
  intros ij g0 now r Hij Hr.
  unfold tile_draw in Hr. pose proof (Hrand (-10) 50 g0) as Hh.
  destruct (random_randint (-10) 50 g0) as [h g']. cbn [fst snd] in *.
  eapply tile_row; [exact Hr|lia].
Qed.

(** C3, as amended.  Take a stored world of size S < 2^53 whose objects
    load, and let n = floor(S / 256) (no cell when that is negative).  When
    the n * n object ids that the run draws from the clock are new, terrain
    generation returns and appends exactly n * n rows to the objects table,
    one per cell (i, j) with 0 <= i, j < n in row-major order: a terrain
    object of this world named terrain_i_j, stored at (256 i, h, 256 j) for
    an integer h in [-10, 50], with scale 256 and the theme's terrain color,
    which is gray #808080 for a theme outside the eight.  A size below 256
    gives no row and no error. *)
Theorem terrain_grid st world_id row :
  stored_world world_id st = Some row →
  Forall (λ r, is_Some (json_loads (or_properties r))) (objects_of world_id st) →
  randint_in_range →
  is_Some (json_loads (json_dumps (VDict []))) →
  wr_size row < 2 ^ 53 →
  let n := Z.to_nat (wr_size row / 256) in
  fresh_ids st (n * n) →
  ∃ st' tiles,
    generate_terrain world_id st = (Ok (), st') ∧
    world_objects st' = world_objects st ++ tiles ∧
    length tiles = (n * n)%nat ∧
    Forall2 (is_tile world_id (wr_theme row)) (cells (Z.of_nat n)) tiles ∧
    (∀ i j, (i, j) ∈ cells (Z.of_nat n) ↔ 0 ≤ i < Z.of_nat n ∧ 0 ≤ j < Z.of_nat n) ∧
    (wr_theme row ∉ THEMES → _get_terrain_color (wr_theme row) = "#808080") ∧
    (wr_size row < 256 → tiles = []).
Proof.
  intros Hw Hobjs Hrand Hjson Hsize n Hfresh.
  destruct (generate_terrain_fresh st world_id row) as (tiles & Hplaced & Hrun);
    try done.
  { by rewrite length_terrain_draws. }
  pose proof (terrain_tiles _ _ _ _ _ _ _ Hrand Hplaced) as Htiles.
  assert (length tiles = (n * n)%nat) as Hlen.
  { apply Forall2_length in Htiles. by rewrite <- Htiles, length_cells, Nat2Z.id. }
  eexists _, tiles. split; [exact Hrun|].
  split; [reflexivity|]. split; [exact Hlen|]. split; [exact Htiles|].
  split; [intros i j; apply elem_of_cells|].
  split; [apply terrain_color_default|].
  intros Hsmall.
  assert (n = 0%nat) as Hn by (subst n; Z.to_euclidean_division_equations; lia).
  rewrite Hn in Hlen. by destruct tiles.
Qed.

(** *** Rows of one world *)

Lemma placed_world world_id theme ds g clk t rows :
  placed world_id theme ds g clk t = Ok rows →
  Forall (λ r, or_world_id r = world_id) rows.
Proof.
  intros Hp.
  assert (Forall2 (λ _ r, or_world_id r = world_id) ds rows) as HF.
  { eapply (placed_Forall2 _ _ id); [|by rewrite list_fmap_id].
    intros d g0 now r _ Hr. by apply new_object_row_fields in Hr as (_ & -> & _). }
  eapply Forall2_Forall_r; [exact HF|]. by apply Forall_true.
Qed.

Lemma filter_all {A} (P : A → Prop) `{∀ x, Decision (P x)} (l : list A) :
  Forall P l → filter P l = l.
Proof.
  induction 1 as [|x l Hx _ IH]; [done|]. by rewrite filter_cons_True, IH.
Qed.

Lemma objects_of_grown world_id st rows g n :
  Forall (λ r, or_world_id r = world_id) rows →
  objects_of world_id (grown st rows g n) = objects_of world_id st ++ rows.
Proof.
  intros Hrows. unfold objects_of, grown; cbn.
  by rewrite filter_app, (filter_all _ rows).
Qed.

(** C2, as amended.  Take two worlds stored with the same theme, seed
    and size, neither of which has an object yet.  When the object ids each
    run draws from the clock are new, terrain generation returns on both,
    whatever state the shared random source was in before each run, and the
    objects of the two worlds are then the same in number and, one by one,
    in type, name, coordinates, scale, rotation, color and properties. *)
Theorem terrain_deterministic st1 st2 world_id1 world_id2 row1 row2 :
  stored_world world_id1 st1 = Some row1 →
  stored_world world_id2 st2 = Some row2 →
  objects_of world_id1 st1 = [] →
  objects_of world_id2 st2 = [] →
  wr_theme row1 = wr_theme row2 →
  wr_seed row1 = wr_seed row2 →
  wr_size row1 = wr_size row2 →
  randint_in_range →
  is_Some (json_loads (json_dumps (VDict []))) →
  wr_size row1 < 2 ^ 53 →
  let n := Z.to_nat (wr_size row1 / 256) in
  fresh_ids st1 (n * n) →
  fresh_ids st2 (n * n) →
  ∃ st1' st2',
    generate_terrain world_id1 st1 = (Ok (), st1') ∧
    generate_terrain world_id2 st2 = (Ok (), st2') ∧
    Forall2 same_placement (objects_of world_id1 st1') (objects_of world_id2 st2').
Proof.
  intros Hw1 Hw2 Hnew1 Hnew2 Htheme Hseed Hsize Hrand Hjson Hbound n Hfresh1 Hfresh2.
  destruct (generate_terrain_fresh st1 world_id1 row1) as (tiles1 & Hp1 & Hrun1);
    try done.
  { by rewrite Hnew1. }
  { by rewrite length_terrain_draws. }
  destruct (generate_terrain_fresh st2 world_id2 row2) as (tiles2 & Hp2 & Hrun2);
    try done.
  { by rewrite Hnew2. }
  { by rewrite <- Hsize. }
  { by rewrite length_terrain_draws, <- Hsize. }
  eexists _, _. split; [exact Hrun1|]. split; [exact Hrun2|].
  rewrite !objects_of_grown by (eapply placed_world; eassumption).
  rewrite Hnew1, Hnew2. cbn [app].
  rewrite <- Htheme, <- Hseed, <- Hsize in Hp2.
  eapply placed_same; eassumption.
Qed.

(** *** Population *)

Lemma set_random_same st : set_random (random st) st = st.
Proof. by destruct st. Qed.

Lemma bind_ret_unit (m : M unit) st : (m;; mret ()) st = m st.
Proof. rewrite bind_run. by destruct (m st) as [[[]|e] st']. Qed.

Lemma place_fixed world_id type_ name x y z scale color st :
  (add_object world_id type_ name (Int x) (Int y) (Int z)
     [ ("scale", VInt scale); ("color", VStr color) ];; mret ()) st
  = for_each [fixed type_ name x y z scale color] (place world_id) st.
Proof.
  cbn [for_each]. rewrite bind_ret_unit. unfold place, fixed.
  by rewrite set_random_same.
Qed.

Lemma buildings_loop world_id theme size n st :
  for_each (range n) (λ i,
    x ← uniform 0 size;
    z ← uniform 0 size;
    add_object world_id "building" (theme +:+ "_building_" +:+ pretty i)
      (Float x) (Int 20) (Float z) [ ("scale", VInt 20) ];;
    mret ()) st
  = for_each (building theme size <$> range n) (place world_id) st.
Proof.
  rewrite for_each_fmap. apply for_each_ext.
  intros i st'. rewrite !bind_run. unfold place, building, uniform.
  destruct (random_uniform _ _ _) as [x g1].
  rewrite bind_run. cbn [set_random random].
  by destruct (random_uniform _ _ _) as [z g2].
Qed.

Lemma trees_loop world_id size n st :
  for_each (range n) (λ i,
    x ← uniform 0 size;
    z ← uniform 0 size;
    add_object world_id "tree" ("tree_" +:+ pretty i)
      (Float x) (Int 5) (Float z) [ ("scale", VInt 5) ];;
    mret ()) st
  = for_each (tree size <$> range n) (place world_id) st.
Proof.
  rewrite for_each_fmap. apply for_each_ext.
  intros i st'. rewrite !bind_run. unfold place, tree, uniform.
  destruct (random_uniform _ _ _) as [x g1].
  rewrite bind_run. cbn [set_random random].
  by destruct (random_uniform _ _ _) as [z g2].
Qed.

Lemma lights_loop world_id size n st :
  for_each (range n) (λ i,
    x ← uniform 0 size;
    z ← uniform 0 size;
    add_object world_id "light" ("light_" +:+ pretty i)
      (Float x) (Int 100) (Float z)
      [ ("scale", VInt 2); ("color", VStr "#FFFF00") ];;
    mret ()) st
  = for_each (light size <$> range n) (place world_id) st.
Proof.
  rewrite for_each_fmap. apply for_each_ext.
  intros i st'. rewrite !bind_run. unfold place, light, uniform.
  destruct (random_uniform _ _ _) as [x g1].
  rewrite bind_run. cbn [set_random random].
  by destruct (random_uniform _ _ _) as [z g2].
Qed.

Lemma populate_world_loop world_id st row objs :
  stored_world world_id st = Some row →
  load_objects (objects_of world_id st) = Ok objs →
  populate_world world_id st =
  for_each (population (wr_theme row) (wr_size row)) (place world_id)
    (set_random (random_seed (wr_seed row)) st).
Proof.
  intros Hw Hl. unfold populate_world.
  rewrite bind_run, get_world_run, Hw, Hl, bind_run.
  unfold seed_random at 1. cbn [mw_seed mw_size mw_theme MetaverseWorld_of_row].
  generalize (set_random (random_seed (wr_seed row)) st). clear. intros st.
  unfold population. rewrite for_each_app, !bind_run, buildings_loop.
  destruct (for_each _ _ st) as [[[]|e] st1]; [|done].
  rewrite for_each_app, !bind_run.
  assert ((if bool_decide (wr_theme row ∉ ["space"; "underwater"])
           then for_each (range 15) (λ i,
                  x ← uniform 0 (wr_size row);
                  z ← uniform 0 (wr_size row);
                  add_object world_id "tree" ("tree_" +:+ pretty i)
                    (Float x) (Int 5) (Float z) [ ("scale", VInt 5) ];;
                  mret ())
           else mret ()) st1
          = for_each (trees (wr_theme row) (wr_size row)) (place world_id) st1) as ->.
  { unfold trees. case_bool_decide; [apply trees_loop|done]. }
  destruct (for_each (trees _ _) _ st1) as [[[]|e] st2]; [|done].
  rewrite for_each_app, !bind_run, lights_loop.
  destruct (for_each _ _ st2) as [[[]|e] st3]; [|done].
  rewrite bind_ret_unit. unfold special.
  repeat (destruct (String.eqb _ _); [apply place_fixed|]).
  reflexivity.
Qed.

Lemma placed_app world_id theme ds1 ds2 : ∀ g clk t rows,
  placed world_id theme (ds1 ++ ds2) g clk t = Ok rows →
  ∃ rows1 rows2,
    rows = rows1 ++ rows2 ∧
    placed world_id theme ds1 g clk t = Ok rows1 ∧
    placed world_id theme ds2 (drawn ds1 g) clk (t + length ds1) = Ok rows2.
Proof.
  induction ds1 as [|d ds1 IH]; intros g clk t rows Hp.
  - exists [], rows. cbn. by rewrite Nat.add_0_r.
  - cbn [app placed] in Hp. cbn [placed drawn length].
    destruct (d g) as [p g']. cbn [snd].
    destruct (new_object_row _ _ _ _ _ _ _ _ _) as [r|]; [|done].
    cbn in Hp. destruct (placed _ _ (ds1 ++ ds2) _ _ _) as [rs|] eqn:Hrs; [|done].
    apply IH in Hrs as (rows1 & rows2 & -> & -> & Hrows2).
    inversion Hp. exists (r :: rows1), rows2. cbn.
    replace (t + S (length ds1))%nat with (S t + length ds1)%nat by lia.
    done.
Qed.

Lemma building_sound world_id theme0 theme size i :
  sound_draw world_id theme0 (building theme size i).
Proof.
  intros g. unfold building.
  destruct (random_uniform 0 size g) as [x g1].
  destruct (random_uniform 0 size g1) as [z g2]. cbn [fst].
  split; [cbn; listed|]. split; [reflexivity|].
  intros now. cbn. by eexists.
Qed.

Lemma tree_sound world_id theme0 size i : sound_draw world_id theme0 (tree size i).
Proof.
  intros g. unfold tree.
  destruct (random_uniform 0 size g) as [x g1].
  destruct (random_uniform 0 size g1) as [z g2]. cbn [fst].
  split; [cbn; listed|]. split; [reflexivity|].
  intros now. cbn. by eexists.
Qed.

Lemma light_sound world_id theme0 size i : sound_draw world_id theme0 (light size i).
Proof.
  intros g. unfold light.
  destruct (random_uniform 0 size g) as [x g1].
  destruct (random_uniform 0 size g1) as [z g2]. cbn [fst].
  split; [cbn; listed|]. split; [reflexivity|].
  intros now. cbn. by eexists.
Qed.

Lemma special_sound world_id theme0 theme :
  Forall (sound_draw world_id theme0) (special theme).
Proof.
  unfold special.
  repeat (destruct (String.eqb _ _);
          [apply Forall_singleton; intros g;
           (split; [cbn; listed|]); (split; [reflexivity|]);
           intros now; cbn; by eexists|]).
  constructor.
Qed.

Lemma population_sound world_id theme0 theme size :
  Forall (sound_draw world_id theme0) (population theme size).
Proof.
  unfold population, trees. repeat apply Forall_app_2.
  - apply Forall_fmap, Forall_true. intros i. apply building_sound.
  - case_bool_decide; [|constructor].
    apply Forall_fmap, Forall_true. intros i. apply tree_sound.
  - apply Forall_fmap, Forall_true. intros i. apply light_sound.
  - apply special_sound.
Qed.

Lemma length_special theme : length (special theme) = landmark_count theme.
Proof.
  unfold special, landmark_count.
  repeat match goal with
  | |- context [String.eqb theme ?a] =>
      destruct (String.eqb_spec theme a) as [->|?]; [reflexivity|]
  end.
  rewrite bool_decide_false; [done|].
  rewrite !elem_of_cons, elem_of_nil. intros [?|[?|[?|[]]]]; congruence.
Qed.

Lemma length_trees theme size : length (trees theme size) = tree_count theme.
Proof.
  unfold trees, tree_count. rewrite !(bool_decide_not _).
  destruct (bool_decide _); [done|]. cbn [negb]. by rewrite length_fmap, length_range.
Qed.

Lemma length_population theme size :
  length (population theme size)
  = (8 + tree_count theme + 4 + landmark_count theme)%nat.
Proof.
  unfold population.
  rewrite !length_app, !length_fmap, !length_range, length_trees, length_special.
  cbn. lia.
Qed.

Lemma populate_world_fresh st world_id row :
  stored_world world_id st = Some row →
  Forall (λ r, is_Some (json_loads (or_properties r))) (objects_of world_id st) →
  is_Some (json_loads (json_dumps (VDict []))) →
  let ds := population (wr_theme row) (wr_size row) in
  fresh_ids st (length ds) →
  ∃ rows,
    placed world_id (wr_theme row) ds (random_seed (wr_seed row))
      (clock st) (ticks st) = Ok rows ∧
    populate_world world_id st
    = (Ok (), grown st rows (drawn ds (random_seed (wr_seed row))) (length ds)).
Proof.
  intros Hw [objs Hl]%load_objects_ok Hjson ds Hfresh.
  set (st0 := set_random (random_seed (wr_seed row)) st).
  destruct (place_fresh world_id row ds st0 objs) as (rows & Hplaced & Hrun);
    try done.
  { apply population_sound. }
  exists rows. split; [exact Hplaced|].
  by erewrite populate_world_loop.
Qed.

Lemma building_rows world_id theme0 theme size n g clk t rows :
  placed world_id theme0 (building theme size <$> range n) g clk t = Ok rows →
  Forall2 (is_building world_id theme) (range n) rows.
Proof.
  apply placed_Forall2. intros i g0 now r _. unfold building.
  destruct (random_uniform 0 size g0) as [x g1].
  destruct (random_uniform 0 size g1) as [z g2]. cbn [fst].
  intros (fx&fy&fz&cs&cr&cc&Hx&Hy&Hz&Hs&Hr&Hc&->)%object_row_of_inv.
  apply bind_real_Int in Hy as ->. cbn in Hs. injection Hs as <-.
  by repeat split.
Qed.

Lemma tree_rows world_id theme0 size n g clk t rows :
  placed world_id theme0 (tree size <$> range n) g clk t = Ok rows →
  Forall2 (is_tree world_id) (range n) rows.
Proof.
  apply placed_Forall2. intros i g0 now r _. unfold tree.
  destruct (random_uniform 0 size g0) as [x g1].
  destruct (random_uniform 0 size g1) as [z g2]. cbn [fst].
  intros (fx&fy&fz&cs&cr&cc&Hx&Hy&Hz&Hs&Hr&Hc&->)%object_row_of_inv.
  apply bind_real_Int in Hy as ->. cbn in Hs. injection Hs as <-.
  by repeat split.
Qed.

Lemma light_rows world_id theme0 size n g clk t rows :
  placed world_id theme0 (light size <$> range n) g clk t = Ok rows →
  Forall2 (is_light world_id) (range n) rows.
Proof.
  apply placed_Forall2. intros i g0 now r _. unfold light.
  destruct (random_uniform 0 size g0) as [x g1].
  destruct (random_uniform 0 size g1) as [z g2]. cbn [fst].
  intros (fx&fy&fz&cs&cr&cc&Hx&Hy&Hz&Hs&Hr&Hc&->)%object_row_of_inv.
  apply bind_real_Int in Hy as ->. cbn in Hs, Hc.
  injection Hs as <-. injection Hc as <-.
  by repeat split.
Qed.

Lemma fixed_row world_id theme0 type_ name x y z scale color now r :
  new_object_row world_id theme0 type_ name (Int x) (Int y) (Int z)
    [ ("scale", VInt scale); ("color", VStr color) ] now = Ok r →
  is_landmark world_id (type_, (x, y, z)) r.
Proof.
  intros (fx&fy&fz&cs&cr&cc&Hx&Hy&Hz&Hs&Hr&Hc&->)%object_row_of_inv.
  apply bind_real_Int in Hx as ->. apply bind_real_Int in Hy as ->.
  apply bind_real_Int in Hz as ->. by repeat split.
Qed.

Lemma special_rows world_id theme0 theme g clk t rows :
  placed world_id theme0 (special theme) g clk t = Ok rows →
  match landmark theme with
  | Some l => ∃ r, rows = [r] ∧ is_landmark world_id l r
  | None => rows = []
  end.
Proof.
  unfold special, landmark.
  repeat (destruct (String.eqb _ _);
    [cbn [placed fixed];
     destruct (new_object_row _ _ _ _ _ _ _ _ _) as [r|] eqn:Hr; [|done];
     intros [= <-]; exists r; split; [done|by eapply fixed_row]|]).
  by intros [= <-].
Qed.

Lemma next_ids_app clk t n m :
  next_ids clk t (n + m) = next_ids clk t n ++ next_ids clk (t + n) m.
Proof.
  revert t. induction n as [|n IH]; intros t.
  - cbn. by rewrite Nat.add_0_r.
  - cbn [Nat.add]. rewrite !next_ids_S, IH. cbn [app].
    by replace (t + S n)%nat with (S t + n)%nat by lia.
Qed.

Lemma placed_loadable world_id theme ds g clk t rows :
  Forall (sound_draw world_id theme) ds →
  is_Some (json_loads (json_dumps (VDict []))) →
  placed world_id theme ds g clk t = Ok rows →
  Forall (λ r, is_Some (json_loads (or_properties r))) rows.
Proof.
  intros Hds Hjson Hp. rewrite Forall_forall in Hds.
  assert (Forall2 (λ _ r, is_Some (json_loads (or_properties r))) ds rows) as HF.
  { eapply (placed_Forall2 _ _ id); [|by rewrite list_fmap_id].
    intros d g0 now r Hd Hr. unfold id in Hr.
    destruct (Hds d Hd g0) as (_ & Hfree & _).
    apply new_object_row_fields in Hr as (_ & _ & _ & _ & ->).
    by rewrite Hfree. }
  eapply Forall2_Forall_r; [exact HF|]. by apply Forall_true.
Qed.

Lemma terrain_sound world_id theme size :
  randint_in_range → size < 2 ^ 53 →
  Forall (sound_draw world_id theme) (terrain_draws theme size).
Proof.
  intros Hrand Hsize.
  apply Forall_fmap, Forall_forall. intros [i j] [Hi Hj]%elem_of_cells.
  apply tile_draw_sound; [done|cbn..].
  all: Z.to_euclidean_division_equations; lia.
Qed.

Lemma get_world_count world_id st row :
  stored_world world_id st = Some row →
  Forall (λ r, is_Some (json_loads (or_properties r))) (objects_of world_id st) →
  ∃ w, get_world world_id st = (Ok (Some w), st) ∧
       length (mw_objects w) = length (objects_of world_id st).
Proof.
  intros Hw [objs Hl]%load_objects_ok.
  rewrite get_world_run, Hw, Hl. eexists. split; [done|].
  cbn. by eapply load_objects_length.
Qed.

Lemma create_world_ok name theme seed size st :
  theme ∈ THEMES →
  int64 seed = true → int64 size = true →
  let now := clock st (ticks st) in
  let world_id := "world_" +:+ pretty (epoch_ms now) in
  world_id ∉ wr_id <$> worlds st →
  create_world name theme (Some seed) size st
  = (Ok {| mw_id := world_id; mw_name := name; mw_theme := theme;
           mw_seed := seed; mw_size := size; mw_objects := [];
           mw_created_at := VFloat now; mw_description := VStr "" |},
     set_worlds (worlds st ++
       [ {| wr_id := world_id; wr_name := name; wr_theme := theme;
            wr_seed := seed; wr_size := size; wr_created_at := now;
            wr_description := "A " +:+ theme +:+ " metaverse world" |} ])
       (set_ticks (S (ticks st)) st)).
Proof.
  intros Hth Hseed Hsize now world_id Hnew. unfold create_world.
  rewrite bool_decide_false by naive_solver.
  rewrite bind_run, ret_run, bind_run. unfold datetime_now at 1.
  rewrite bind_run. unfold insert_world.
  rewrite bind_run. unfold lift at 1, bind_int at 1. rewrite Hseed.
  rewrite bind_run. unfold lift at 1, bind_int at 1. rewrite Hsize.
  unfold store_world. cbn [wr_id worlds set_ticks].
  rewrite bool_decide_false by done.
  by rewrite bind_run.
Qed.

Lemma aurora g clk :
  randint_in_range →
  is_Some (json_loads (json_dumps (VDict []))) →
  NoDup (next_ids clk 1 31) →
  ∃ w st1 st2 st3 w',
    create_world "Aurora" "arctic" (Some 42) 512 (empty_database g clk) = (Ok w, st1) ∧
    generate_terrain (mw_id w) st1 = (Ok (), st2) ∧
    populate_world (mw_id w) st2 = (Ok (), st3) ∧
    get_world (mw_id w) st3 = (Ok (Some w'), st3) ∧
    length (mw_objects w') = 31%nat.
Proof.
  intros Hrand Hjson Hnd.
  set (wid := "world_" +:+ pretty (epoch_ms (clk 0%nat))).
  set (row := {| wr_id := wid; wr_name := "Aurora"; wr_theme := "arctic";
                 wr_seed := 42; wr_size := 512; wr_created_at := clk 0%nat;
                 wr_description := "A arctic metaverse world" |}).
  set (st1 := {| worlds := [row]; world_objects := []; player_positions := [];
                 random := g; clock := clk; ticks := 1 |}).
  change (next_ids clk 1 31) with (next_ids clk 1 (4 + 27)) in Hnd.
  rewrite next_ids_app in Hnd. apply NoDup_app in Hnd as (Hnd1 & Hdisj & Hnd2).
  assert (stored_world wid st1 = Some row) as Hw.
  { unfold stored_world, st1; cbn. by rewrite String.eqb_refl. }
  destruct (generate_terrain_fresh st1 wid row) as (tiles & Hp1 & Hrun1); try done.
  { split; [exact Hnd1|]. apply Forall_forall. intros id _. cbn. apply not_elem_of_nil. }
  set (st2 := grown st1 tiles _ _) in Hrun1.
  pose proof (placed_world _ _ _ _ _ _ _ Hp1) as Hwid1.
  pose proof (placed_ids _ _ _ _ _ _ _ Hp1) as Hids1.
  assert (Forall (λ r, is_Some (json_loads (or_properties r))) tiles) as Hload1.
  { eapply placed_loadable; [|done|exact Hp1]. by apply terrain_sound. }
  assert (objects_of wid st2 = tiles) as Hobjs2.
  { unfold st2. by rewrite objects_of_grown. }
  destruct (populate_world_fresh st2 wid row) as (rows & Hp2 & Hrun2); try done.
  { by rewrite Hobjs2. }
  { split; [exact Hnd2|]. apply Forall_forall. intros id Hid. cbn. rewrite Hids1.
    intros Hin. by eapply Hdisj. }
  set (st3 := grown st2 rows _ _) in Hrun2.
  pose proof (placed_world _ _ _ _ _ _ _ Hp2) as Hwid2.
  assert (Forall (λ r, is_Some (json_loads (or_properties r))) rows) as Hload2.
  { eapply placed_loadable; [|done|exact Hp2]. apply population_sound. }
  assert (objects_of wid st3 = tiles ++ rows) as Hobjs3.
  { unfold st3. by rewrite objects_of_grown, Hobjs2. }
  destruct (get_world_count wid st3 row) as (w' & Hget & Hcount); [done|..].
  { rewrite Hobjs3. by apply Forall_app_2. }
  eexists _, st1, st2, st3, w'.
  split.
  { apply (create_world_ok "Aurora" "arctic" 42 512 (empty_database g clk));
      [listed|done|done|]. cbn. apply not_elem_of_nil. }
  cbn [mw_id empty_database clock ticks]. fold wid.
  split; [exact Hrun1|]. split; [exact Hrun2|]. split; [exact Hget|].
  rewrite Hcount, Hobjs3, length_app.
  apply (f_equal length) in Hids1. rewrite !length_fmap in Hids1.
  pose proof (placed_ids _ _ _ _ _ _ _ Hp2) as Hids2.
  apply (f_equal length) in Hids2. rewrite !length_fmap in Hids2.
  rewrite Hids1, Hids2. unfold next_ids. rewrite !length_fmap, !length_seq.
  rewrite length_terrain_draws, length_population. reflexivity.
Qed.

(** C4, as amended.  For a stored world whose objects load, when the
    object ids that the run draws from the clock are new, population
    returns and appends, in this order, 8 buildings, 15 trees (none for the
    themes space and underwater), 4 lights and the theme's landmark: an npc
    at (500, 50, 500) for cyberpunk, an artifact at (512, 20, 512) for
    fantasy, a portal at (512, 100, 512) for space, nothing for the other
    themes.  And from an empty database, when the 31 object ids drawn after
    the world's creation are pairwise distinct, creating Aurora (arctic,
    seed 42, size 512), generating its terrain and populating it all
    return, and the world is then read back with 4 + 8 + 15 + 4 = 31
    objects. *)
Theorem population_counts :
  (∀ st world_id row,
     stored_world world_id st = Some row →
     Forall (λ r, is_Some (json_loads (or_properties r))) (objects_of world_id st) →
     is_Some (json_loads (json_dumps (VDict []))) →
     fresh_ids st (8 + tree_count (wr_theme row) + 4 + landmark_count (wr_theme row)) →
     ∃ st' buildings trees lights landmarks,
       populate_world world_id st = (Ok (), st') ∧
       world_objects st'
         = world_objects st ++ buildings ++ trees ++ lights ++ landmarks ∧
       length buildings = 8%nat ∧
       Forall2 (is_building world_id (wr_theme row)) (range 8) buildings ∧
       length trees = tree_count (wr_theme row) ∧
       Forall2 (is_tree world_id) (range (Z.of_nat (tree_count (wr_theme row)))) trees ∧
       length lights = 4%nat ∧
       Forall2 (is_light world_id) (range 4) lights ∧
       match landmark (wr_theme row) with
       | Some l => ∃ r, landmarks = [r] ∧ is_landmark world_id l r
       | None => landmarks = []
       end) ∧
  (∀ g clk,
     randint_in_range →
     is_Some (json_loads (json_dumps (VDict []))) →
     NoDup (next_ids clk 1 31) →
     ∃ w st1 st2 st3 w',
       create_world "Aurora" "arctic" (Some 42) 512 (empty_database g clk)
         = (Ok w, st1) ∧
       generate_terrain (mw_id w) st1 = (Ok (), st2) ∧
       populate_world (mw_id w) st2 = (Ok (), st3) ∧
       get_world (mw_id w) st3 = (Ok (Some w'), st3) ∧
       length (mw_objects w') = 31%nat).
Proof.
  split; [|apply aurora].
  intros st world_id row Hw Hobjs Hjson Hfresh.
  destruct (populate_world_fresh st world_id row) as (rows & Hplaced & Hrun);
    try done.
  { by rewrite length_population. }
  unfold population in Hplaced.
  apply placed_app in Hplaced as (buildings & rest & -> & Hb & Hplaced).
  apply placed_app in Hplaced as (trees_ & rest' & -> & Ht & Hplaced).
  apply placed_app in Hplaced as (lights & landmarks & -> & Hl & Hs).
  apply building_rows in Hb. apply light_rows in Hl. apply special_rows in Hs.
  assert (Forall2 (is_tree world_id)
            (range (Z.of_nat (tree_count (wr_theme row)))) trees_) as Htrees.
  { unfold trees in Ht. unfold tree_count.
    rewrite (bool_decide_not _) in Ht. destruct (bool_decide _); cbn [negb] in Ht.
    - inversion Ht. constructor.
    - by eapply tree_rows. }
  eexists _, buildings, trees_, lights, landmarks.
  split; [exact Hrun|]. split; [reflexivity|].
  split; [by rewrite <- (Forall2_length _ _ _ Hb), length_range|].
  split; [exact Hb|].
  split; [by rewrite <- (Forall2_length _ _ _ Htrees), length_range, Nat2Z.id|].
  split; [exact Htrees|].
  split; [by rewrite <- (Forall2_length _ _ _ Hl), length_range|].
  split; [exact Hl|exact Hs].
Qed.

(** *** Validation *)

Lemma create_world_invalid name theme seed size st :
  theme ∉ THEMES →
  create_world name theme seed size st
  = (Raise (ValueError ("Invalid theme. Choose from: " +:+ String.concat ", " THEMES)), st).
Proof. intros Hth. unfold create_world. by rewrite bool_decide_true. Qed.

Lemma add_object_invalid world_id type_ name x y z props st :
  type_ ∉ OBJECT_TYPES →
  add_object world_id type_ name x y z props st
  = (Raise (ValueError ("Invalid type. Choose from: " +:+ String.concat ", " OBJECT_TYPES)), st).
Proof. intros Hty. unfold add_object. by rewrite bool_decide_true. Qed.

(** C5.  [create_world] with a theme outside [THEMES] and [add_object]
    with a type outside [OBJECT_TYPES] raise the ValueError that names the
    valid choices, and leave the whole state as it was: no row is stored,
    nothing is drawn and the clock is not read. *)
Theorem enum_enforcement :
  (∀ name theme seed size st,
     theme ∉ THEMES →
     ∃ e, create_world name theme seed size st = (Raise e, st) ∧ InvalidArgument e) ∧
  (∀ world_id type_ name x y z props st,
     type_ ∉ OBJECT_TYPES →
     ∃ e, add_object world_id type_ name x y z props st = (Raise e, st) ∧
          InvalidArgument e).
Proof.
  split.
  - intros name theme seed size st Hth. eexists. split.
    + by apply create_world_invalid.
    + by eexists.
  - intros world_id type_ name x y z props st Hty. eexists. split.
    + by apply add_object_invalid.
    + by eexists.
Qed.

(** C10.  [add_object] checks the type before it looks the world up: with
    a type outside [OBJECT_TYPES] it raises the invalid-type ValueError in
    every state, so also when no world has the given id, and that error is
    never the not-found one. *)
Theorem type_checked_before_lookup world_id type_ name x y z props st :
  type_ ∉ OBJECT_TYPES →
  ∃ e, add_object world_id type_ name x y z props st = (Raise e, st) ∧
       InvalidArgument e ∧ ¬ NotFound e.
Proof.
  intros Hty. eexists. split; [by apply add_object_invalid|]. split.
  - by eexists.
  - intros [w Hw]. discriminate Hw.
Qed.

(** *** The keyword bag *)

Lemma dict_get_absent {A} (d : list (string * A)) key default :
  key ∉ dict_keys d → dict_get d key default = default.
Proof.
  unfold dict_keys. induction d as [|[k v] d IH]; [done|].
  cbn. rewrite not_elem_of_cons. intros [Hne Hd].
  destruct (String.eqb_spec k key); [congruence|by apply IH].
Qed.

Lemma free_properties_items props k v :
  (k, v) ∈ free_properties props ↔
  (k, v) ∈ props ∧ k ∉ ["scale"; "rotation"; "color"].
Proof. unfold free_properties. rewrite list_elem_of_filter. cbn. tauto. Qed.

(** C7.  A call of [add_object] that returns belongs to a stored world,
    and the object it returns has for scale, rotation and color what
    [dict.get] finds in the keyword bag, with the defaults 1.0, 0.0 and the
    accent color of the world's theme (white for a theme that is not in
    [THEME_COLORS]); its properties are the bag without the keys scale,
    rotation and color, every other key with its value; and the one row
    appended to the objects table carries the same id and the text that
    loads back to those properties.  The codec is assumed to read back
    what it wrote for this bag. *)
Theorem add_object_bag world_id type_ name x y z props st obj st' :
  add_object world_id type_ name x y z props st = (Ok obj, st') →
  json_loads (json_dumps (VDict (free_properties props)))
    = Some (VDict (free_properties props)) →
  ∃ row r,
    stored_world world_id st = Some row ∧
    wo_scale obj = dict_get props "scale" (VFloat (float_of_int 1)) ∧
    wo_rotation obj = dict_get props "rotation" (VFloat (float_of_int 0)) ∧
    wo_color obj
      = dict_get props "color"
          (VStr (dict_get THEME_COLORS (wr_theme row) "#FFFFFF")) ∧
    (∀ key default, key ∉ dict_keys props → dict_get props key default = default) ∧
    (wr_theme row ∉ dict_keys THEME_COLORS →
     dict_get THEME_COLORS (wr_theme row) "#FFFFFF" = "#FFFFFF") ∧
    wo_properties obj = VDict (free_properties props) ∧
    (∀ k v, (k, v) ∈ free_properties props ↔
            (k, v) ∈ props ∧ k ∉ ["scale"; "rotation"; "color"]) ∧
    world_objects st' = world_objects st ++ [r] ∧
    or_id r = wo_id obj ∧
    json_loads (or_properties r) = Some (VDict (free_properties props)).
Proof.
  intros Hadd Hjson. rewrite add_object_run in Hadd.
  case_bool_decide; [done|].
  destruct (stored_world world_id st) as [row|]; [|done].
  destruct (load_objects _) as [objs|]; [|done]. cbv zeta in Hadd.
  destruct (new_object_row _ _ _ _ _ _ _ _ _) as [r|] eqn:Hr; [|done].
  case_bool_decide; [done|].
  apply new_object_row_fields in Hr as (Hid & _ & _ & _ & Hprops).
  rewrite Hprops, Hjson in Hadd. injection Hadd as <- <-.
  exists row, r.
  split; [done|]. split; [done|]. split; [done|]. split; [done|].
  split; [intros key default; apply dict_get_absent|].
  split; [apply dict_get_absent|]. split; [done|].
  split; [apply free_properties_items|]. split; [done|]. split; [done|].
  by rewrite Hprops.
Qed.

(** *** Exports *)

Lemma get_world_inv world_id st w st' :
  get_world world_id st = (Ok (Some w), st') →
  ∃ row objs,
    stored_world world_id st = Some row ∧
    load_objects (objects_of world_id st) = Ok objs ∧
    w = MetaverseWorld_of_row row objs ∧ st' = st.
Proof.
  rewrite get_world_run.
  destruct (stored_world world_id st) as [row|]; [|done].
  destruct (load_objects _) as [objs|]; [|done].
  intros [= <- <-]. by exists row, objs.
Qed.

(** Whatever world is stored, [export_json] stops at the creation time. *)
Lemma export_json_raises world_id st w st' :
  get_world world_id st = (Ok (Some w), st') →
  export_json world_id st = (Raise TypeError, st).
Proof.
  intros Hget. unfold export_json. rewrite bind_run, Hget.
  apply get_world_inv in Hget as (row & objs & _ & _ & -> & ->).
  reflexivity.
Qed.

Lemma summarize_creation_times rows st :
  ∃ summaries,
    summarize rows st = (Ok summaries, st) ∧
    ws_created_at <$> summaries = (λ row, isoformat (wr_created_at row)) <$> rows.
Proof.
  induction rows as [|row rows (rest & Hrest & Htimes)]; [by eexists|].
  cbn [summarize]. rewrite bind_run. unfold count_objects at 1.
  rewrite bind_run. unfold lift at 1. cbn [fromtimestamp_isoformat].
  rewrite bind_run, Hrest.
  eexists. split; [reflexivity|]. cbn. by rewrite Htimes.
Qed.

(** [list_worlds] reads the same column by name and does format it. *)
Lemma list_worlds_creation_times st :
  ∃ summaries,
    list_worlds st = (Ok summaries, st) ∧
    ws_created_at <$> summaries = (λ row, isoformat (wr_created_at row)) <$> worlds st.
Proof. apply summarize_creation_times. Qed.

Lemma load_objects_lookup rows objs k r :
  load_objects rows = Ok objs →
  rows !! k = Some r →
  ∃ obj, objs !! k = Some obj ∧ WorldObject_of_row r = Ok obj.
Proof.
  revert objs k. induction rows as [|r0 rows IH]; intros objs k Hl Hk; [done|].
  cbn in Hl. destruct (WorldObject_of_row r0) as [o|] eqn:Ho; [|done].
  destruct (load_objects rows) as [os|]; [|done]. injection Hl as <-.
  destruct k as [|k]; cbn in Hk.
  - injection Hk as <-. by exists o.
  - by apply (IH os k).
Qed.

Lemma WorldObject_of_row_fields r obj :
  WorldObject_of_row r = Ok obj →
  wo_id obj = or_id r ∧ wo_type obj = or_type r ∧ wo_name obj = or_name r ∧
  wo_x obj = Float (or_x r) ∧ wo_y obj = Float (or_y r) ∧ wo_z obj = Float (or_z r) ∧
  wo_scale obj = value_of_sql (or_scale r) ∧
  wo_rotation obj = value_of_sql (or_rotation r) ∧
  wo_color obj = value_of_sql (or_color r) ∧
  json_loads (or_properties r) = Some (wo_properties obj).
Proof.
  unfold WorldObject_of_row. destruct (json_loads _) as [v|]; [|done].
  by intros [= <-].
Qed.

(** C9.  For a stored world whose N objects load, the stub export returns
    scene 0, one scene named after the world whose node list is 0, 1, ...,
    N - 1, N nodes and N meshes; the k-th node carries the name of the k-th
    object (in the order the objects are read), its position as the
    translation triple and its scale three times, and the k-th mesh is the
    placeholder with one primitive and no attribute. *)
Theorem gltf_stub st world_id row :
  stored_world world_id st = Some row →
  Forall (λ r, is_Some (json_loads (or_properties r))) (objects_of world_id st) →
  let rows := objects_of world_id st in
  ∃ g,
    export_gltf_stub world_id st = (Ok g, st) ∧
    g_scene g = 0 ∧
    g_scenes g = [ {| gs_name := wr_name row;
                      gs_nodes := Z.of_nat <$> seq 0 (length rows) |} ] ∧
    length (g_nodes g) = length rows ∧
    length (g_meshes g) = length rows ∧
    ∀ k r, rows !! k = Some r →
      g_nodes g !! k
        = Some {| gn_name := or_name r;
                  gn_translation := [Float (or_x r); Float (or_y r); Float (or_z r)];
                  gn_scale := [value_of_sql (or_scale r); value_of_sql (or_scale r);
                               value_of_sql (or_scale r)] |} ∧
      g_meshes g !! k = Some placeholder_mesh.
Proof.
  intros Hw [objs Hl]%load_objects_ok rows.
  pose proof (load_objects_length _ _ Hl) as Hlen. fold rows in Hl, Hlen.
  unfold export_gltf_stub. rewrite bind_run, get_world_run, Hw. fold rows. rewrite Hl.
  eexists. split; [reflexivity|]. cbn.
  split; [done|]. split.
  { unfold range. by rewrite Nat2Z.id, Hlen. }
  split; [by rewrite length_fmap|]. split; [by rewrite length_fmap|].
  intros k r Hk.
  destruct (load_objects_lookup _ _ _ _ Hl Hk) as (obj & Hobj & Hrow).
  apply WorldObject_of_row_fields in Hrow
    as (_ & _ & Hname & Hx & Hy & Hz & Hscale & _).
  rewrite !list_lookup_fmap, Hobj. cbn. split; [|done].
  unfold gltf_node_of. by rewrite Hname, Hx, Hy, Hz, Hscale.
Qed.

(** *** Player positions *)

Lemma rewrite_position_key x y z t player_id world_id p :
  position_key (rewrite_position x y z t player_id world_id p) = position_key p.
Proof. unfold rewrite_position. by destruct (_ && _). Qed.


Lemma filter_none {A} (P : A → Prop) `{∀ x, Decision (P x)} (l : list A) :
  Forall (λ x, ¬ P x) l → filter P l = [].
Proof.
  induction 1 as [|x l Hx _ IH]; [done|]. by rewrite filter_cons_False.
Qed.

Lemma no_position player_id world_id ps :
  (player_id, world_id) ∉ position_key <$> ps →
  Forall (λ p, ¬ position_key p = (player_id, world_id)) ps.
Proof.
  intros Hnot. apply Forall_forall. intros p Hp Hkey.
  apply Hnot. rewrite <- Hkey. by apply list_elem_of_fmap_2.
Qed.


Lemma teleport_run world_id player_id x y z fx fy fz st :
  bind_real x = Ok fx → bind_real y = Ok fy → bind_real z = Ok fz →
  let now := clock st (ticks st) in
  let st1 := set_ticks (S (ticks st)) st in
  teleport world_id player_id x y z st =
  (Ok (),
   set_player_positions
     (if bool_decide ((player_id, world_id) ∈ position_key <$> player_positions st)
      then rewrite_position fx fy fz now player_id world_id <$> player_positions st
      else player_positions st ++
             [ {| pr_player_id := player_id; pr_world_id := world_id;
                  pr_x := fx; pr_y := fy; pr_z := fz; pr_teleported_at := now |} ])
     st1).
Proof.
  intros Hx Hy Hz now st1. unfold teleport.
  rewrite bind_run. unfold datetime_now at 1. fold now st1.
  rewrite bind_run. unfold except_IntegrityError, insert_position.
  rewrite bind_run. unfold lift at 1, position_row_of. rewrite Hx, Hy, Hz.
  cbn [mbind result_bind mret result_ret]. unfold store_position.
  cbn [pr_player_id pr_world_id]. fold position_key.
  change (player_positions st1) with (player_positions st).
  case_bool_decide; [|reflexivity].
  unfold update_position. rewrite bind_run. unfold lift at 1. rewrite Hx.
  rewrite bind_run. unfold lift at 1. rewrite Hy.
  rewrite bind_run. unfold lift at 1. rewrite Hz.
  reflexivity.
Qed.



(** *** Object ids *)

Lemma preserves_ret {A} I (a : A) : preserves I (mret a).
Proof. by intros st. Qed.

Lemma preserves_raise {A} I e : preserves I (raise e : M A).
Proof. by intros st. Qed.

Lemma preserves_lift {A} I (r : result A) : preserves I (lift r).
Proof. by intros st. Qed.

Lemma preserves_bind {A B} I (m : M A) (k : A → M B) :
  preserves I m → (∀ a, preserves I (k a)) → preserves I (m ≫= k).
Proof.
  intros Hm Hk st HI. rewrite bind_run. specialize (Hm st HI).
  destruct (m st) as [[a|e] st1]; [by apply Hk|done].
Qed.

Lemma preserves_for_each {A} I (xs : list A) (body : A → M unit) :
  (∀ x, preserves I (body x)) → preserves I (for_each xs body).
Proof.
  intros Hbody. induction xs as [|x xs IH]; [apply preserves_ret|].
  cbn [for_each]. by apply preserves_bind.
Qed.

Lemma preserves_except {A} I (body handler : M A) :
  preserves I body → preserves I handler →
  preserves I (except_IntegrityError body handler).
Proof.
  intros Hb Hh st HI. unfold except_IntegrityError. specialize (Hb st HI).
  destruct (body st) as [[a|[]] st1]; try done. by apply Hh.
Qed.

(** A statement that leaves the objects table alone. *)
Lemma preserves_elsewhere {A} (m : M A) :
  (∀ st, world_objects (m st).2 = world_objects st) → preserves unique_ids m.
Proof. intros Hm st HI. unfold unique_ids. by rewrite Hm. Qed.

Lemma store_object_unique r : preserves unique_ids (store_object r).
Proof.
  intros st HI. unfold store_object. case_bool_decide as Hin; [done|].
  unfold unique_ids; cbn. rewrite fmap_app. apply NoDup_app.
  split; [done|]. split; [|apply NoDup_singleton].
  by intros id Hid ->%list_elem_of_singleton.
Qed.

Create HintDb unique discriminated.

#[local] Hint Resolve preserves_ret preserves_raise preserves_lift
  preserves_for_each preserves_except store_object_unique : unique.
#[local] Hint Extern 2 (preserves _ (_ ≫= _)) =>
  apply preserves_bind; [|intros ?] : unique.
#[local] Hint Extern 1 (preserves _ (match ?x with _ => _ end)) =>
  destruct x : unique.
#[local] Hint Extern 5 (preserves unique_ids _) =>
  apply preserves_elsewhere; intros ?; reflexivity : unique.

Lemma get_world_unique world_id : preserves unique_ids (get_world world_id).
Proof.
  intros st HI. rewrite get_world_run.
  destruct (stored_world _ _); [|done]. by destruct (load_objects _).
Qed.

#[local] Hint Resolve get_world_unique : unique.

Lemma randint_unique a b : preserves unique_ids (randint a b).
Proof.
  apply preserves_elsewhere. intros st. unfold randint.
  by destruct (random_randint _ _ _).
Qed.

Lemma uniform_unique a b : preserves unique_ids (uniform a b).
Proof.
  apply preserves_elsewhere. intros st. unfold uniform.
  by destruct (random_uniform _ _ _).
Qed.

Lemma store_world_unique r : preserves unique_ids (store_world r).
Proof.
  apply preserves_elsewhere. intros st. unfold store_world.
  by case_bool_decide.
Qed.

Lemma store_position_unique r : preserves unique_ids (store_position r).
Proof.
  apply preserves_elsewhere. intros st. unfold store_position.
  by case_bool_decide.
Qed.

#[local] Hint Resolve randint_unique uniform_unique store_world_unique
  store_position_unique : unique.

Lemma add_object_unique world_id type_ name x y z props :
  preserves unique_ids (add_object world_id type_ name x y z props).
Proof. unfold add_object, insert_object, commit. eauto 20 with unique. Qed.

#[local] Hint Resolve add_object_unique : unique.

Lemma create_world_unique name theme seed size :
  preserves unique_ids (create_world name theme seed size).
Proof. unfold create_world, insert_world, commit. eauto 20 with unique. Qed.

Lemma generate_terrain_unique world_id :
  preserves unique_ids (generate_terrain world_id).
Proof. unfold generate_terrain. eauto 20 with unique. Qed.

Lemma populate_world_unique world_id :
  preserves unique_ids (populate_world world_id).
Proof. unfold populate_world, commit. eauto 30 with unique. Qed.

Lemma teleport_unique world_id player_id x y z :
  preserves unique_ids (teleport world_id player_id x y z).
Proof.
  unfold teleport, insert_position, update_position, commit.
  eauto 20 with unique.
Qed.

Lemma perform_unique c st : unique_ids st → unique_ids (perform c st).
Proof.
  destruct c; cbn [perform].
  - apply create_world_unique.
  - apply add_object_unique.
  - apply generate_terrain_unique.
  - apply populate_world_unique.
  - apply teleport_unique.
Qed.

Lemma run_unique calls : ∀ st, unique_ids st → unique_ids (run calls st).
Proof.
  induction calls as [|c calls IH]; intros st HI; [done|].
  cbn. by apply IH, perform_unique.
Qed.

Lemma load_objects_ids rows objs :
  load_objects rows = Ok objs → wo_id <$> objs = or_id <$> rows.
Proof.
  revert objs. induction rows as [|r rows IH]; intros objs Hl; cbn in Hl.
  - by injection Hl as <-.
  - destruct (WorldObject_of_row r) as [o|] eqn:Ho; [|done].
    destruct (load_objects rows) as [os|]; [|done]. injection Hl as <-.
    apply WorldObject_of_row_fields in Ho as (Hid & _).
    cbn. by rewrite Hid, (IH os).
Qed.

(** C8.  Object ids are distinct in the table, and so among the objects
    of every world that is read back, after any sequence of calls of
    [create_world], [add_object], [generate_terrain], [populate_world] and
    [teleport], whether they return or raise, from any state in which the
    ids were distinct (an empty database is one).  No call takes an id. *)
Theorem object_ids_unique calls st :
  unique_ids st →
  unique_ids (run calls st) ∧
  ∀ world_id w st',
    get_world world_id (run calls st) = (Ok (Some w), st') →
    NoDup (wo_id <$> mw_objects w).
Proof.
  intros HI. apply (run_unique calls) in HI. split; [exact HI|].
  intros world_id w st' (row & objs & _ & Hl & -> & _)%get_world_inv.
  cbn. rewrite (load_objects_ids _ _ Hl).
  eapply sublist_NoDup; [exact HI|].
  apply fmap_sublist, sublist_filter.
Qed.

(** *** Creating worlds *)

Lemma create_world_run name theme seed size st :
  create_world name theme seed size st =
  if bool_decide (theme ∉ THEMES) then
    (Raise (ValueError ("Invalid theme. Choose from: " +:+ String.concat ", " THEMES)), st)
  else
    let sg := chosen_seed seed (random st) in
    let now := clock st (ticks st) in
    let st1 := set_ticks (S (ticks st)) (set_random sg.2 st) in
    if int64 sg.1 && int64 size then
      if bool_decide (world_id_at (clock st) (ticks st) ∈ wr_id <$> worlds st)
      then (Raise IntegrityError, st1)
      else (Ok (created_world name theme sg.1 size now),
            set_worlds (worlds st ++ [new_world_row name theme sg.1 size now]) st1)
    else (Raise OverflowError, st1).
Proof.
  unfold create_world. case_bool_decide; [reflexivity|].
  rewrite bind_run. cbv zeta.
  assert (∀ s g,
    (now ← datetime_now;
     insert_world ("world_" +:+ pretty (epoch_ms now)) name theme s size now
       ("A " +:+ theme +:+ " metaverse world");;
     commit;;
     mret {| mw_id := "world_" +:+ pretty (epoch_ms now); mw_name := name;
             mw_theme := theme; mw_seed := s; mw_size := size; mw_objects := [];
             mw_created_at := VFloat now; mw_description := VStr "" |})
      (set_random g st)
    = let now := clock st (ticks st) in
      let st1 := set_ticks (S (ticks st)) (set_random g st) in
      if int64 s && int64 size then
        if bool_decide (world_id_at (clock st) (ticks st) ∈ wr_id <$> worlds st)
        then (Raise IntegrityError, st1)
        else (Ok (created_world name theme s size now),
              set_worlds (worlds st ++ [new_world_row name theme s size now]) st1)
      else (Raise OverflowError, st1)) as Hrest.
  { intros s g. rewrite bind_run. unfold datetime_now at 1.
    cbn [clock ticks set_random]. cbv zeta.
    rewrite bind_run. unfold insert_world.
    rewrite bind_run. unfold lift at 1, bind_int at 1.
    destruct (int64 s); [|reflexivity].
    rewrite bind_run. unfold lift at 1, bind_int at 1.
    destruct (int64 size); [|reflexivity].
    unfold store_world. cbn [wr_id worlds set_ticks set_random andb].
    fold (world_id_at (clock st) (ticks st)).
    case_bool_decide; reflexivity. }
  destruct seed as [s|]; cbn [chosen_seed].
  - rewrite ret_run. rewrite <- (set_random_same st) at 1. apply Hrest.
  - unfold randint at 1. destruct (random_randint 1 1000000 (random st)) as [s g].
    apply Hrest.
Qed.

Lemma stored_world_id world_id st row :
  stored_world world_id st = Some row → wr_id row = world_id.
Proof.
  unfold stored_world. intros [_ Heq]%find_some.
  by apply String.eqb_eq in Heq.
Qed.

Lemma stored_world_elem world_id st row :
  stored_world world_id st = Some row → world_id ∈ wr_id <$> worlds st.
Proof.
  intros Hw. rewrite <- (stored_world_id _ _ _ Hw).
  unfold stored_world in Hw. apply find_some in Hw as [Hin _].
  apply list_elem_of_fmap_2. by apply list_elem_of_In.
Qed.

Lemma stored_world_None world_id st :
  world_id ∉ wr_id <$> worlds st → stored_world world_id st = None.
Proof.
  intros Hnot. destruct (stored_world world_id st) as [row|] eqn:Hw; [|done].
  by apply stored_world_elem in Hw.
Qed.

Lemma stored_world_new world_id st row :
  world_id ∉ wr_id <$> worlds st → wr_id row = world_id →
  find (λ r, String.eqb (wr_id r) world_id) (worlds st ++ [row]) = Some row.
Proof.
  intros Hnot Hid. apply stored_world_None in Hnot. unfold stored_world in Hnot.
  induction (worlds st) as [|r rs IH]; cbn in *.
  - by rewrite Hid, String.eqb_refl.
  - destruct (String.eqb (wr_id r) world_id); [done|by apply IH].
Qed.

Lemma no_objects_yet world_id st :
  referential st → world_id ∉ wr_id <$> worlds st → objects_of world_id st = [].
Proof.
  intros Href Hnot. unfold objects_of. apply filter_none.
  eapply Forall_impl; [exact Href|]. cbn. by intros r Hr <-.
Qed.

(** X1.  In a database whose object rows all name stored worlds,
    [create_world] with a valid theme, a seed and a size that fit 64 bits
    and a clock reading whose id is not taken returns the world with the
    given name, theme, seed and size, no object and the clock reading as
    creation time, and appends one row with the description
    "A <theme> metaverse world"; [get_world] on the returned id then finds
    that world, with the same id, name, theme, seed and size and no
    object. *)
Theorem create_world_round_trip name theme seed size st :
  theme ∈ THEMES →
  int64 seed = true → int64 size = true →
  referential st →
  world_id_at (clock st) (ticks st) ∉ wr_id <$> worlds st →
  let now := clock st (ticks st) in
  ∃ w st' w',
    create_world name theme (Some seed) size st = (Ok w, st') ∧
    mw_id w = world_id_at (clock st) (ticks st) ∧
    mw_name w = name ∧ mw_theme w = theme ∧ mw_seed w = seed ∧ mw_size w = size ∧
    mw_objects w = [] ∧ mw_created_at w = VFloat now ∧
    worlds st'
      = worlds st ++
        [ {| wr_id := mw_id w; wr_name := name; wr_theme := theme; wr_seed := seed;
             wr_size := size; wr_created_at := now;
             wr_description := "A " +:+ theme +:+ " metaverse world" |} ] ∧
    get_world (mw_id w) st' = (Ok (Some w'), st') ∧
    mw_id w' = mw_id w ∧ mw_name w' = name ∧ mw_theme w' = theme ∧
    mw_seed w' = seed ∧ mw_size w' = size ∧ mw_objects w' = [].
Proof.
  intros Hth Hseed Hsize Href Hnew now.
  eexists _, _, _. split.
  { rewrite create_world_run, bool_decide_false by (by intros ?).
    cbn [chosen_seed fst snd]. cbv zeta. rewrite Hseed, Hsize. cbn [andb].
    by rewrite bool_decide_false. }
  repeat (split; [reflexivity|]).
  rewrite get_world_run. unfold stored_world. cbn [worlds set_worlds mw_id created_world].
  rewrite (stored_world_new (world_id_at (clock st) (ticks st))) by done.
  replace (objects_of _ _) with (@nil object_row).
  { cbn [load_objects]. by repeat split. }
  symmetry. by apply (no_objects_yet _ st).
Qed.

(** X2.  [create_world] called without a seed draws it with
    [random.randint(1, 1000000)] from the shared generator: for a valid
    theme, a size that fits 64 bits and a clock reading whose id is not
    taken, the call returns a world whose seed lies between 1 and 1000000
    ([randint] being assumed to stay within its bounds), stores that seed,
    and leaves the generator one draw further. *)
Theorem create_world_draws_seed name theme size st :
  theme ∈ THEMES →
  randint_in_range →
  int64 size = true →
  world_id_at (clock st) (ticks st) ∉ wr_id <$> worlds st →
  ∃ w st' row,
    create_world name theme None size st = (Ok w, st') ∧
    1 ≤ mw_seed w ≤ 1000000 ∧
    (mw_seed w, random st') = random_randint 1 1000000 (random st) ∧
    worlds st' = worlds st ++ [row] ∧
    wr_id row = mw_id w ∧ wr_seed row = mw_seed w.
Proof.
  intros Hth Hrand Hsize Hnew.
  pose proof (Hrand 1 1000000 (random st)) as Hs.
  rewrite create_world_run, bool_decide_false by (by intros ?).
  cbn [chosen_seed]. cbv zeta.
  destruct (random_randint 1 1000000 (random st)) as [s g]. cbn [fst snd] in *.
  rewrite int64_bounds, Hsize by lia. cbn [andb].
  rewrite bool_decide_false by done.
  eexists _, _, _. split; [reflexivity|]. cbn. split; [lia|]. by repeat split.
Qed.


(** *** Integers that SQLite cannot hold *)

Lemma bind_real_too_big x : too_big x → bind_real x = Raise OverflowError.
Proof. intros (n & -> & Hn). cbn. by rewrite Hn. Qed.

Lemma bind_real_raise x e : bind_real x = Raise e → e = OverflowError.
Proof. destruct x as [n|f]; cbn; [|done]. destruct (int64 n); [done|]. by intros [= <-]. Qed.

Lemma coordinates_too_big {A} x y z (k : float → float → float → result A) :
  too_big x ∨ too_big y ∨ too_big z →
  (x ← bind_real x; y ← bind_real y; z ← bind_real z; k x y z) = Raise OverflowError.
Proof.
  intros Hbig.
  destruct (bind_real x) as [fx|e] eqn:Hx; cbn.
  2: { by apply bind_real_raise in Hx as ->. }
  destruct (bind_real y) as [fy|e] eqn:Hy; cbn.
  2: { by apply bind_real_raise in Hy as ->. }
  destruct (bind_real z) as [fz|e] eqn:Hz; cbn.
  2: { by apply bind_real_raise in Hz as ->. }
  destruct Hbig as [Hb|[Hb|Hb]]; apply bind_real_too_big in Hb; congruence.
Qed.

(** X4.  An int that does not fit SQLite's signed 64-bit INTEGER is refused
    when it is bound, before any row is written: [create_world] with such a
    seed or size, and [add_object] (on a stored world whose objects load,
    with a valid type) and [teleport] with such a coordinate, raise
    OverflowError and leave their table as it was. *)
Theorem integers_beyond_64_bits :
  (∀ name theme seed size st,
     theme ∈ THEMES →
     int64 seed = false ∨ int64 size = false →
     ∃ st',
       create_world name theme (Some seed) size st = (Raise OverflowError, st') ∧
       worlds st' = worlds st) ∧
  (∀ world_id type_ name x y z props st row,
     type_ ∈ OBJECT_TYPES →
     stored_world world_id st = Some row →
     Forall (λ r, is_Some (json_loads (or_properties r))) (objects_of world_id st) →
     too_big x ∨ too_big y ∨ too_big z →
     ∃ st',
       add_object world_id type_ name x y z props st = (Raise OverflowError, st') ∧
       world_objects st' = world_objects st) ∧
  (∀ world_id player_id x y z st,
     too_big x ∨ too_big y ∨ too_big z →
     ∃ st',
       teleport world_id player_id x y z st = (Raise OverflowError, st') ∧
       player_positions st' = player_positions st).
Proof.
  split; [|split].
  - intros name theme seed size st Hth Hbig.
    rewrite create_world_run, bool_decide_false by (by intros ?).
    cbn [chosen_seed fst snd]. cbv zeta.
    replace (int64 seed && int64 size) with false.
    + by eexists.
    + destruct Hbig as [-> | ->]; [done|]. by rewrite andb_false_r.
  - intros world_id type_ name x y z props st row Hty Hw [objs Hl]%load_objects_ok Hbig.
    rewrite add_object_run, bool_decide_false by (by intros ?).
    rewrite Hw, Hl. cbv zeta.
    unfold new_object_row, object_row_of. rewrite coordinates_too_big by done.
    by eexists.
  - intros world_id player_id x y z st Hbig.
    unfold teleport. rewrite bind_run. unfold datetime_now at 1.
    rewrite bind_run. unfold except_IntegrityError, insert_position.
    rewrite bind_run. unfold lift at 1, position_row_of.
    rewrite coordinates_too_big by done.
    by eexists.
Qed.

(** *** A world that is not stored *)

(** X5.  For an id that no stored world has, [get_world] returns None;
    [add_object] (with a valid type), [generate_terrain], [populate_world],
    [export_json] and [export_gltf_stub] raise ValueError
    "World <id> not found"; and none of them changes anything: no row is
    written, the generator is not reseeded and the clock is not read.
    [teleport] alone does not look the world up: with coordinates that can
    be bound it returns and records a position for that id. *)
Theorem missing_world world_id st :
  stored_world world_id st = None →
  let not_found := ValueError ("World " +:+ world_id +:+ " not found") in
  get_world world_id st = (Ok None, st) ∧
  (∀ type_ name x y z props,
     type_ ∈ OBJECT_TYPES →
     add_object world_id type_ name x y z props st = (Raise not_found, st)) ∧
  generate_terrain world_id st = (Raise not_found, st) ∧
  populate_world world_id st = (Raise not_found, st) ∧
  export_json world_id st = (Raise not_found, st) ∧
  export_gltf_stub world_id st = (Raise not_found, st) ∧
  (∀ player_id x y z fx fy fz,
     bind_real x = Ok fx → bind_real y = Ok fy → bind_real z = Ok fz →
     ∃ st',
       teleport world_id player_id x y z st = (Ok (), st') ∧
       (player_id, world_id) ∈ position_key <$> player_positions st' ∧
       worlds st' = worlds st).
Proof.
  intros Hw not_found.
  assert (get_world world_id st = (Ok None, st)) as Hget.
  { by rewrite get_world_run, Hw. }
  split; [exact Hget|]. split.
  { intros type_ name x y z props Hty.
    rewrite add_object_run, bool_decide_false by (by intros ?). by rewrite Hw. }
  split; [unfold generate_terrain; by rewrite bind_run, Hget|].
  split; [unfold populate_world; by rewrite bind_run, Hget|].
  split; [unfold export_json; by rewrite bind_run, Hget|].
  split; [unfold export_gltf_stub; by rewrite bind_run, Hget|].
  intros player_id x y z fx fy fz Hx Hy Hz.
  eexists. split; [by apply teleport_run|].
  cbn [player_positions set_player_positions worlds set_ticks].
  split; [|reflexivity].
  case_bool_decide as Hin.
  - rewrite <- list_fmap_compose.
    erewrite list_fmap_ext; [exact Hin|].
    intros _ p _. apply rewrite_position_key.
  - rewrite fmap_app. apply elem_of_app. right. by apply list_elem_of_singleton.
Qed.

(** *** Queries *)

Lemma get_world_state world_id st : (get_world world_id st).2 = st.
Proof.
  rewrite get_world_run. destruct (stored_world _ _); [|done].
  by destruct (load_objects _).
Qed.

Lemma get_world_cases world_id st :
  (∃ e, get_world world_id st = (Raise e, st)) ∨
  (∃ w, get_world world_id st = (Ok w, st)).
Proof.
  pose proof (get_world_state world_id st) as Hst.
  destruct (get_world world_id st) as [[w|e] st']; cbn in Hst; subst st'; eauto.
Qed.

Lemma load_objects_read_back rows objs :
  load_objects rows = Ok objs → Forall2 read_back rows objs.
Proof.
  revert objs. induction rows as [|r rows IH]; intros objs Hl; cbn in Hl.
  - injection Hl as <-. constructor.
  - destruct (WorldObject_of_row r) as [o|] eqn:Ho; [|done].
    destruct (load_objects rows) as [os|]; [|done]. injection Hl as <-.
    constructor; [|by apply IH].
    apply WorldObject_of_row_fields in Ho
      as (Hid & Hty & Hname & Hx & Hy & Hz & Hs & Hr & Hc & _).
    by repeat split.
Qed.

(** X6.  A world that [get_world] returns carries the id asked for and
    the name, theme, seed and size of the one stored row with that id; its
    objects are the object rows that name the world, one by one in the
    order of insertion, each with its id, type, name, position, scale,
    rotation and color as stored.  Its creation time is not the stored one:
    the row is passed to
    the constructor by position, so [created_at] holds the description
    text and [description] is empty. *)
Theorem get_world_reads_back world_id st w st' :
  get_world world_id st = (Ok (Some w), st') →
  ∃ row,
    stored_world world_id st = Some row ∧
    mw_id w = world_id ∧ mw_name w = wr_name row ∧ mw_theme w = wr_theme row ∧
    mw_seed w = wr_seed row ∧ mw_size w = wr_size row ∧
    Forall2 read_back (objects_of world_id st) (mw_objects w) ∧
    mw_created_at w = VStr (wr_description row) ∧ mw_description w = VStr "".
Proof.
  intros Hget. apply get_world_inv in Hget as (row & objs & Hw & Hl & -> & _).
  exists row. split; [exact Hw|]. split; [by eapply stored_world_id|].
  repeat (split; [reflexivity|]).
  split; [by apply load_objects_read_back|done].
Qed.

(** X7.  [get_world], [export_json], [export_gltf_stub] and [list_worlds]
    only read: whether they return or raise, the tables, the generator and
    the clock are afterwards what they were. *)
Theorem queries_read_only st :
  (∀ world_id, (get_world world_id st).2 = st) ∧
  (∀ world_id, (export_json world_id st).2 = st) ∧
  (∀ world_id, (export_gltf_stub world_id st).2 = st) ∧
  (list_worlds st).2 = st.
Proof.
  split; [intros; apply get_world_state|]. split; [|split].
  - intros world_id. unfold export_json. rewrite bind_run.
    destruct (get_world_cases world_id st) as [[e ->]|[[w|] ->]]; [done| |done].
    rewrite bind_run. unfold lift at 1.
    by destruct (fromtimestamp_isoformat _).
  - intros world_id. unfold export_gltf_stub. rewrite bind_run.
    by destruct (get_world_cases world_id st) as [[e ->]|[[w|] ->]].
  - unfold list_worlds.
    by destruct (summarize_creation_times (worlds st) st) as (summaries & -> & _).
Qed.

(** X8.  [export_json] never returns a scene.  For an id that is not
    stored it raises the not-found ValueError, and for a world that
    [get_world] returns it raises TypeError at the creation time, which
    [get_world] has filled with the description text; in every state, for
    every id, the call raises and changes nothing. *)
Theorem export_json_never_returns world_id st :
  ∃ e,
    export_json world_id st = (Raise e, st) ∧
    (stored_world world_id st = None → NotFound e) ∧
    (∀ w, (get_world world_id st).1 = Ok (Some w) →
          e = TypeError ∧ ∃ text, mw_created_at w = VStr text).
Proof.
  unfold export_json. rewrite bind_run, get_world_run.
  destruct (stored_world world_id st) as [row|].
  - destruct (load_objects _) as [objs|e]; cbn.
    + exists TypeError. split; [done|]. split; [done|].
      intros w [= <-]. split; [done|]. by eexists.
    + exists e. by repeat split.
  - eexists. split; [done|]. split; [by eexists|]. by intros w [=].
Qed.

(** *** Adding an object and reading it back *)

Lemma add_object_inv world_id type_ name x y z props st obj st' :
  add_object world_id type_ name x y z props st = (Ok obj, st') →
  ∃ row objs r loaded,
    type_ ∈ OBJECT_TYPES ∧
    stored_world world_id st = Some row ∧
    load_objects (objects_of world_id st) = Ok objs ∧
    new_object_row world_id (wr_theme row) type_ name x y z props
      (clock st (ticks st)) = Ok r ∧
    (or_id r ∉ or_id <$> world_objects st) ∧
    json_loads (or_properties r) = Some loaded ∧
    obj = returned_object (wr_theme row) type_ name x y z props
            (clock st (ticks st)) loaded ∧
    st' = set_world_objects (world_objects st ++ [r]) (set_ticks (S (ticks st)) st).
Proof.
  rewrite add_object_run. case_bool_decide as Hty; [done|].
  destruct (stored_world world_id st) as [row|]; [|done].
  destruct (load_objects _) as [objs|]; [|done]. cbv zeta.
  destruct (new_object_row _ _ _ _ _ _ _ _ _) as [r|] eqn:Hr; [|done].
  case_bool_decide as Hid; [done|].
  destruct (json_loads _) as [loaded|] eqn:Hload; [|done].
  intros [= <- <-]. exists row, objs, r, loaded.
  split; [|done]. by destruct (decide (type_ ∈ OBJECT_TYPES)).
Qed.

Lemma objects_of_added world_id st r t :
  or_world_id r = world_id →
  objects_of world_id (set_world_objects (world_objects st ++ [r]) (set_ticks t st))
  = objects_of world_id st ++ [r].
Proof.
  intros Hwid. unfold objects_of; cbn.
  by rewrite filter_app, filter_cons_True.
Qed.

Lemma objects_of_added_other world_id other st r t :
  or_world_id r = world_id → other ≠ world_id →
  objects_of other (set_world_objects (world_objects st ++ [r]) (set_ticks t st))
  = objects_of other st.
Proof.
  intros Hwid Hne. unfold objects_of; cbn.
  rewrite filter_app, filter_cons_False by congruence.
  by rewrite app_nil_r.
Qed.

(** X9.  An object that [add_object] returned is the last object of its
    world when the world is read back: [get_world] gives the objects the
    world had, followed by one with the same id, type, name and
    properties.  Position, scale and rotation come back as the REAL columns
    hold them and the color as its TEXT column holds it, so that an int
    coordinate or an int scale is read back as a float, and a string color
    as itself. *)
Theorem add_object_then_get world_id type_ name x y z props st obj st' :
  add_object world_id type_ name x y z props st = (Ok obj, st') →
  ∃ w w' o fx fy fz cs cr cc,
    get_world world_id st = (Ok (Some w), st) ∧
    get_world world_id st' = (Ok (Some w'), st') ∧
    mw_objects w' = mw_objects w ++ [o] ∧
    wo_id o = wo_id obj ∧ wo_type o = wo_type obj ∧ wo_name o = wo_name obj ∧
    wo_properties o = wo_properties obj ∧
    bind_real (wo_x obj) = Ok fx ∧ wo_x o = Float fx ∧
    bind_real (wo_y obj) = Ok fy ∧ wo_y o = Float fy ∧
    bind_real (wo_z obj) = Ok fz ∧ wo_z o = Float fz ∧
    bind_value (wo_scale obj) = Ok cs ∧ wo_scale o = value_of_sql (real_affinity cs) ∧
    bind_value (wo_rotation obj) = Ok cr ∧
    wo_rotation o = value_of_sql (real_affinity cr) ∧
    bind_value (wo_color obj) = Ok cc ∧ wo_color o = value_of_sql (text_affinity cc) ∧
    (∀ n, wo_x obj = Int n → wo_x o = Float (float_of_int n)) ∧
    (∀ n, wo_scale obj = VInt n → wo_scale o = VFloat (float_of_int n)) ∧
    (∀ s, wo_color obj = VStr s → wo_color o = VStr s).
Proof.
  intros Hadd.
  apply add_object_inv in Hadd
    as (row & objs & r & loaded & Hty & Hw & Hl & Hr & Hid & Hload & -> & ->).
  pose proof Hr as (fx&fy&fz&cs&cr&cc&Hx&Hy&Hz&Hs&Hro&Hc&Hrow)%object_row_of_inv.
  assert (or_world_id r = world_id) as Hwid by (by rewrite Hrow).
  assert (∃ o, WorldObject_of_row r = Ok o) as [o Ho].
  { unfold WorldObject_of_row. rewrite Hload. by eexists. }
  pose proof Ho as Hfields. unfold WorldObject_of_row in Hfields.
  rewrite Hload in Hfields. injection Hfields as Hfields.
  exists (MetaverseWorld_of_row row objs), (MetaverseWorld_of_row row (objs ++ [o])),
    o, fx, fy, fz, cs, cr, cc.
  split; [by rewrite get_world_run, Hw, Hl|]. split.
  { rewrite get_world_run.
    change (stored_world world_id (set_world_objects _ _))
      with (stored_world world_id st).
    rewrite Hw, objects_of_added, load_objects_app, Hl by done.
    cbn [load_objects]. by rewrite Ho. }
  split; [reflexivity|].
  rewrite <- Hfields, Hrow.
  cbn [wo_id wo_type wo_name wo_x wo_y wo_z wo_scale wo_rotation wo_color
       wo_properties returned_object or_id or_type or_name or_x or_y or_z
       or_scale or_rotation or_color or_properties].
  repeat (split; [done|]). split; [|split].
  - intros n Hn. rewrite Hn in Hx. by apply bind_real_Int in Hx as ->.
  - intros n Hn. rewrite Hn in Hs. cbn in Hs. destruct (int64 n); [|done].
    by injection Hs as <-.
  - intros s Hn. rewrite Hn in Hc. by injection Hc as <-.
Qed.

(** X10.  Object ids are [obj_<milliseconds>] under a primary key.  When a
    call of [add_object] has returned and the next reading of the clock
    falls in the same millisecond, a second call for the same world, with
    a valid type, float coordinates and no keyword, raises IntegrityError
    and leaves the objects table as the first call left it. *)
Theorem add_object_same_millisecond world_id type1 name1 x1 y1 z1 props1
    type2 name2 x2 y2 z2 st obj st1 :
  add_object world_id type1 name1 x1 y1 z1 props1 st = (Ok obj, st1) →
  type2 ∈ OBJECT_TYPES →
  epoch_ms (clock st (S (ticks st))) = epoch_ms (clock st (ticks st)) →
  ∃ st2,
    add_object world_id type2 name2 (Float x2) (Float y2) (Float z2) [] st1
      = (Raise IntegrityError, st2) ∧
    world_objects st2 = world_objects st1 ∧
    wo_id obj ∈ or_id <$> world_objects st1.
Proof.
  intros Hadd Hty2 Hms.
  apply add_object_inv in Hadd
    as (row & objs & r & loaded & Hty & Hw & Hl & Hr & Hid & Hload & -> & ->).
  pose proof (new_object_row_fields _ _ _ _ _ _ _ _ _ _ Hr) as (Hrid & Hwid & _).
  assert (or_id r ∈ or_id <$> world_objects st ++ [r]) as Hin.
  { rewrite fmap_app. apply elem_of_app. right. by apply list_elem_of_singleton. }
  eexists. split; [|split].
  - rewrite add_object_run, bool_decide_false by (by intros ?).
    change (stored_world world_id (set_world_objects _ _))
      with (stored_world world_id st).
    rewrite Hw, objects_of_added, load_objects_app, Hl by done.
    cbn [load_objects]. unfold WorldObject_of_row at 1. rewrite Hload.
    cbv zeta. cbn [clock ticks set_world_objects set_ticks world_objects].
    unfold new_object_row, object_row_of. cbn [dict_get bind_real bind_value].
    cbn [mbind result_bind mret result_ret or_id].
    rewrite bool_decide_true; [reflexivity|].
    rewrite Hms, <- Hrid. exact Hin.
  - reflexivity.
  - cbn [wo_id returned_object world_objects set_world_objects].
    rewrite <- Hrid. exact Hin.
Qed.

(** *** What the calls can do to the tables *)

Lemma preserves_tables {A} I (m : M A) :
  table_property I → (∀ st, tables (m st).2 = tables st) → preserves I m.
Proof. intros HI Hm st Hst. eapply HI; [symmetry; apply Hm|done]. Qed.

Lemma get_world_preserves I world_id : preserves I (get_world world_id).
Proof. intros st HI. by rewrite get_world_state. Qed.

Lemma datetime_now_preserves I : table_property I → preserves I datetime_now.
Proof. intros HI. by apply preserves_tables. Qed.

Lemma seed_random_preserves I a : table_property I → preserves I (seed_random a).
Proof. intros HI. by apply preserves_tables. Qed.

Lemma randint_preserves I a b : table_property I → preserves I (randint a b).
Proof.
  intros HI. apply preserves_tables; [done|]. intros st. unfold randint.
  by destruct (random_randint _ _ _).
Qed.

Lemma uniform_preserves I a b : table_property I → preserves I (uniform a b).
Proof.
  intros HI. apply preserves_tables; [done|]. intros st. unfold uniform.
  by destruct (random_uniform _ _ _).
Qed.

(** One step of a proof that a method body keeps an invariant. *)
Ltac frame_step :=
  first
    [ assumption
    | apply preserves_ret
    | apply preserves_raise
    | apply preserves_lift
    | apply get_world_preserves
    | apply datetime_now_preserves; assumption
    | apply seed_random_preserves; assumption
    | apply randint_preserves; assumption
    | apply uniform_preserves; assumption
    | apply preserves_for_each; intros ?
    | apply preserves_except
    | match goal with
      | H : ∀ type_ name x y z props, preserves _ (add_object _ type_ name x y z props)
        |- preserves _ (add_object _ _ _ _ _ _ _) => apply H
      | |- preserves _ (match ?x with _ => _ end) => destruct x
      | |- preserves _ (_ ≫= _) => apply preserves_bind; [|intros ?]
      end ].

Lemma generate_terrain_preserves I world_id :
  table_property I →
  (∀ type_ name x y z props,
     preserves I (add_object world_id type_ name x y z props)) →
  preserves I (generate_terrain world_id).
Proof. intros HI Hadd. unfold generate_terrain. repeat frame_step. Qed.

Lemma populate_world_preserves I world_id :
  table_property I →
  (∀ type_ name x y z props,
     preserves I (add_object world_id type_ name x y z props)) →
  preserves I (populate_world world_id).
Proof. intros HI Hadd. unfold populate_world, commit. repeat frame_step. Qed.

(** [add_object] changes the tables in one way: it appends to the objects
    table a row of the given world and type whose id is not stored and whose
    properties are the dump of the free keywords, and only when that world
    is stored and the type is valid. *)
Lemma add_object_preserves I world_id type_ name x y z props :
  table_property I →
  (∀ st r,
     I st →
     world_id ∈ wr_id <$> worlds st → or_world_id r = world_id →
     type_ ∈ OBJECT_TYPES → or_type r = type_ →
     or_properties r = json_dumps (VDict (free_properties props)) →
     or_id r ∉ or_id <$> world_objects st →
     I (set_world_objects (world_objects st ++ [r]) st)) →
  preserves I (add_object world_id type_ name x y z props).
Proof.
  intros HI Hins st Hst. rewrite add_object_run.
  case_bool_decide as Hty; [done|].
  destruct (stored_world world_id st) as [row|] eqn:Hw; [|done].
  destruct (load_objects _) as [objs|]; [|done]. cbv zeta.
  assert (I (set_ticks (S (ticks st)) st)) as Hst1 by (by apply (HI st)).
  destruct (new_object_row _ _ _ _ _ _ _ _ _) as [r|] eqn:Hr; [|done].
  apply new_object_row_fields in Hr as (_ & Hwid & Htype & _ & Hprops).
  case_bool_decide as Hid; [done|].
  assert (I (set_world_objects (world_objects st ++ [r]) (set_ticks (S (ticks st)) st))).
  { eapply (HI (set_world_objects (world_objects st ++ [r]) st)); [done|].
    apply Hins;
      first [ done
            | by eapply stored_world_elem
            | by destruct (decide (type_ ∈ OBJECT_TYPES)) ]. }
  by destruct (json_loads _).
Qed.

(** [create_world] changes them in one way: it appends to the worlds table
    a row with a valid theme whose id is not stored. *)
Lemma create_world_preserves I name theme seed size :
  table_property I →
  (∀ st r,
     I st → wr_theme r ∈ THEMES → wr_id r ∉ wr_id <$> worlds st →
     I (set_worlds (worlds st ++ [r]) st)) →
  preserves I (create_world name theme seed size).
Proof.
  intros HI Hins st Hst. rewrite create_world_run.
  case_bool_decide as Hth; [done|]. cbv zeta.
  set (st1 := set_ticks _ _).
  assert (I st1) as Hst1 by (by apply (HI st)).
  destruct (_ && _); [|done]. case_bool_decide as Hid; [done|]. cbn [snd].
  eapply (HI (set_worlds (worlds st ++ [new_world_row name theme
            (chosen_seed seed (random st)).1 size (clock st (ticks st))]) st));
    [done|].
  apply Hins; [done| |done]. by destruct (decide (theme ∈ THEMES)).
Qed.

Lemma position_row_of_inv player_id world_id x y z now r :
  position_row_of player_id world_id x y z now = Ok r →
  ∃ fx fy fz,
    bind_real x = Ok fx ∧ bind_real y = Ok fy ∧ bind_real z = Ok fz ∧
    r = {| pr_player_id := player_id; pr_world_id := world_id;
           pr_x := fx; pr_y := fy; pr_z := fz; pr_teleported_at := now |}.
Proof.
  unfold position_row_of. intros Hrow.
  destruct (bind_real x) as [fx|]; cbn in Hrow; [|discriminate].
  destruct (bind_real y) as [fy|]; cbn in Hrow; [|discriminate].
  destruct (bind_real z) as [fz|]; cbn in Hrow; [|discriminate].
  injection Hrow as <-. by exists fx, fy, fz.
Qed.

Lemma position_row_of_raise player_id world_id x y z now e :
  position_row_of player_id world_id x y z now = Raise e → e = OverflowError.
Proof.
  unfold position_row_of. intros Hrow.
  destruct (bind_real x) as [fx|] eqn:Hx; cbn in Hrow;
    [|injection Hrow as <-; by apply bind_real_raise in Hx].
  destruct (bind_real y) as [fy|] eqn:Hy; cbn in Hrow;
    [|injection Hrow as <-; by apply bind_real_raise in Hy].
  destruct (bind_real z) as [fz|] eqn:Hz; cbn in Hrow;
    [|injection Hrow as <-; by apply bind_real_raise in Hz].
  done.
Qed.

(** Every outcome of [teleport]. *)
Lemma teleport_outcome world_id player_id x y z st :
  let now := clock st (ticks st) in
  let st1 := set_ticks (S (ticks st)) st in
  teleport world_id player_id x y z st =
  match position_row_of player_id world_id x y z now with
  | Ok r =>
      (Ok (),
       set_player_positions
         (if bool_decide ((player_id, world_id) ∈ position_key <$> player_positions st)
          then rewrite_position (pr_x r) (pr_y r) (pr_z r) now player_id world_id
                 <$> player_positions st
          else player_positions st ++ [r])
         st1)
  | Raise _ => (Raise OverflowError, st1)
  end.
Proof.
  intros now st1.
  destruct (position_row_of player_id world_id x y z now) as [r|e] eqn:Hrow.
  - apply position_row_of_inv in Hrow as (fx & fy & fz & Hx & Hy & Hz & ->).
    by apply teleport_run.
  - pose proof (position_row_of_raise _ _ _ _ _ _ _ Hrow) as ->.
    unfold teleport. rewrite bind_run. unfold datetime_now at 1. fold now st1.
    rewrite bind_run. unfold except_IntegrityError, insert_position.
    rewrite bind_run. unfold lift at 1. by rewrite Hrow.
Qed.

(** [teleport] changes them in two ways: it appends to the positions table
    a row whose pair is not stored, or rewrites the coordinates and the time
    of the rows of one pair. *)
Lemma teleport_preserves I world_id player_id x y z :
  table_property I →
  (∀ st r,
     I st → position_key r = (player_id, world_id) →
     position_key r ∉ position_key <$> player_positions st →
     I (set_player_positions (player_positions st ++ [r]) st)) →
  (∀ st fx fy fz t,
     I st →
     I (set_player_positions
          (rewrite_position fx fy fz t player_id world_id <$> player_positions st) st)) →
  preserves I (teleport world_id player_id x y z).
Proof.
  intros HI Hins Hupd st Hst. rewrite teleport_outcome.
  destruct (position_row_of _ _ _ _ _ _) as [r|] eqn:Hrow; cbn [snd].
  2: { by apply (HI st). }
  apply position_row_of_inv in Hrow as (fx & fy & fz & _ & _ & _ & ->).
  cbn [pr_x pr_y pr_z].
  case_bool_decide as Hin.
  - eapply (HI (set_player_positions _ st)); [done|]. by apply Hupd.
  - eapply (HI (set_player_positions _ st)); [done|]. by apply Hins.
Qed.

(** So an invariant of the tables that these four changes keep holds after
    every sequence of calls. *)
Lemma run_preserves I :
  table_property I →
  (∀ st r,
     I st → wr_theme r ∈ THEMES → wr_id r ∉ wr_id <$> worlds st →
     I (set_worlds (worlds st ++ [r]) st)) →
  (∀ st r,
     I st → or_world_id r ∈ wr_id <$> worlds st → or_type r ∈ OBJECT_TYPES →
     (∃ props, or_properties r = json_dumps (VDict (free_properties props))) →
     or_id r ∉ or_id <$> world_objects st →
     I (set_world_objects (world_objects st ++ [r]) st)) →
  (∀ st r,
     I st → position_key r ∉ position_key <$> player_positions st →
     I (set_player_positions (player_positions st ++ [r]) st)) →
  (∀ st fx fy fz t player_id world_id,
     I st →
     I (set_player_positions
          (rewrite_position fx fy fz t player_id world_id <$> player_positions st) st)) →
  ∀ calls st, I st → I (run calls st).
Proof.
  intros HI Hworld Hobject Hposition Hrewrite.
  assert (∀ world_id type_ name x y z props,
            preserves I (add_object world_id type_ name x y z props)) as Hadd.
  { intros. apply add_object_preserves; [done|].
    intros st r Hst Hw Hwid Hty Htype Hprops Hid.
    apply Hobject; [done|congruence|congruence|by eexists|done]. }
  assert (∀ c st, I st → I (perform c st)) as Hperform.
  { intros [] st Hst; cbn [perform].
    - by apply create_world_preserves.
    - by apply Hadd.
    - by apply generate_terrain_preserves.
    - by apply populate_world_preserves.
    - apply teleport_preserves; [done| |by intros; apply Hrewrite|done].
      intros st0 r Hst0 _ Hkey. by apply Hposition. }
  induction calls as [|c calls IH]; intros st Hst; [done|].
  cbn. by apply IH, Hperform.
Qed.

(** *** Invariants of the tables *)

Lemma table_property_tables {X} (f : _ → X) (P : X → Prop) :
  table_property (λ st, P (f (tables st))).
Proof. intros st st' Heq. by rewrite Heq. Qed.

Lemma rewritten_keys fx fy fz t player_id world_id (ps : list position_row) :
  position_key <$> (rewrite_position fx fy fz t player_id world_id <$> ps)
  = position_key <$> ps.
Proof.
  rewrite <- list_fmap_compose. apply list_fmap_ext.
  intros _ p _. apply rewrite_position_key.
Qed.

Lemma NoDup_snoc {A} (l : list A) x : NoDup l → x ∉ l → NoDup (l ++ [x]).
Proof.
  intros Hnd Hx. apply NoDup_app. split; [done|]. split; [|apply NoDup_singleton].
  by intros y Hy ->%list_elem_of_singleton.
Qed.

Lemma only_row world_id rows row :
  NoDup (wr_id <$> rows) →
  find (λ r, String.eqb (wr_id r) world_id) rows = Some row →
  filter (λ r, wr_id r = world_id) rows = [row].
Proof.
  induction rows as [|r rows IH]; [done|]. cbn [find fmap list_fmap].
  intros [Hr Hnd]%NoDup_cons.
  destruct (String.eqb_spec (wr_id r) world_id) as [Heq|Hne].
  - intros [= <-]. rewrite filter_cons_True by done. f_equal.
    apply filter_none, Forall_forall. intros r' Hr' Heq'.
    apply Hr. rewrite Heq, <- Heq'. by apply list_elem_of_fmap_2.
  - intros Hfind. rewrite filter_cons_False by done. by apply IH.
Qed.

(** X11.  World ids stay distinct: from a worlds table without a repeated
    id, after any sequence of calls of [create_world], [add_object],
    [generate_terrain], [populate_world] and [teleport], returning or
    raising, no id is stored twice, so the row that [get_world] fetches for
    an id is the only row with that id. *)
Theorem world_ids_unique calls st :
  unique_world_ids st →
  unique_world_ids (run calls st) ∧
  ∀ world_id row,
    stored_world world_id (run calls st) = Some row →
    filter (λ r, wr_id r = world_id) (worlds (run calls st)) = [row].
Proof.
  intros Hst.
  assert (unique_world_ids (run calls st)) as Hrun.
  { revert calls st Hst. apply run_preserves.
    - apply (table_property_tables (λ t, t.1.1) (λ ws, NoDup (wr_id <$> ws))).
    - intros st r Hst _ Hid. unfold unique_world_ids; cbn.
      rewrite fmap_app. by apply NoDup_snoc.
    - by intros st r Hst _ _ _ _.
    - by intros st r Hst _.
    - by intros st fx fy fz t player_id world_id Hst. }
  split; [exact Hrun|]. intros world_id row. by apply only_row.
Qed.

(** X12.  The positions table keeps at most one row per (player, world):
    from a table without a repeated pair, after any sequence of calls,
    returning or raising, no pair is stored twice, so every pair has one
    position or none. *)
Theorem position_keys_unique calls st :
  unique_position_keys st →
  unique_position_keys (run calls st) ∧
  ∀ player_id world_id,
    (length (positions_of player_id world_id (run calls st)) ≤ 1)%nat.
Proof.
  intros Hst.
  assert (unique_position_keys (run calls st)) as Hrun.
  { revert calls st Hst. apply run_preserves.
    - apply (table_property_tables (λ t, t.2) (λ ps, NoDup (position_key <$> ps))).
    - by intros st r Hst _ _.
    - by intros st r Hst _ _ _ _.
    - intros st r Hst Hkey. unfold unique_position_keys; cbn.
      rewrite fmap_app. by apply NoDup_snoc.
    - intros st fx fy fz t player_id world_id Hst.
      unfold unique_position_keys; cbn. by rewrite rewritten_keys. }
  split; [exact Hrun|]. intros player_id world_id.
  unfold positions_of, unique_position_keys in *.
  induction (player_positions (run calls st)) as [|p ps IH]; [cbn; lia|].
  rewrite fmap_cons in Hrun. apply NoDup_cons in Hrun as [Hp Hnd].
  destruct (decide (position_key p = (player_id, world_id))) as [Heq|Hne].
  - rewrite filter_cons_True by done. rewrite filter_none; [cbn; lia|].
    apply no_position. by rewrite <- Heq.
  - rewrite filter_cons_False by done. by apply IH.
Qed.

(** X13.  The builder keeps the foreign key of world_objects by itself:
    [add_object] looks the world up before it inserts and no call removes a
    world, so from a database in which every object row names a stored
    world, after any sequence of calls, returning or raising, every object
    row still names a stored world. *)
Theorem objects_belong_to_worlds calls st :
  referential st →
  referential (run calls st) ∧
  ∀ r, r ∈ world_objects (run calls st) →
       is_Some (stored_world (or_world_id r) (run calls st)).
Proof.
  intros Hst.
  assert (referential (run calls st)) as Hrun.
  { revert calls st Hst. apply run_preserves.
    - apply (table_property_tables (λ t, (t.1.1, t.1.2))
               (λ t, Forall (λ r, or_world_id r ∈ wr_id <$> t.1) t.2)).
    - intros st r Hst _ _. unfold referential in *; cbn.
      eapply Forall_impl; [exact Hst|]. cbn. intros o Ho.
      rewrite fmap_app. apply elem_of_app. by left.
    - intros st r Hst Hw _ _ _. unfold referential in *; cbn.
      apply Forall_app. split; [exact Hst|]. by apply Forall_singleton.
    - by intros st r Hst _.
    - by intros st fx fy fz t player_id world_id Hst. }
  split; [exact Hrun|]. intros r Hr.
  unfold referential in Hrun. rewrite Forall_forall in Hrun.
  specialize (Hrun r Hr).
  destruct (stored_world (or_world_id r) (run calls st)) as [row|] eqn:Hw; [by eexists|].
  exfalso. revert Hrun. clear -Hw. unfold stored_world in Hw.
  induction (worlds (run calls st)) as [|w ws IH]; cbn in *.
  - apply not_elem_of_nil.
  - destruct (String.eqb_spec (wr_id w) (or_world_id r)) as [|Hne]; [done|].
    rewrite elem_of_cons. intros [Heq|Hin]; [congruence|by apply IH].
Qed.

Lemma theme_colors theme :
  theme ∈ THEMES →
  theme ∈ dict_keys THEME_COLORS ∧
  dict_get THEME_COLORS theme "#FFFFFF" ≠ "#FFFFFF" ∧
  _get_terrain_color theme ≠ "#808080".
Proof.
  unfold THEMES. rewrite !elem_of_cons, elem_of_nil.
  intros [->|[->|[->|[->|[->|[->|[->|[->|[]]]]]]]]];
    (split; [listed|split; [by cbn|by cbn]]).
Qed.

(** X14.  The two validations guard the tables: from a database whose
    themes are all in [THEMES] and whose object types are all in
    [OBJECT_TYPES], after any sequence of calls, returning or raising, this
    is still so.  The fallback colors are therefore never used for a stored
    world: its theme has an entry in [THEME_COLORS], which is not the white
    default, and a terrain color, which is not the gray default. *)
Theorem stored_names_valid calls st :
  valid_names st →
  valid_names (run calls st) ∧
  ∀ row, row ∈ worlds (run calls st) →
    wr_theme row ∈ dict_keys THEME_COLORS ∧
    dict_get THEME_COLORS (wr_theme row) "#FFFFFF" ≠ "#FFFFFF" ∧
    _get_terrain_color (wr_theme row) ≠ "#808080".
Proof.
  intros Hst.
  assert (valid_names (run calls st)) as Hrun.
  { revert calls st Hst. apply run_preserves.
    - apply (table_property_tables (λ t, (t.1.1, t.1.2))
               (λ t, Forall (λ r, wr_theme r ∈ THEMES) t.1 ∧
                     Forall (λ r, or_type r ∈ OBJECT_TYPES) t.2)).
    - intros st r [Hws Hos] Hth _. split; [|exact Hos]. cbn.
      apply Forall_app. split; [exact Hws|]. by apply Forall_singleton.
    - intros st r [Hws Hos] _ Hty _ _. split; [exact Hws|]. cbn.
      apply Forall_app. split; [exact Hos|]. by apply Forall_singleton.
    - by intros st r Hst _.
    - by intros st fx fy fz t player_id world_id Hst. }
  split; [exact Hrun|]. intros row Hrow.
  destruct Hrun as [Hws _]. rewrite Forall_forall in Hws.
  by apply theme_colors, Hws.
Qed.

(** X15.  No call deletes or rewrites a world or an object, or forgets a
    (player, world) pair: after any sequence of calls, returning or
    raising, the worlds table and the objects table start with the rows
    they had, in the same order, and the pairs of the positions table start
    with the pairs it had. *)
Theorem tables_only_grow calls st :
  worlds st `prefix_of` worlds (run calls st) ∧
  world_objects st `prefix_of` world_objects (run calls st) ∧
  (position_key <$> player_positions st) `prefix_of`
    (position_key <$> player_positions (run calls st)).
Proof.
  change (grown_from st (run calls st)).
  assert (grown_from st st) as Hst by (by repeat split).
  revert Hst. generalize st at 2 4 as st0. intros st0. revert calls st0.
  apply run_preserves.
  - apply (table_property_tables id
             (λ t, worlds st `prefix_of` t.1.1 ∧ world_objects st `prefix_of` t.1.2 ∧
                   (position_key <$> player_positions st) `prefix_of`
                     (position_key <$> t.2))).
  - intros st0 r (Hws & Hos & Hps) _ _. split; [|done]. cbn.
    by apply prefix_app_r.
  - intros st0 r (Hws & Hos & Hps) _ _ _ _. split; [done|]. split; [|done]. cbn.
    by apply prefix_app_r.
  - intros st0 r (Hws & Hos & Hps) _. split; [done|]. split; [done|]. cbn.
    rewrite fmap_app. by apply prefix_app_r.
  - intros st0 fx fy fz t player_id world_id (Hws & Hos & Hps).
    split; [done|]. split; [done|]. cbn. by rewrite rewritten_keys.
Qed.

(** *** What a call leaves alone *)

Lemma get_world_same world_id st st' :
  worlds st' = worlds st →
  objects_of world_id st' = objects_of world_id st →
  (get_world world_id st').1 = (get_world world_id st).1.
Proof.
  intros Hws Hos. rewrite !get_world_run. unfold stored_world. rewrite Hws, Hos.
  destruct (find _ _) as [row|]; [|done]. by destruct (load_objects _).
Qed.

(** X16.  Worlds do not see each other's objects: whatever [add_object],
    [generate_terrain] or [populate_world] do for one world, returning or
    raising, [get_world] gives for every other id what it gave before. *)
Theorem other_worlds_untouched world_id other st :
  other ≠ world_id →
  (∀ type_ name x y z props,
     (get_world other (add_object world_id type_ name x y z props st).2).1
     = (get_world other st).1) ∧
  (get_world other (generate_terrain world_id st).2).1 = (get_world other st).1 ∧
  (get_world other (populate_world world_id st).2).1 = (get_world other st).1.
Proof.
  intros Hne.
  set (I := λ s, worlds s = worlds st ∧ objects_of other s = objects_of other st).
  assert (table_property I) as HI.
  { apply (table_property_tables (λ t, (t.1.1, t.1.2))
             (λ t, t.1 = worlds st ∧
                   filter (λ r, or_world_id r = other) t.2 = objects_of other st)). }
  assert (∀ type_ name x y z props,
            preserves I (add_object world_id type_ name x y z props)) as Hadd.
  { intros. apply add_object_preserves; [done|].
    intros s r [Hws Hos] _ Hwid _ _ _ _. split; [done|].
    unfold objects_of in *; cbn.
    rewrite filter_app, filter_cons_False by congruence.
    by rewrite app_nil_r. }
  assert (I st) as Hst by done.
  split; [|split].
  - intros type_ name x y z props.
    destruct (Hadd type_ name x y z props st Hst) as [Hws Hos].
    by apply get_world_same.
  - destruct (generate_terrain_preserves I world_id HI Hadd st Hst) as [Hws Hos].
    by apply get_world_same.
  - destruct (populate_world_preserves I world_id HI Hadd st Hst) as [Hws Hos].
    by apply get_world_same.
Qed.

(** X17.  What each writing method leaves alone, whether it returns or
    raises: [create_world] the objects and the positions; [add_object],
    [generate_terrain] and [populate_world] the worlds and the positions;
    [teleport] the worlds and the objects.  [add_object] and [teleport]
    also leave the shared random generator as it was. *)
Theorem footprints st :
  (∀ name theme seed size,
     let st' := (create_world name theme seed size st).2 in
     world_objects st' = world_objects st ∧
     player_positions st' = player_positions st) ∧
  (∀ world_id type_ name x y z props,
     let st' := (add_object world_id type_ name x y z props st).2 in
     worlds st' = worlds st ∧ player_positions st' = player_positions st ∧
     random st' = random st) ∧
  (∀ world_id,
     let st' := (generate_terrain world_id st).2 in
     worlds st' = worlds st ∧ player_positions st' = player_positions st) ∧
  (∀ world_id,
     let st' := (populate_world world_id st).2 in
     worlds st' = worlds st ∧ player_positions st' = player_positions st) ∧
  (∀ world_id player_id x y z,
     let st' := (teleport world_id player_id x y z st).2 in
     worlds st' = worlds st ∧ world_objects st' = world_objects st ∧
     random st' = random st).
Proof.
  set (I := λ s, worlds s = worlds st ∧ player_positions s = player_positions st).
  assert (table_property I) as HI.
  { apply (table_property_tables (λ t, (t.1.1, t.2))
             (λ t, t.1 = worlds st ∧ t.2 = player_positions st)). }
  assert (∀ world_id type_ name x y z props,
            preserves I (add_object world_id type_ name x y z props)) as Hadd.
  { intros. apply add_object_preserves; [done|]. by intros s r Hs _ _ _ _ _ _. }
  assert (I st) as Hst by done.
  split; [|split; [|split; [|split]]].
  - intros name theme seed size.
    apply (create_world_preserves
             (λ s, world_objects s = world_objects st ∧
                   player_positions s = player_positions st)); [| |done].
    + apply (table_property_tables (λ t, (t.1.2, t.2))
               (λ t, t.1 = world_objects st ∧ t.2 = player_positions st)).
    + by intros s r Hs _ _.
  - intros world_id type_ name x y z props st'.
    destruct (Hadd world_id type_ name x y z props st Hst) as [Hws Hps].
    split; [exact Hws|]. split; [exact Hps|].
    subst st'. rewrite add_object_run.
    case_bool_decide; [done|]. destruct (stored_world _ _); [|done].
    destruct (load_objects _); [|done]. cbv zeta.
    destruct (new_object_row _ _ _ _ _ _ _ _ _); [|done].
    case_bool_decide; [done|]. by destruct (json_loads _).
  - intros world_id. by apply generate_terrain_preserves.
  - intros world_id. by apply populate_world_preserves.
  - intros world_id player_id x y z st'. subst st'. rewrite teleport_outcome.
    by destruct (position_row_of _ _ _ _ _ _).
Qed.

(** *** Player positions *)

(** X18.  [teleport] changes the position of its own (player, world) pair
    only: whether it returns or raises, every other pair has afterwards the
    rows it had, with the same coordinates and time. *)
Theorem teleport_leaves_other_pairs world_id player_id x y z st player' world' :
  (player', world') ≠ (player_id, world_id) →
  positions_of player' world' (teleport world_id player_id x y z st).2
  = positions_of player' world' st.
Proof.
  intros Hne. rewrite teleport_outcome.
  destruct (position_row_of _ _ _ _ _ _) as [r|] eqn:Hrow; [|done].
  apply position_row_of_inv in Hrow as (fx & fy & fz & _ & _ & _ & ->).
  unfold positions_of. cbn [snd player_positions set_player_positions pr_x pr_y pr_z].
  case_bool_decide as Hin.
  - clear Hin. induction (player_positions st) as [|p ps IH]; [done|].
    cbn [fmap list_fmap].
    destruct (decide (position_key p = (player', world'))) as [Heq|Hnk].
    + rewrite !filter_cons_True by (by rewrite ?rewrite_position_key).
      f_equal; [|exact IH].
      unfold rewrite_position.
      destruct (String.eqb_spec (pr_player_id p) player_id) as [Hp|]; [|done].
      destruct (String.eqb_spec (pr_world_id p) world_id) as [Hw|]; [|done].
      exfalso. apply Hne. rewrite <- Heq. unfold position_key. by rewrite Hp, Hw.
    + rewrite !filter_cons_False by (by rewrite ?rewrite_position_key).
      exact IH.
  - rewrite filter_app, filter_cons_False by (unfold position_key; cbn; congruence).
    by rewrite app_nil_r.
Qed.

(** *** The shared generator *)

(** X19.  [generate_terrain] and [populate_world] reseed the process-wide
    generator with the world's seed before their first draw: for a stored
    world whose objects load, the whole outcome of the call, the state of
    the generator it leaves behind included, is the same whatever state the
    generator was in before. *)
Theorem reseeding_forgets_generator world_id st row g :
  stored_world world_id st = Some row →
  Forall (λ r, is_Some (json_loads (or_properties r))) (objects_of world_id st) →
  generate_terrain world_id (set_random g st) = generate_terrain world_id st ∧
  populate_world world_id (set_random g st) = populate_world world_id st.
Proof.
  intros Hw [objs Hl]%load_objects_ok. split.
  - unfold generate_terrain. rewrite !bind_run, !get_world_run.
    change (stored_world world_id (set_random g st)) with (stored_world world_id st).
    change (objects_of world_id (set_random g st)) with (objects_of world_id st).
    rewrite Hw, Hl. by rewrite !bind_run.
  - unfold populate_world. rewrite !bind_run, !get_world_run.
    change (stored_world world_id (set_random g st)) with (stored_world world_id st).
    change (objects_of world_id (set_random g st)) with (objects_of world_id st).
    rewrite Hw, Hl. by rewrite !bind_run.
Qed.

(** X20.  Population is reproducible.  Take two stored worlds with the
    same theme, seed and size, whose objects load.  When the object ids each
    run draws from the clock are new, [populate_world] returns on both and
    appends to each the same number of rows which are, one by one, the same
    in type, name, coordinates (the drawn ones included), scale, rotation,
    color and properties.  The codec is assumed to read back the empty
    object it wrote. *)
Theorem population_deterministic st1 st2 world_id1 world_id2 row1 row2 :
  stored_world world_id1 st1 = Some row1 →
  stored_world world_id2 st2 = Some row2 →
  Forall (λ r, is_Some (json_loads (or_properties r))) (objects_of world_id1 st1) →
  Forall (λ r, is_Some (json_loads (or_properties r))) (objects_of world_id2 st2) →
  wr_theme row1 = wr_theme row2 →
  wr_seed row1 = wr_seed row2 →
  wr_size row1 = wr_size row2 →
  is_Some (json_loads (json_dumps (VDict []))) →
  let n := (8 + tree_count (wr_theme row1) + 4 + landmark_count (wr_theme row1))%nat in
  fresh_ids st1 n →
  fresh_ids st2 n →
  ∃ st1' st2' rows1 rows2,
    populate_world world_id1 st1 = (Ok (), st1') ∧
    populate_world world_id2 st2 = (Ok (), st2') ∧
    world_objects st1' = world_objects st1 ++ rows1 ∧
    world_objects st2' = world_objects st2 ++ rows2 ∧
    length rows1 = n ∧
    Forall2 same_placement rows1 rows2.
Proof.
  intros Hw1 Hw2 Hobjs1 Hobjs2 Htheme Hseed Hsize Hjson n Hfresh1 Hfresh2.
  destruct (populate_world_fresh st1 world_id1 row1) as (rows1 & Hp1 & Hrun1);
    try done.
  { by rewrite length_population. }
  destruct (populate_world_fresh st2 world_id2 row2) as (rows2 & Hp2 & Hrun2);
    try done.
  { by rewrite length_population, <- Htheme. }
  eexists _, _, rows1, rows2.
  split; [exact Hrun1|]. split; [exact Hrun2|].
  split; [reflexivity|]. split; [reflexivity|]. split.
  - apply placed_ids in Hp1. apply (f_equal length) in Hp1.
    rewrite length_fmap in Hp1. rewrite Hp1. unfold next_ids.
    by rewrite length_fmap, length_seq, length_population.
  - rewrite <- Htheme, <- Hseed, <- Hsize in Hp2.
    eapply placed_same; eassumption.
Qed.

Lemma fresh_ids_split st n m rows g :
  fresh_ids st (n + m) →
  or_id <$> rows = next_ids (clock st) (ticks st) n →
  fresh_ids st n ∧ fresh_ids (grown st rows g n) m.
Proof.
  intros [Hnd Hfr] Hids. rewrite next_ids_app in Hnd, Hfr.
  apply NoDup_app in Hnd as (Hnd1 & Hdisj & Hnd2).
  apply Forall_app in Hfr as [Hfr1 Hfr2].
  split; [by split|]. split; [exact Hnd2|].
  cbn [grown clock ticks world_objects].
  rewrite Forall_forall in Hfr2. apply Forall_forall. intros id Hid.
  rewrite fmap_app, Hids. intros [Hin|Hin]%elem_of_app.
  - by apply (Hfr2 id).
  - by apply (Hdisj id).
Qed.

(** X21.  [generate_terrain] does not check for terrain that is already
    there.  On a stored world of size below 2^53 whose objects load, two
    runs in a row, with new object ids for both, each append their
    n * n tiles, n = floor(size / 256): the world then has every tile
    twice, under the same name, at the same place and height.  [randint] is
    assumed to stay within its bounds and the codec to read back the empty
    object it wrote. *)
Theorem terrain_twice st world_id row :
  stored_world world_id st = Some row →
  Forall (λ r, is_Some (json_loads (or_properties r))) (objects_of world_id st) →
  randint_in_range →
  is_Some (json_loads (json_dumps (VDict []))) →
  wr_size row < 2 ^ 53 →
  let n := Z.to_nat (wr_size row / 256) in
  fresh_ids st (n * n + n * n) →
  ∃ st1 st2 tiles1 tiles2,
    generate_terrain world_id st = (Ok (), st1) ∧
    generate_terrain world_id st1 = (Ok (), st2) ∧
    objects_of world_id st2 = objects_of world_id st ++ tiles1 ++ tiles2 ∧
    length tiles1 = (n * n)%nat ∧
    Forall2 same_placement tiles1 tiles2.
Proof.
  intros Hw Hobjs Hrand Hjson Hsize n Hfresh.
  set (ds := terrain_draws (wr_theme row) (wr_size row)).
  assert (length ds = (n * n)%nat) as Hlen by apply length_terrain_draws.
  assert (fresh_ids st (length ds)) as Hfresh1.
  { rewrite Hlen. destruct Hfresh as [Hnd Hfr]. rewrite next_ids_app in Hnd, Hfr.
    apply NoDup_app in Hnd as (Hnd1 & _ & _). apply Forall_app in Hfr as [Hfr1 _].
    by split. }
  destruct (generate_terrain_fresh st world_id row) as (tiles1 & Hp1 & Hrun1);
    try done.
  fold ds in Hp1, Hrun1.
  set (st1 := grown st tiles1 _ _) in Hrun1.
  pose proof (placed_ids _ _ _ _ _ _ _ Hp1) as Hids1. rewrite Hlen in Hids1.
  pose proof (placed_world _ _ _ _ _ _ _ Hp1) as Hwid1.
  assert (Forall (λ r, is_Some (json_loads (or_properties r))) tiles1) as Hload1.
  { eapply placed_loadable; [|done|exact Hp1]. by apply terrain_sound. }
  assert (objects_of world_id st1 = objects_of world_id st ++ tiles1) as Hobjs1.
  { unfold st1. by rewrite objects_of_grown. }
  destruct (generate_terrain_fresh st1 world_id row) as (tiles2 & Hp2 & Hrun2);
    try done.
  { rewrite Hobjs1. by apply Forall_app_2. }
  { fold ds. unfold st1. rewrite Hlen.
    by apply (fresh_ids_split st (n * n) (n * n)). }
  fold ds in Hp2, Hrun2.
  pose proof (placed_world _ _ _ _ _ _ _ Hp2) as Hwid2.
  eexists st1, _, tiles1, tiles2.
  split; [exact Hrun1|]. split; [exact Hrun2|]. split; [|split].
  - rewrite objects_of_grown, Hobjs1 by done. by rewrite <- app_assoc.
  - apply (f_equal length) in Hids1. rewrite length_fmap in Hids1.
    rewrite Hids1. unfold next_ids. by rewrite length_fmap, length_seq.
  - eapply placed_same; eassumption.
Qed.

(** *** The properties column *)

(** X22.  The properties column only ever holds what [add_object] dumped:
    from a database in which every properties text is [json.dumps] of a
    dictionary without the keys scale, rotation and color, after any
    sequence of calls, returning or raising, this is still so; those three
    are stored in their own columns and never a second time inside the
    JSON text. *)
Theorem properties_are_dumps calls st :
  dumped_properties st →
  dumped_properties (run calls st) ∧
  ∀ r, r ∈ world_objects (run calls st) →
    ∃ d, or_properties r = json_dumps (VDict d) ∧
         ∀ key, key ∈ ["scale"; "rotation"; "color"] → key ∉ dict_keys d.
Proof.
  intros Hst.
  assert (dumped_properties (run calls st)) as Hrun.
  { revert calls st Hst. apply run_preserves.
    - apply (table_property_tables (λ t, t.1.2)
               (Forall (λ r, ∃ d, or_properties r = json_dumps (VDict d) ∧
                                  Forall (λ kv, kv.1 ∉ reserved_keys) d))).
    - by intros st r Hst _ _.
    - intros st r Hst _ _ [props Hprops] _. unfold dumped_properties; cbn.
      apply Forall_app. split; [exact Hst|]. apply Forall_singleton.
      exists (free_properties props). split; [exact Hprops|].
      apply Forall_forall. by intros kv [Hkv _]%list_elem_of_filter.
    - by intros st r Hst _.
    - by intros st fx fy fz t player_id world_id Hst. }
  split; [exact Hrun|]. intros r Hr.
  unfold dumped_properties in Hrun. rewrite Forall_forall in Hrun.
  destruct (Hrun r Hr) as (d & Hd & Hfree). exists d. split; [exact Hd|].
  intros key Hkey [kv [-> Hkv]]%list_elem_of_fmap.
  rewrite Forall_forall in Hfree. by apply (Hfree kv).
Qed.

(** *** A generator loop that meets a stored id *)

Lemma place_collision world_id row ds1 d ds2 st objs :
  stored_world world_id st = Some row →
  load_objects (objects_of world_id st) = Ok objs →
  is_Some (json_loads (json_dumps (VDict []))) →
  Forall (sound_draw world_id (wr_theme row)) (ds1 ++ [d]) →
  fresh_ids st (length ds1) →
  obj_id_at (clock st) (ticks st + length ds1)
    ∈ (or_id <$> world_objects st) ++ next_ids (clock st) (ticks st) (length ds1) →
  ∃ rows st',
    placed world_id (wr_theme row) ds1 (random st) (clock st) (ticks st) = Ok rows ∧
    for_each (ds1 ++ d :: ds2) (place world_id) st = (Raise IntegrityError, st') ∧
    world_objects st' = world_objects st ++ rows.
Proof.
  intros Hw Hl Hjson Hds Hfresh Hhit.
  apply Forall_app in Hds as [Hds1 Hd]. rewrite Forall_singleton in Hd.
  destruct (place_fresh world_id row ds1 st objs) as (rows & Hp & Hrun); try done.
  exists rows.
  pose proof (placed_ids _ _ _ _ _ _ _ Hp) as Hids.
  pose proof (placed_world _ _ _ _ _ _ _ Hp) as Hwid.
  assert (Forall (λ r, is_Some (json_loads (or_properties r))) rows) as Hload.
  { by eapply placed_loadable. }
  set (st1 := grown st rows (drawn ds1 (random st)) (length ds1)) in *.
  assert (∃ objs1, load_objects (objects_of world_id st1) = Ok objs1) as [objs1 Hl1].
  { unfold st1. rewrite objects_of_grown, load_objects_app, Hl by done.
    apply load_objects_ok in Hload as [os ->]. by eexists. }
  rewrite for_each_app, bind_run, Hrun. cbn [for_each]. rewrite bind_run.
  unfold place at 1. destruct (d (random st1)) as [p g'] eqn:Hdraw.
  destruct (Hd (random st1)) as (Hty & _ & Hrow). rewrite Hdraw in Hty, Hrow.
  cbn [fst] in Hty, Hrow.
  destruct (Hrow (clock st (ticks st + length ds1)%nat)) as [r Hr].
  rewrite bind_run, add_object_run, bool_decide_false by (by intros ?).
  change (stored_world world_id (set_random g' st1)) with (stored_world world_id st).
  change (objects_of world_id (set_random g' st1)) with (objects_of world_id st1).
  rewrite Hw, Hl1. cbv zeta.
  cbn [clock ticks set_random st1 grown world_objects]. rewrite Hr.
  rewrite bool_decide_true.
  - eexists. split; [done|]. split; reflexivity.
  - apply new_object_row_fields in Hr as (-> & _).
    by rewrite fmap_app, Hids.
Qed.

Lemma split_at {A} (l : list A) k :
  (k < length l)%nat → ∃ x, l = take k l ++ x :: drop (S k) l.
Proof.
  intros Hk. destruct (lookup_lt_is_Some_2 l k Hk) as [x Hx].
  exists x. by rewrite take_drop_middle.
Qed.

(** X23.  Terrain generation is not undone when it fails.  On a stored
    world of size below 2^53 whose objects load, when the first k object
    ids the run draws from the clock are new and the next one is already
    stored or was just drawn (the clock repeats a millisecond), with k
    less than the n * n tiles due, [generate_terrain] raises IntegrityError
    and leaves exactly the first k tiles of the grid, in row-major order,
    in the objects table.  [randint] is assumed to stay within its bounds
    and the codec to read back the empty object it wrote. *)
Theorem terrain_stops_at_collision st world_id row k :
  stored_world world_id st = Some row →
  Forall (λ r, is_Some (json_loads (or_properties r))) (objects_of world_id st) →
  randint_in_range →
  is_Some (json_loads (json_dumps (VDict []))) →
  wr_size row < 2 ^ 53 →
  let n := Z.to_nat (wr_size row / 256) in
  (k < n * n)%nat →
  fresh_ids st k →
  obj_id_at (clock st) (ticks st + k)
    ∈ (or_id <$> world_objects st) ++ next_ids (clock st) (ticks st) k →
  ∃ st' tiles,
    generate_terrain world_id st = (Raise IntegrityError, st') ∧
    world_objects st' = world_objects st ++ tiles ∧
    length tiles = k ∧
    Forall2 (is_tile world_id (wr_theme row)) (take k (cells (Z.of_nat n))) tiles.
Proof.
  intros Hw Hobjs Hrand Hjson Hsize n Hk Hfresh Hhit.
  pose proof Hobjs as [objs Hl]%load_objects_ok.
  set (ds := terrain_draws (wr_theme row) (wr_size row)).
  assert (length ds = (n * n)%nat) as Hlen by apply length_terrain_draws.
  destruct (split_at ds k) as [d Hsplit]; [lia|].
  assert (length (take k ds) = k) as Htake by (rewrite length_take; lia).
  assert (Forall (sound_draw world_id (wr_theme row)) ds) as Hsound.
  { by apply terrain_sound. }
  set (st0 := set_random (random_seed (wr_seed row)) st).
  destruct (place_collision world_id row (take k ds) d (drop (S k) ds) st0 objs)
    as (tiles & st' & Hp & Hrun & Hrows); try done.
  { rewrite Hsplit in Hsound. apply Forall_app in Hsound as [H1 H2].
    apply Forall_app. split; [exact H1|]. apply Forall_cons in H2 as [H2 _].
    by apply Forall_singleton. }
  { by rewrite Htake. }
  { by rewrite Htake. }
  rewrite <- Hsplit in Hrun.
  exists st', tiles. split; [|split; [exact Hrows|split]].
  - erewrite generate_terrain_loop by done. fold st0.
    replace (cells (grid_size_of (wr_size row)))
      with (cells (Z.of_nat (Z.to_nat (wr_size row / 256)))); [exact Hrun|].
    unfold cells, range. by rewrite Nat2Z.id, grid_size_floor.
  - apply placed_ids in Hp. apply (f_equal length) in Hp.
    rewrite length_fmap in Hp. rewrite Hp. unfold next_ids.
    by rewrite length_fmap, length_seq.
  - unfold ds, terrain_draws in Hp. rewrite <- fmap_take in Hp.
    eapply placed_Forall2; [|exact Hp].
    intros ij g0 now r _ Hr.
    unfold tile_draw in Hr. pose proof (Hrand (-10) 50 g0) as Hh.
    destruct (random_randint (-10) 50 g0) as [h g']. cbn [fst snd] in *.
    eapply tile_row; [exact Hr|lia].
Qed.

(** X24.  Nor is population undone.  On a stored world whose objects
    load, when the first k object ids the run draws from the clock are new
    and the next one is already stored or was just drawn, with k less than
    the number of objects due, [populate_world] raises IntegrityError and
    leaves the k objects it had added, all of that world, in the objects
    table.  The codec is assumed to read back the empty object it wrote. *)
Theorem population_stops_at_collision st world_id row k :
  stored_world world_id st = Some row →
  Forall (λ r, is_Some (json_loads (or_properties r))) (objects_of world_id st) →
  is_Some (json_loads (json_dumps (VDict []))) →
  (k < 8 + tree_count (wr_theme row) + 4 + landmark_count (wr_theme row))%nat →
  fresh_ids st k →
  obj_id_at (clock st) (ticks st + k)
    ∈ (or_id <$> world_objects st) ++ next_ids (clock st) (ticks st) k →
  ∃ st' rows,
    populate_world world_id st = (Raise IntegrityError, st') ∧
    world_objects st' = world_objects st ++ rows ∧
    length rows = k ∧
    Forall (λ r, or_world_id r = world_id) rows.
Proof.
  intros Hw Hobjs Hjson Hk Hfresh Hhit.
  pose proof Hobjs as [objs Hl]%load_objects_ok.
  set (ds := population (wr_theme row) (wr_size row)).
  assert (length ds = (8 + tree_count (wr_theme row) + 4
                       + landmark_count (wr_theme row))%nat) as Hlen
    by apply length_population.
  destruct (split_at ds k) as [d Hsplit]; [lia|].
  assert (length (take k ds) = k) as Htake by (rewrite length_take; lia).
  assert (Forall (sound_draw world_id (wr_theme row)) ds) as Hsound.
  { apply population_sound. }
  set (st0 := set_random (random_seed (wr_seed row)) st).
  destruct (place_collision world_id row (take k ds) d (drop (S k) ds) st0 objs)
    as (rows & st' & Hp & Hrun & Hrows); try done.
  { rewrite Hsplit in Hsound. apply Forall_app in Hsound as [H1 H2].
    apply Forall_app. split; [exact H1|]. apply Forall_cons in H2 as [H2 _].
    by apply Forall_singleton. }
  { by rewrite Htake. }
  { by rewrite Htake. }
  rewrite <- Hsplit in Hrun.
  exists st', rows. split; [|split; [exact Hrows|split]].
  - by erewrite populate_world_loop.
  - apply placed_ids in Hp. apply (f_equal length) in Hp.
    rewrite length_fmap in Hp. rewrite Hp. unfold next_ids.
    by rewrite length_fmap, length_seq.
  - by eapply placed_world.
Qed.

(** *** Listing *)

Lemma summarize_rows rows st :
  ∃ summaries,
    summarize rows st = (Ok summaries, st) ∧
    Forall2
      (λ row s,
         ws_id s = wr_id row ∧ ws_name s = wr_name row ∧ ws_theme s = wr_theme row ∧
         ws_object_count s = length (objects_of (wr_id row) st) ∧
         ws_created_at s = isoformat (wr_created_at row))
      rows summaries.
Proof.
  induction rows as [|row rows (rest & Hrest & Hall)]; [by eexists|].
  cbn [summarize]. rewrite bind_run. unfold count_objects at 1.
  rewrite bind_run. unfold lift at 1. cbn [fromtimestamp_isoformat].
  rewrite bind_run, Hrest.
  eexists. split; [reflexivity|]. by constructor.
Qed.

(** X25.  [list_worlds] always returns, with one summary per stored world
    in the order of creation: its id, name and theme, the number of object
    rows that name it, and its creation time formatted from the number
    stored.  That number of objects is the number [get_world] returns for
    the world, whenever it returns it. *)
Theorem list_worlds_report st :
  ∃ summaries,
    list_worlds st = (Ok summaries, st) ∧
    Forall2
      (λ row s,
         ws_id s = wr_id row ∧ ws_name s = wr_name row ∧ ws_theme s = wr_theme row ∧
         ws_object_count s = length (objects_of (wr_id row) st) ∧
         ws_created_at s = isoformat (wr_created_at row))
      (worlds st) summaries ∧
    ∀ s w,
      s ∈ summaries →
      (get_world (ws_id s) st).1 = Ok (Some w) →
      ws_object_count s = length (mw_objects w).
Proof.
  destruct (summarize_rows (worlds st) st) as (summaries & Hrun & Hall).
  exists summaries. split; [exact Hrun|]. split; [exact Hall|].
  intros s w Hs Hget.
  apply list_elem_of_lookup in Hs as [k Hk].
  destruct (Forall2_lookup_r _ _ _ _ _ Hall Hk) as (row & _ & Hid & _ & _ & Hcount & _).
  rewrite Hcount, <- Hid.
  rewrite get_world_run in Hget.
  destruct (stored_world _ _) as [row'|]; [|done].
  destruct (load_objects _) as [objs|] eqn:Hl; [|done].
  injection Hget as <-. cbn. symmetry. by eapply load_objects_length.
Qed.

(** *** The command line *)

Lemma try_finally_close {A} (body : M A) st : try_finally body close st = body st.
Proof. unfold try_finally, close. by destruct (body st) as [[a|e] st']. Qed.

Lemma substring_length n (s : string) :
  (String.length (String.substring 0 n s) ≤ n)%nat.
Proof.
  revert s. induction n as [|n IH]; intros [|c s]; cbn; try lia.
  specialize (IH s). lia.
Qed.

(** X26.  The command [create NAME THEME --seed N] gives no way to choose
    a size: the world is created with size 1024.  In a database whose
    object rows all name stored worlds, when the theme is valid, the seed
    fits 64 bits, the world's id is not taken and the ids of the next 16
    objects are new, the command stores the world, generates its 4 x 4
    terrain tiles and prints three lines: the name and theme, the id and
    the seed.  [randint] is assumed to stay within its bounds and the codec
    to read back the empty object it wrote. *)
Theorem command_line_create json_dumps_indent name theme seed st :
  theme ∈ THEMES →
  int64 seed = true →
  referential st →
  world_id_at (clock st) (ticks st) ∉ wr_id <$> worlds st →
  randint_in_range →
  is_Some (json_loads (json_dumps (VDict []))) →
  fresh_ids (set_ticks (S (ticks st)) st) 16 →
  let world_id := world_id_at (clock st) (ticks st) in
  ∃ st' row,
    main json_dumps_indent (create_command name theme (Some seed)) st
      = (Ok [ "✓ Created world: " +:+ name +:+ " (" +:+ theme +:+ ")";
              "  ID: " +:+ world_id;
              "  Seed: " +:+ pretty seed ], st') ∧
    stored_world world_id st' = Some row ∧
    wr_name row = name ∧ wr_theme row = theme ∧ wr_seed row = seed ∧
    wr_size row = 1024 ∧
    length (objects_of world_id st') = 16%nat ∧
    Forall (λ r, or_type r = "terrain") (objects_of world_id st').
Proof.
  intros Hth Hseed Href Hnew Hrand Hjson Hfresh world_id.
  set (row := new_world_row name theme seed 1024 (clock st (ticks st))).
  set (st1 := set_worlds (worlds st ++ [row])
                (set_ticks (S (ticks st)) (set_random (random st) st))).
  assert (create_world name theme (Some seed) 1024 st
          = (Ok (created_world name theme seed 1024 (clock st (ticks st))), st1))
    as Hcreate.
  { rewrite create_world_run, bool_decide_false by (by intros ?).
    cbn [chosen_seed fst snd]. cbv zeta. rewrite Hseed. cbn [andb int64].
    by rewrite bool_decide_false. }
  assert (stored_world world_id st1 = Some row) as Hw.
  { unfold stored_world, st1. cbn [worlds set_worlds].
    by rewrite (stored_world_new world_id). }
  assert (objects_of world_id st1 = []) as Hnone.
  { by apply (no_objects_yet world_id st). }
  destruct (generate_terrain_fresh st1 world_id row) as (tiles & Hp & Hrun);
    try done.
  { by rewrite Hnone. }
  set (st2 := grown st1 tiles _ _) in Hrun.
  exists st2, row.
  split.
  { unfold main. rewrite try_finally_close, bind_run, Hcreate, bind_run.
    cbn [mw_id created_world]. fold (world_id_at (clock st) (ticks st)).
    fold world_id. by rewrite Hrun. }
  split; [exact Hw|]. repeat (split; [reflexivity|]).
  unfold st2. rewrite objects_of_grown, Hnone by (by eapply placed_world).
  cbn [app]. split.
  - apply placed_ids in Hp. apply (f_equal length) in Hp.
    rewrite length_fmap in Hp. rewrite Hp. unfold next_ids.
    by rewrite length_fmap, length_seq.
  - assert (Forall2 (λ _ r, or_type r = "terrain")
              (cells (Z.of_nat (Z.to_nat (wr_size row / 256)))) tiles) as HF.
    { eapply placed_Forall2; [|exact Hp].
      intros ij g now r _ Hr. unfold tile_draw in Hr.
      destruct (random_randint (-10) 50 g) as [h g']. cbn [fst] in Hr.
      by apply new_object_row_fields in Hr as (_ & _ & -> & _). }
    eapply Forall2_Forall_r; [exact HF|]. by apply Forall_true.
Qed.

(** X27.  The command [populate WORLD_ID] on a stored world whose objects
    load, when the object ids it draws from the clock are new, prints one
    line, "✓ Populated <name> with <k> objects", where k counts the objects
    the world had before and the 8 buildings, the trees, the 4 lights and
    the landmark that were added.  The codec is assumed to read back the
    empty object it wrote. *)
Theorem command_line_populate json_dumps_indent world_id st row :
  stored_world world_id st = Some row →
  Forall (λ r, is_Some (json_loads (or_properties r))) (objects_of world_id st) →
  is_Some (json_loads (json_dumps (VDict []))) →
  let n := (8 + tree_count (wr_theme row) + 4 + landmark_count (wr_theme row))%nat in
  fresh_ids st n →
  ∃ st',
    main json_dumps_indent (populate_command world_id) st
      = (Ok [ "✓ Populated " +:+ wr_name row +:+ " with "
                +:+ pretty (length (objects_of world_id st) + n)%nat +:+ " objects" ],
         st') ∧
    length (objects_of world_id st') = (length (objects_of world_id st) + n)%nat.
Proof.
  intros Hw Hobjs Hjson n Hfresh.
  destruct (populate_world_fresh st world_id row) as (rows & Hp & Hrun); try done.
  { by rewrite length_population. }
  set (st' := grown st rows _ _) in Hrun.
  assert (objects_of world_id st' = objects_of world_id st ++ rows) as Hafter.
  { unfold st'. rewrite objects_of_grown; [done|]. by eapply placed_world. }
  assert (length rows = n) as Hlen.
  { apply placed_ids in Hp. apply (f_equal length) in Hp.
    rewrite length_fmap in Hp. rewrite Hp. unfold next_ids.
    by rewrite length_fmap, length_seq, length_population. }
  assert (∃ objs, load_objects (objects_of world_id st') = Ok objs) as [objs Hl].
  { apply load_objects_ok. rewrite Hafter. apply Forall_app_2; [done|].
    eapply placed_loadable; [|done|exact Hp]. apply population_sound. }
  exists st'. split.
  - unfold main. rewrite try_finally_close, bind_run, Hrun, bind_run, get_world_run.
    change (stored_world world_id st') with (stored_world world_id st).
    rewrite Hw, Hl. cbn [mw_name mw_objects MetaverseWorld_of_row].
    rewrite (load_objects_length _ _ Hl), Hafter, length_app, Hlen.
    reflexivity.
  - by rewrite Hafter, length_app, Hlen.
Qed.

Lemma export_json_raise world_id st : ∃ e, export_json world_id st = (Raise e, st).
Proof.
  unfold export_json. rewrite bind_run, get_world_run.
  destruct (stored_world world_id st) as [row|]; [|by eexists].
  destruct (load_objects _) as [objs|e]; by eexists.
Qed.

(** X28.  The command [export WORLD_ID] in its default format, json,
    prints nothing for any id and any database: it ends in the exception
    that [export_json] raises.  With [--format gltf], for a stored world
    whose objects load, it prints one line, the first 200 characters of the
    indented document followed by three dots, also when the document is
    shorter than that. *)
Theorem command_line_export json_dumps_indent world_id st :
  (∃ e, main json_dumps_indent (export_command world_id json_format) st
        = (Raise e, st)) ∧
  ∀ row,
    stored_world world_id st = Some row →
    Forall (λ r, is_Some (json_loads (or_properties r))) (objects_of world_id st) →
    ∃ g line,
      export_gltf_stub world_id st = (Ok g, st) ∧
      main json_dumps_indent (export_command world_id gltf_format) st
        = (Ok [ line +:+ "..." ], st) ∧
      line = String.substring 0 200 (json_dumps_indent (value_of_gltf g)) ∧
      (String.length line ≤ 200)%nat.
Proof.
  split.
  - destruct (export_json_raise world_id st) as [e He]. exists e.
    unfold main. by rewrite try_finally_close, bind_run, He.
  - intros row Hw [objs Hl]%load_objects_ok.
    assert (∃ g, export_gltf_stub world_id st = (Ok g, st)) as [g Hg].
    { unfold export_gltf_stub. rewrite bind_run, get_world_run, Hw, Hl.
      by eexists. }
    exists g, (String.substring 0 200 (json_dumps_indent (value_of_gltf g))).
    split; [exact Hg|]. split; [|split; [done|apply substring_length]].
    unfold main. by rewrite try_finally_close, bind_run, Hg.
Qed.

(** X29.  Run without a sub-command, the program lists the worlds: it
    always returns, changes nothing, and prints the line "Worlds (n):" for
    the n stored worlds followed by one line per world, in the order of
    creation, with its name, its theme and the number of object rows that
    name it. *)
Theorem command_line_lists json_dumps_indent st :
  ∃ lines,
    main json_dumps_indent no_command st
      = (Ok (("Worlds (" +:+ pretty (length (worlds st)) +:+ "):") :: lines), st) ∧
    Forall2
      (λ row line,
         line = "  " +:+ wr_name row +:+ " (" +:+ wr_theme row +:+ ") - "
                  +:+ pretty (length (objects_of (wr_id row) st)) +:+ " objects")
      (worlds st) lines.
Proof.
  destruct (summarize_rows (worlds st) st) as (summaries & Hrun & Hall).
  eexists. split.
  - unfold main. rewrite try_finally_close, bind_run. unfold list_worlds at 1.
    rewrite Hrun. by rewrite <- (Forall2_length _ _ _ Hall).
  - apply Forall2_fmap_r. eapply Forall2_impl; [exact Hall|].
    cbn. by intros row s (_ & -> & -> & -> & _).
Qed.

End Properties.

(** * The builder on the reference platform *)

Module Scenarios.
Import Reference Fixture.

(** The reference generator keeps [randint] within its bounds. *)
Lemma reference_randint : randint_in_range.
Proof.
  intros a b g Hab. cbn.
  pose proof (Z.mod_pos_bound (lcg g) (b - a + 1)). lia.
Qed.

(** The reference codec reads the empty object back. *)
Lemma reference_json_empty : is_Some (json_loads (json_dumps (VDict []))).
Proof. by eexists. Qed.

(** Freshness on a concrete state, by evaluation. *)
Ltac check_fresh := split; listed.

(** *** Where the clock advances *)

(** C3 at Aurora (size 512): the run returns and appends four tiles. *)
Lemma terrain_grid_witness :
  ∃ st' tiles,
    generate_terrain aurora_id db2 = (Ok (), st') ∧
    world_objects st' = world_objects db2 ++ tiles ∧
    length tiles = 4%nat.
Proof.
  destruct (terrain_grid db2 aurora_id aurora_row)
    as (st' & tiles & Hrun & Hobjs & Hlen & _).
  - reflexivity.
  - constructor.
  - exact reference_randint.
  - exact reference_json_empty.
  - reflexivity.
  - check_fresh.
  - exists st', tiles. split; [exact Hrun|]. split; [exact Hobjs|exact Hlen].
Defined.

(** C2 at Aurora and Borealis: terrain for the first, then for the second,
    gives the two worlds the same tiles. *)
Lemma terrain_deterministic_witness :
  ∃ st1' st2',
    generate_terrain aurora_id db2 = (Ok (), st1') ∧
    generate_terrain borealis_id db3 = (Ok (), st2') ∧
    Forall2 same_placement (objects_of aurora_id st1') (objects_of borealis_id st2').
Proof.
  apply (terrain_deterministic db2 db3 aurora_id borealis_id aurora_row borealis_row);
    try reflexivity.
  - exact reference_randint.
  - exact reference_json_empty.
  - check_fresh.
  - check_fresh.
Defined.

(** C4 at Aurora, an arctic world: 8 buildings, 15 trees, 4 lights and no
    landmark; and the whole scenario from the empty database ends with 31
    objects. *)
Lemma population_counts_witness :
  (∃ st' buildings trees lights landmarks,
     populate_world aurora_id db3 = (Ok (), st') ∧
     world_objects st'
       = world_objects db3 ++ buildings ++ trees ++ lights ++ landmarks ∧
     length buildings = 8%nat ∧ length trees = 15%nat ∧
     length lights = 4%nat ∧ landmarks = []) ∧
  (∃ w st1 st2 st3 w',
     create_world "Aurora" "arctic" (Some 42) 512 db0 = (Ok w, st1) ∧
     generate_terrain (mw_id w) st1 = (Ok (), st2) ∧
     populate_world (mw_id w) st2 = (Ok (), st3) ∧
     get_world (mw_id w) st3 = (Ok (Some w'), st3) ∧
     length (mw_objects w') = 31%nat).
Proof.
  destruct population_counts as [Hcounts Hscenario]. split.
  - destruct (Hcounts db3 aurora_id aurora_row)
      as (st' & bs & ts & ls & lm & Hrun & Hobjs & Hb & _ & Ht & _ & Hl & _ & Hlm).
    + reflexivity.
    + listed.
    + exact reference_json_empty.
    + check_fresh.
    + exists st', bs, ts, ls, lm.
      split; [exact Hrun|]. split; [exact Hobjs|]. split; [exact Hb|].
      split; [exact Ht|]. split; [exact Hl|exact Hlm].
  - apply (Hscenario 7 ticking).
    + exact reference_randint.
    + exact reference_json_empty.
    + listed.
Defined.

(** C5 at the theme medieval and the type spaceship. *)
Lemma enum_enforcement_witness :
  (∃ e, create_world "Aurora" "medieval" (Some 42) 512 db0 = (Raise e, db0) ∧
        InvalidArgument e) ∧
  (∃ e, add_object aurora_id "spaceship" "ship" (Int 1) (Int 2) (Int 3) [] db2
        = (Raise e, db2) ∧ InvalidArgument e).
Proof.
  destruct enum_enforcement as [Htheme Htype]. split.
  - apply Htheme. listed.
  - apply Htype. listed.
Defined.

(** C10 at a world id that is not stored. *)
Lemma type_checked_before_lookup_witness :
  stored_world "world_404" db2 = None ∧
  ∃ e, add_object "world_404" "spaceship" "ship" (Int 1) (Int 2) (Int 3) [] db2
       = (Raise e, db2) ∧ InvalidArgument e ∧ ¬ NotFound e.
Proof.
  split; [reflexivity|]. apply type_checked_before_lookup. listed.
Defined.



(** C7 for the tower: scale 3 and the color come out of the bag, floors,
    tags and meta stay, nested values included. *)
Lemma add_object_bag_witness :
  ∃ st',
    add_object aurora_id "building" "tower" (Int 1) (Int 2)
      (Float (millionths 3500000)) tower_props db2 = (Ok tower, st') ∧
    wo_scale tower = dict_get tower_props "scale" (VFloat (float_of_int 1)) ∧
    wo_properties tower = VDict (free_properties tower_props) ∧
    ∃ r, world_objects st' = world_objects db2 ++ [r] ∧
         json_loads (or_properties r) = Some (wo_properties tower).
Proof.
  pose proof (surjective_pairing
    (add_object aurora_id "building" "tower" (Int 1) (Int 2)
       (Float (millionths 3500000)) tower_props db2)) as Hadd.
  assert ((add_object aurora_id "building" "tower" (Int 1) (Int 2)
             (Float (millionths 3500000)) tower_props db2).1 = Ok tower) as Hobj.
  { reflexivity. }
  rewrite Hobj in Hadd.
  destruct (add_object_bag _ _ _ _ _ _ _ _ _ _ Hadd)
    as (row & r & _ & Hs & _ & _ & _ & _ & Hp & _ & Hobjs & _ & Hload).
  { reflexivity. }
  eexists. split; [exact Hadd|]. split; [exact Hs|]. split; [exact Hp|].
  exists r. split; [exact Hobjs|exact Hload].
Defined.

(** C8 for the session, from the empty database. *)
Lemma object_ids_unique_witness :
  unique_ids (run session db0) ∧
  ∀ world_id w st',
    get_world world_id (run session db0) = (Ok (Some w), st') →
    NoDup (wo_id <$> mw_objects w).
Proof. apply object_ids_unique. constructor. Defined.

(** C9 at Aurora with its four tiles. *)
Lemma gltf_stub_witness :
  ∃ g,
    export_gltf_stub aurora_id db3 = (Ok g, db3) ∧
    g_scenes g = [ {| gs_name := "Aurora"; gs_nodes := [0; 1; 2; 3] |} ] ∧
    length (g_nodes g) = 4%nat ∧ length (g_meshes g) = 4%nat.
Proof.
  destruct (gltf_stub db3 aurora_id aurora_row) as (g & Hrun & _ & Hs & Hn & Hm & _).
  - reflexivity.
  - listed.
  - exists g. split; [exact Hrun|]. split; [exact Hs|]. split; [exact Hn|exact Hm].
Defined.

(** C1 fails on the code: once Aurora is stored, [get_world] returns it
    with its description in [created_at], and [export_json] raises
    TypeError instead of returning the scene. *)
Lemma export_json_type_error :
  stored_world aurora_id db1 = Some aurora_row ∧
  (get_world aurora_id db1).1 = Ok (Some (MetaverseWorld_of_row aurora_row [])) ∧
  mw_created_at (MetaverseWorld_of_row aurora_row []) = VStr "A arctic metaverse world" ∧
  (export_json aurora_id db1).1 = Raise TypeError.
Proof. repeat split; reflexivity. Qed.

(** *** Where the clock does not advance *)

(** C2 as stated fails: Aurora and Borealis are stored with the same
    theme, seed and size and have no object; terrain generation returns for
    Aurora; for Borealis the clock gives the same millisecond twice, the
    second insert meets the id of the first and the run stops on
    IntegrityError.  Aurora has four tiles, Borealis one. *)
Lemma terrain_deterministic_counterexample :
  stored_world aurora_id stalled
    = Some {| wr_id := aurora_id; wr_name := "Aurora"; wr_theme := "arctic";
              wr_seed := 42; wr_size := 512; wr_created_at := stalling 0;
              wr_description := "A arctic metaverse world" |} ∧
  stored_world borealis_id stalled
    = Some {| wr_id := borealis_id; wr_name := "Borealis"; wr_theme := "arctic";
              wr_seed := 42; wr_size := 512; wr_created_at := stalling 1;
              wr_description := "A arctic metaverse world" |} ∧
  world_objects stalled = [] ∧
  (generate_terrain aurora_id stalled).1 = Ok () ∧
  (generate_terrain borealis_id stalled_aurora).1 = Raise IntegrityError ∧
  length (objects_of aurora_id stalled_borealis) = 4%nat ∧
  length (objects_of borealis_id stalled_borealis) = 1%nat.
Proof. repeat split; reflexivity. Qed.

(** C3 as stated fails: for Aurora, of size 512, floor(512 / 256)^2 is 4,
    but on a clock that does not advance terrain generation stops on
    IntegrityError with one tile stored. *)
Lemma terrain_grid_counterexample :
  stored_world aurora_id halted = Some aurora_row ∧
  Z.to_nat (wr_size aurora_row / 256) = 2%nat ∧
  (generate_terrain aurora_id halted).1 = Raise IntegrityError ∧
  length (world_objects (generate_terrain aurora_id halted).2) = 1%nat.
Proof. repeat split; reflexivity. Qed.

(** C4 as stated fails: on a clock that does not advance, population of
    Aurora stops on IntegrityError after its first building. *)
Lemma population_counts_counterexample :
  stored_world aurora_id halted = Some aurora_row ∧
  (populate_world aurora_id halted).1 = Raise IntegrityError ∧
  length (world_objects (populate_world aurora_id halted).2) = 1%nat ∧
  or_type <$> world_objects (populate_world aurora_id halted).2 = ["building"].
Proof. repeat split; reflexivity. Qed.

(** *** Creating worlds *)

(** X1 at Borealis, created after Aurora. *)
Lemma create_world_round_trip_witness :
  ∃ w st' w',
    create_world "Borealis" "arctic" (Some 42) 512 db1 = (Ok w, st') ∧
    mw_id w = borealis_id ∧
    get_world (mw_id w) st' = (Ok (Some w'), st') ∧
    mw_name w' = "Borealis" ∧ mw_seed w' = 42 ∧ mw_objects w' = [].
Proof.
  destruct (create_world_round_trip "Borealis" "arctic" 42 512 db1)
    as (w & st' & w' & Hrun & Hid & _ & _ & _ & _ & _ & _ & _ & Hget & _ & Hname
        & _ & Hseed & _ & Hobjs).
  - listed.
  - reflexivity.
  - reflexivity.
  - apply Forall_nil_2.
  - listed.
  - exists w, st', w'. split; [exact Hrun|]. split; [rewrite Hid; reflexivity|].
    split; [exact Hget|]. split; [exact Hname|]. split; [exact Hseed|exact Hobjs].
Defined.

(** X2 at a second world created without a seed. *)
Lemma create_world_draws_seed_witness :
  ∃ w st',
    create_world "Borealis" "arctic" None 512 db1 = (Ok w, st') ∧
    1 ≤ mw_seed w ≤ 1000000.
Proof.
  destruct (create_world_draws_seed "Borealis" "arctic" 512 db1)
    as (w & st' & row & Hrun & Hseed & _).
  - listed.
  - exact reference_randint.
  - reflexivity.
  - listed.
  - exists w, st'. split; [exact Hrun|exact Hseed].
Defined.


(** X4: a seed of 2^63, an x coordinate of 2^63 and a z coordinate of
    -2^63 - 1. *)
Lemma integers_beyond_64_bits_witness :
  (∃ st', create_world "Aurora" "arctic" (Some too_large) 512 db0
          = (Raise OverflowError, st') ∧ worlds st' = worlds db0) ∧
  (∃ st', add_object aurora_id "tree" "oak" (Int too_large) (Int 0) (Int 0) [] db2
          = (Raise OverflowError, st') ∧ world_objects st' = world_objects db2) ∧
  (∃ st', teleport aurora_id "ada" (Int 0) (Int 0) (Int too_small) db2
          = (Raise OverflowError, st') ∧ player_positions st' = player_positions db2).
Proof.
  destruct integers_beyond_64_bits as (Hcreate & Hadd & Hteleport).
  split; [|split].
  - apply Hcreate; [listed|by left].
  - apply (Hadd aurora_id "tree" "oak" _ _ _ [] db2 aurora_row).
    + listed.
    + reflexivity.
    + apply Forall_nil_2.
    + left. by exists too_large.
  - apply Hteleport. right. right. by exists too_small.
Defined.

(** X5 at an id that no world of the database has. *)
Lemma missing_world_witness :
  get_world "world_404" db2 = (Ok None, db2) ∧
  generate_terrain "world_404" db2
    = (Raise (ValueError "World world_404 not found"), db2) ∧
  ∃ st', teleport "world_404" "ada" (Int 1) (Int 2) (Int 3) db2 = (Ok (), st') ∧
         ("ada", "world_404") ∈ position_key <$> player_positions st'.
Proof.
  destruct (missing_world "world_404" db2)
    as (Hget & _ & Hterrain & _ & _ & _ & Hteleport).
  - reflexivity.
  - split; [exact Hget|]. split; [exact Hterrain|].
    destruct (Hteleport "ada" (Int 1) (Int 2) (Int 3)
                (millionths 1000000) (millionths 2000000) (millionths 3000000))
      as (st' & Hrun & Hin & _); try reflexivity.
    exists st'. split; [exact Hrun|exact Hin].
Defined.

(** X6 at Aurora with its four tiles. *)
Lemma get_world_reads_back_witness :
  ∃ w,
    get_world aurora_id db3 = (Ok (Some w), db3) ∧
    mw_name w = "Aurora" ∧ mw_theme w = "arctic" ∧ mw_seed w = 42 ∧ mw_size w = 512 ∧
    Forall2 read_back (objects_of aurora_id db3) (mw_objects w) ∧
    length (mw_objects w) = 4%nat ∧
    mw_created_at w = VStr "A arctic metaverse world".
Proof.
  destruct (get_world_count aurora_id db3 aurora_row) as (w & Hget & Hlen).
  { reflexivity. }
  { listed. }
  destruct (get_world_reads_back _ _ _ _ Hget)
    as (row & Hrow & _ & Hname & Htheme & Hseed & Hsize & Hobjs & Hcreated & _).
  assert (stored_world aurora_id db3 = Some aurora_row) as Hr by reflexivity.
  rewrite Hrow in Hr. injection Hr as ->.
  exists w. split; [exact Hget|]. split; [exact Hname|]. split; [exact Htheme|].
  split; [exact Hseed|]. split; [exact Hsize|]. split; [exact Hobjs|].
  split; [|exact Hcreated].
  rewrite Hlen. reflexivity.
Defined.

(** *** Adding objects *)

(** X9 for the tower: added with the int scale 3 and the coordinates
    (1, 2, 3.5), it is read back as the world's only object, with scale 3.0
    and the position (1.0, 2.0, 3.5). *)
Lemma add_object_then_get_witness :
  ∃ st' w' o,
    add_object aurora_id "building" "tower" (Int 1) (Int 2)
      (Float (millionths 3500000)) tower_props db2 = (Ok tower, st') ∧
    get_world aurora_id st' = (Ok (Some w'), st') ∧
    mw_objects w' = [o] ∧
    wo_id o = wo_id tower ∧ wo_properties o = wo_properties tower ∧
    wo_x o = Float (millionths 1000000) ∧
    wo_scale o = VFloat (millionths 3000000) ∧
    wo_color o = VStr "#112233".
Proof.
  pose proof (surjective_pairing
    (add_object aurora_id "building" "tower" (Int 1) (Int 2)
       (Float (millionths 3500000)) tower_props db2)) as Hadd.
  assert ((add_object aurora_id "building" "tower" (Int 1) (Int 2)
             (Float (millionths 3500000)) tower_props db2).1 = Ok tower) as Hobj.
  { reflexivity. }
  rewrite Hobj in Hadd.
  destruct (add_object_then_get _ _ _ _ _ _ _ _ _ _ Hadd)
    as (w & w' & o & fx & fy & fz & cs & cr & cc & Hget & Hget' & Hobjs & Hid & _ & _
        & Hprops & _ & _ & _ & _ & _ & _ & _ & _ & _ & _ & _ & _ & Hx & Hscale & Hcolor).
  assert (mw_objects w = []) as Hnone.
  { assert ((get_world aurora_id db2).1 = Ok (Some (MetaverseWorld_of_row aurora_row [])))
      as Hw by reflexivity.
    rewrite Hget in Hw. by injection Hw as ->. }
  eexists _, w', o. split; [exact Hadd|]. split; [exact Hget'|].
  split; [by rewrite Hobjs, Hnone|]. split; [exact Hid|]. split; [exact Hprops|].
  split; [exact (Hx 1 eq_refl)|]. split; [exact (Hscale 3 eq_refl)|].
  exact (Hcolor "#112233" eq_refl).
Defined.

(** X10 on a clock that never advances: the first object of Aurora is
    stored, the second is refused. *)
Lemma add_object_same_millisecond_witness :
  ∃ obj st1 st2,
    add_object aurora_id "tree" "oak" (Int 1) (Int 2) (Int 3) [] halted = (Ok obj, st1) ∧
    add_object aurora_id "light" "lamp" (Float (millionths 4000000))
      (Float (millionths 5000000)) (Float (millionths 6000000)) [] st1
      = (Raise IntegrityError, st2) ∧
    world_objects st2 = world_objects st1 ∧
    length (world_objects st1) = 1%nat.
Proof.
  pose proof (surjective_pairing
    (add_object aurora_id "tree" "oak" (Int 1) (Int 2) (Int 3) [] halted)) as Hadd.
  destruct (add_object aurora_id "tree" "oak" (Int 1) (Int 2) (Int 3) [] halted).1
    as [obj|e] eqn:Hobj; [|discriminate Hobj].
  destruct (add_object_same_millisecond _ _ _ _ _ _ _ "light" "lamp"
              (millionths 4000000) (millionths 5000000) (millionths 6000000)
              _ _ _ Hadd)
    as (st2 & Hrun2 & Hobjs & _).
  - listed.
  - reflexivity.
  - eexists obj, _, st2. split; [exact Hadd|]. split; [exact Hrun2|].
    split; [exact Hobjs|reflexivity].
Defined.

(** *** Invariants, for the session from the empty database *)

(** X11: no world id is stored twice after the session. *)
Lemma world_ids_unique_witness :
  unique_world_ids (run session db0) ∧
  ∀ world_id row,
    stored_world world_id (run session db0) = Some row →
    filter (λ r, wr_id r = world_id) (worlds (run session db0)) = [row].
Proof. apply world_ids_unique. apply NoDup_nil_2. Defined.

(** X12: no (player, world) pair is stored twice after the session. *)
Lemma position_keys_unique_witness :
  unique_position_keys (run session db0) ∧
  ∀ player_id world_id,
    (length (positions_of player_id world_id (run session db0)) ≤ 1)%nat.
Proof. apply position_keys_unique. apply NoDup_nil_2. Defined.

(** X13: every object stored by the session names a stored world. *)
Lemma objects_belong_to_worlds_witness :
  referential (run session db0) ∧
  ∀ r, r ∈ world_objects (run session db0) →
       is_Some (stored_world (or_world_id r) (run session db0)).
Proof. apply objects_belong_to_worlds. apply Forall_nil_2. Defined.

(** X14: the session stores valid themes and types only. *)
Lemma stored_names_valid_witness :
  valid_names (run session db0) ∧
  ∀ row, row ∈ worlds (run session db0) →
    wr_theme row ∈ dict_keys THEME_COLORS ∧
    dict_get THEME_COLORS (wr_theme row) "#FFFFFF" ≠ "#FFFFFF" ∧
    _get_terrain_color (wr_theme row) ≠ "#808080".
Proof. apply stored_names_valid. split; apply Forall_nil_2. Defined.

(** X22: every properties text stored by the session is a dump of free keywords. *)
Lemma properties_are_dumps_witness :
  dumped_properties (run session db0) ∧
  ∀ r, r ∈ world_objects (run session db0) →
    ∃ d, or_properties r = json_dumps (VDict d) ∧
         ∀ key, key ∈ ["scale"; "rotation"; "color"] → key ∉ dict_keys d.
Proof. apply properties_are_dumps. apply Forall_nil_2. Defined.

(** *** What a call leaves alone *)

(** X16: Aurora has its four tiles, whatever is done for Borealis. *)
Lemma other_worlds_untouched_witness :
  (get_world aurora_id (generate_terrain borealis_id db3).2).1 = (get_world aurora_id db3).1 ∧
  (get_world aurora_id (populate_world borealis_id db3).2).1 = (get_world aurora_id db3).1.
Proof.
  destruct (other_worlds_untouched borealis_id aurora_id db3) as (_ & Hterrain & Hpopulate).
  - discriminate.
  - split; [exact Hterrain|exact Hpopulate].
Defined.

(** X18: bob's teleport leaves ada's position in Aurora alone. *)
Lemma teleport_leaves_other_pairs_witness :
  positions_of "ada" aurora_id (teleport aurora_id "bob" (Int 7) (Int 8) (Int 9) db4).2
    = positions_of "ada" aurora_id db4 ∧
  length (positions_of "ada" aurora_id db4) = 1%nat.
Proof.
  split; [|reflexivity].
  apply teleport_leaves_other_pairs. discriminate.
Defined.

(** *** The shared generator *)

(** X19 for Aurora, with the generator in another state. *)
Lemma reseeding_forgets_generator_witness :
  generate_terrain aurora_id (set_random 99 db2) = generate_terrain aurora_id db2 ∧
  populate_world aurora_id (set_random 99 db2) = populate_world aurora_id db2.
Proof.
  apply (reseeding_forgets_generator aurora_id db2 aurora_row).
  - reflexivity.
  - apply Forall_nil_2.
Defined.

(** X20 at Aurora, which has its terrain, and then Borealis, which has
    none: both get the same 27 rows. *)
Lemma population_deterministic_witness :
  ∃ st1' st2' rows1 rows2,
    populate_world aurora_id db3 = (Ok (), st1') ∧
    populate_world borealis_id db5 = (Ok (), st2') ∧
    world_objects st1' = world_objects db3 ++ rows1 ∧
    world_objects st2' = world_objects db5 ++ rows2 ∧
    length rows1 = 27%nat ∧
    Forall2 same_placement rows1 rows2.
Proof.
  apply (population_deterministic db3 db5 aurora_id borealis_id aurora_row borealis_row);
    try reflexivity.
  - listed.
  - listed.
  - exact reference_json_empty.
  - check_fresh.
  - check_fresh.
Defined.

(** X21 at Aurora: two runs leave eight tiles, the last four like the
    first four. *)
Lemma terrain_twice_witness :
  ∃ st1 st2 tiles1 tiles2,
    generate_terrain aurora_id db2 = (Ok (), st1) ∧
    generate_terrain aurora_id st1 = (Ok (), st2) ∧
    objects_of aurora_id st2 = objects_of aurora_id db2 ++ tiles1 ++ tiles2 ∧
    length tiles1 = 4%nat ∧
    Forall2 same_placement tiles1 tiles2.
Proof.
  apply (terrain_twice db2 aurora_id aurora_row).
  - reflexivity.
  - apply Forall_nil_2.
  - exact reference_randint.
  - exact reference_json_empty.
  - reflexivity.
  - check_fresh.
Defined.

(** *** Where the clock does not advance *)

(** X23 for Aurora on a clock that never advances: the tile of cell (0, 0)
    is stored, the second insert fails. *)
Lemma terrain_stops_at_collision_witness :
  ∃ st' tiles,
    generate_terrain aurora_id halted = (Raise IntegrityError, st') ∧
    world_objects st' = world_objects halted ++ tiles ∧
    length tiles = 1%nat ∧
    Forall2 (is_tile aurora_id "arctic") [(0, 0)] tiles.
Proof.
  destruct (terrain_stops_at_collision halted aurora_id aurora_row 1)
    as (st' & tiles & Hrun & Hobjs & Hlen & Htiles).
  - reflexivity.
  - apply Forall_nil_2.
  - exact reference_randint.
  - exact reference_json_empty.
  - reflexivity.
  - listed.
  - check_fresh.
  - listed.
  - exists st', tiles. split; [exact Hrun|]. split; [exact Hobjs|].
    split; [exact Hlen|exact Htiles].
Defined.

(** X24 for Aurora on the same clock: the first building is stored, the
    second insert fails. *)
Lemma population_stops_at_collision_witness :
  ∃ st' rows,
    populate_world aurora_id halted = (Raise IntegrityError, st') ∧
    world_objects st' = world_objects halted ++ rows ∧
    length rows = 1%nat.
Proof.
  destruct (population_stops_at_collision halted aurora_id aurora_row 1)
    as (st' & rows & Hrun & Hobjs & Hlen & _).
  - reflexivity.
  - apply Forall_nil_2.
  - exact reference_json_empty.
  - listed.
  - check_fresh.
  - listed.
  - exists st', rows. split; [exact Hrun|]. split; [exact Hobjs|exact Hlen].
Defined.

(** *** The command line *)

(** X26 for [create Aurora arctic --seed 42] on an empty database. *)
Lemma command_line_create_witness :
  ∃ st' row,
    main (dumps_indent 0) (create_command "Aurora" "arctic" (Some 42)) db0
      = (Ok [ "✓ Created world: Aurora (arctic)";
              "  ID: world_1700000000000";
              "  Seed: 42" ], st') ∧
    stored_world aurora_id st' = Some row ∧
    wr_size row = 1024 ∧
    length (objects_of aurora_id st') = 16%nat.
Proof.
  destruct (command_line_create (dumps_indent 0) "Aurora" "arctic" 42 db0)
    as (st' & row & Hrun & Hw & _ & _ & _ & Hsize & Hlen & _).
  - listed.
  - reflexivity.
  - apply Forall_nil_2.
  - listed.
  - exact reference_randint.
  - exact reference_json_empty.
  - check_fresh.
  - exists st', row. split; [exact Hrun|]. split; [exact Hw|].
    split; [exact Hsize|exact Hlen].
Defined.

(** X27 for [populate] on Aurora with its four tiles: 4 + 27 objects. *)
Lemma command_line_populate_witness :
  ∃ st',
    main (dumps_indent 0) (populate_command aurora_id) db3
      = (Ok [ "✓ Populated Aurora with 31 objects" ], st') ∧
    length (objects_of aurora_id st') = 31%nat.
Proof.
  destruct (command_line_populate (dumps_indent 0) aurora_id db3 aurora_row)
    as (st' & Hrun & Hlen).
  - reflexivity.
  - listed.
  - exact reference_json_empty.
  - check_fresh.
  - exists st'. split; [exact Hrun|exact Hlen].
Defined.

(** X28 for [export] on Aurora with its four tiles, in both formats. *)
Lemma command_line_export_witness :
  (∃ e, main (dumps_indent 0) (export_command aurora_id json_format) db3 = (Raise e, db3)) ∧
  ∃ line,
    main (dumps_indent 0) (export_command aurora_id gltf_format) db3
      = (Ok [ line +:+ "..." ], db3) ∧
    (String.length line ≤ 200)%nat.
Proof.
  destruct (command_line_export (dumps_indent 0) aurora_id db3) as [Hjson Hgltf].
  split; [exact Hjson|].
  destruct (Hgltf aurora_row) as (g & line & _ & Hrun & _ & Hlen).
  - reflexivity.
  - listed.
  - exists line. split; [exact Hrun|exact Hlen].
Defined.

End Scenarios.
